(** * Dante tutor: PDF text -> canto JSON pipelines

    A shallow embedding of [divina_pipeline.py] (one canto, page range given)
    and [divina_full_pipeline.py] (whole work, boundaries detected), with the
    properties of the line classifier, the segmenter, the identifier builder,
    the stanza grouper and the recitation-block builder.

    Python values are modelled as follows: [str] is a list of Unicode code
    points ([list N]), [int] is [Z], a list is a [list], the dictionaries with
    a fixed set of keys are records, the dictionary with computed keys is a
    [gmap], and a call that can raise returns an [outcome]. *)

From Stdlib Require Import ZArith NArith List Bool Lia String Ascii Decimal DecimalN.
From stdpp Require Import base option list gmap.
Import ListNotations.

#[local] Open Scope Z_scope.

(** ** Python strings *)

Abbreviation pystr := (list N) (only parsing).

(** An ASCII literal as a Python string. *)
Definition str (s : string) : pystr := map N_of_ascii (list_ascii_of_string s).
#[global] Arguments str : simpl never.

Definition len {A} (l : list A) : Z := Z.of_nat (length l).

Definition in_range (lo hi c : N) : bool := ((lo <=? c) && (c <=? hi))%N.

(** [str.isspace] on one character, which is also the class [\s] of [re] on
    [str] patterns. *)
Definition is_space (c : N) : bool :=
  in_range 9 13 c || in_range 28 32 c || (c =? 133)%N || (c =? 160)%N
  || (c =? 5760)%N || in_range 8192 8202 c || (c =? 8232)%N || (c =? 8233)%N
  || (c =? 8239)%N || (c =? 8287)%N || (c =? 12288)%N.

Definition is_ascii (c : N) : bool := (c <? 128)%N.
Definition is_ascii_upper (c : N) : bool := in_range 65 90 c.
Definition is_ascii_lower (c : N) : bool := in_range 97 122 c.
Definition is_ascii_digit (c : N) : bool := in_range 48 57 c.
Definition is_ascii_letter (c : N) : bool := is_ascii_upper c || is_ascii_lower c.
Definition ascii_lower (c : N) : N := if is_ascii_upper c then (c + 32)%N else c.
Definition ascii_upper (c : N) : N := if is_ascii_lower c then (c - 32)%N else c.

(** The part of the Unicode character database that the program consults
    beyond the ranges written out here: decimal digits from U+0660 on,
    alphanumerics from U+0080 on, and [str.lower] on a string that has a
    non-ASCII character. Nothing is assumed about them. *)
Class UnicodeData := {
  uni_decimal : N -> bool;
  uni_alnum : N -> bool;
  uni_lower : pystr -> pystr
}.

(** A database with nothing beyond ASCII, to evaluate ASCII examples. *)
Definition ascii_only : UnicodeData :=
  {| uni_decimal := fun _ => false; uni_alnum := fun _ => false; uni_lower := fun s => s |}.

Section Unicode.
Context {U : UnicodeData}.

(** The class [\d]: no decimal digit other than 0-9 lies below U+0660. *)
Definition is_decimal (c : N) : bool :=
  if (c <? 1632)%N then is_ascii_digit c else uni_decimal c.

(** The class [\w]: [str.isalnum] or the underscore. *)
Definition is_word (c : N) : bool :=
  if is_ascii c then is_ascii_letter c || is_ascii_digit c || (c =? 95)%N
  else uni_alnum c.

(** [str.lower]. *)
Definition lower (s : pystr) : pystr :=
  if forallb is_ascii s then map ascii_lower s else uni_lower s.
End Unicode.

(** [str.upper] on the characters that the part-title pattern can match
    (ASCII letters and their case-insensitive variants): U+0131 and U+017F
    have the ASCII upper cases I and S, U+0130 is its own upper case. *)
Definition upper_char (c : N) : N :=
  if (c =? 305)%N then 73%N else if (c =? 383)%N then 83%N else ascii_upper c.
Definition upper (s : pystr) : pystr := map upper_char s.

(** [str.strip], [str.startswith], [str.replace], [str.split] without
    argument, [str.rsplit(sep, 1)]. *)
Fixpoint lstrip (s : pystr) : pystr :=
  match s with
  | c :: s' => if is_space c then lstrip s' else s
  | [] => []
  end.
Definition rstrip (s : pystr) : pystr := rev (lstrip (rev s)).
Definition strip (s : pystr) : pystr := rstrip (lstrip s).

Fixpoint startswith (s p : pystr) : bool :=
  match p, s with
  | [], _ => true
  | x :: p', c :: s' => (c =? x)%N && startswith s' p'
  | _ :: _, [] => false
  end.

(** [s.replace(old, new)] for a one-character [old]. *)
Definition replace1 (old : N) (new : pystr) (s : pystr) : pystr :=
  flat_map (fun c => if (c =? old)%N then new else [c]) s.

(** [s.split()]: the maximal runs of non-whitespace characters. [w] is the
    word being read, reversed. *)
Fixpoint split_ws (w : pystr) (s : pystr) : list pystr :=
  match s with
  | [] => match w with [] => [] | _ => [rev w] end
  | c :: s' =>
      if is_space c
      then match w with [] => split_ws [] s' | _ => rev w :: split_ws [] s' end
      else split_ws (c :: w) s'
  end.
Definition split (s : pystr) : list pystr := split_ws [] s.

(** The text before and after the last occurrence of [sep]. *)
Fixpoint rpartition (sep : N) (s : pystr) : option (pystr * pystr) :=
  match s with
  | [] => None
  | c :: s' =>
      match rpartition sep s' with
      | Some (h, t) => Some (c :: h, t)
      | None => if (c =? sep)%N then Some ([], s') else None
      end
  end.
Definition rsplit1 (sep : N) (s : pystr) : list pystr :=
  match rpartition sep s with
  | Some (h, t) => [h; t]
  | None => [s]
  end.

(** ** Slices, indexing, ranges *)

(** A slice bound as Python normalises it: a negative bound counts from the
    end, and both ends are clamped to the sequence. *)
Definition slice_bound (n k : Z) : Z :=
  if k <? 0 then Z.max 0 (k + n) else Z.min k n.

(** [l[lo:hi]] *)
Definition slice {A} (l : list A) (lo hi : Z) : list A :=
  let a := slice_bound (len l) lo in
  let b := slice_bound (len l) hi in
  take (Z.to_nat (b - a)) (drop (Z.to_nat a) l).

(** [range(start, stop, step)] for a positive step. *)
Definition range_count (start stop step : Z) : nat :=
  Z.to_nat ((stop - start + step - 1) / step).
Definition py_range (start stop step : Z) : list Z :=
  map (fun k => start + step * Z.of_nat k) (seq 0 (range_count start stop step)).

(** ** Outcomes of a call *)

(** The exceptions of the two files. [OSError] stands for what a directory
    or file operation raises ([FileNotFoundError], [PermissionError] and
    the like). *)
Inductive exn :=
| ValueError (msg : pystr)
| KeyError (key : pystr)
| IndexError
| AttributeError
| OSError (msg : pystr).

Inductive outcome (A : Type) :=
| Ok (a : A)
| Raise (e : exn)
| OutOfFuel.
Arguments Ok {A} a.
Arguments Raise {A} e.
Arguments OutOfFuel {A}.

Definition bind {A B} (m : outcome A) (k : A -> outcome B) : outcome B :=
  match m with
  | Ok a => k a
  | Raise e => Raise e
  | OutOfFuel => OutOfFuel
  end.

Notation "'do' x <- m ; k" := (bind m (fun x => k))
  (at level 10, x name, m at level 100, k at level 200).

(** [l[i]] *)
Definition index {A} (l : list A) (i : Z) : outcome A :=
  let j := if i <? 0 then i + len l else i in
  if j <? 0 then Raise IndexError
  else match nth_error l (Z.to_nat j) with
       | Some x => Ok x
       | None => Raise IndexError
       end.

(** A loop over a list whose body may raise. *)
Fixpoint foldM {A S} (f : S -> A -> outcome S) (s : S) (l : list A) : outcome S :=
  match l with
  | [] => Ok s
  | x :: l' => do s' <- f s x; foldM f s' l'
  end.

(** ** Formatting integers *)

Fixpoint uint_chars (d : Decimal.uint) : pystr :=
  match d with
  | Nil => []
  | D0 d => 48%N :: uint_chars d
  | D1 d => 49%N :: uint_chars d
  | D2 d => 50%N :: uint_chars d
  | D3 d => 51%N :: uint_chars d
  | D4 d => 52%N :: uint_chars d
  | D5 d => 53%N :: uint_chars d
  | D6 d => 54%N :: uint_chars d
  | D7 d => 55%N :: uint_chars d
  | D8 d => 56%N :: uint_chars d
  | D9 d => 57%N :: uint_chars d
  end.

(** The decimal digits of a natural number, as [str(n)] gives them. *)
Definition decimal (n : N) : pystr := uint_chars (N.to_uint n).

(** [str(z)] *)
Definition str_int (z : Z) : pystr :=
  (if z <? 0 then [45%N] else []) ++ decimal (Z.abs_N z).

(** [format(z, "0<w>d")]: sign first, then zeros up to width [w], then the
    digits. *)
Definition format_0d (w : nat) (z : Z) : pystr :=
  let sign := if z <? 0 then [45%N] else [] in
  let ds := decimal (Z.abs_N z) in
  sign ++ replicate (w - length sign - length ds) 48%N ++ ds.

(** ** Regular expressions

    The fragment of [re] that the program's patterns use. Every pattern is
    applied with [re.match], so [^] is implied. Repetition is only ever
    applied to a character class. *)

Inductive cclass :=
| CSet (cs : pystr)          (* [abc]: listed characters *)
| CPred (p : N -> bool).     (* \s, \d, ., a range or a union of those *)

Inductive regex :=
| Eps
| Lit (x : N)
| Any (cl : cclass)
| Seq (a b : regex)
| Alt (a b : regex)
| Star (cl : cclass)
| Group (a : regex)
| Eol.

(** The characters that a pattern character [x] matches under
    [re.IGNORECASE]: both cases, and the characters that lower-case or are
    equivalent to it (U+0130 and U+0131 for i, U+017F for s, U+212A for k).
    Exact for the cased characters of this program's patterns, the ASCII
    letters and a-grave; every other pattern character is uncased. *)
Definition ci_variants (x : N) : pystr :=
  if is_ascii_letter x then
    [ascii_upper x; ascii_lower x] ++
    (if (ascii_lower x =? 105)%N then [304; 305]
     else if (ascii_lower x =? 115)%N then [383]
     else if (ascii_lower x =? 107)%N then [8490]
     else [])%N
  else if (x =? 224)%N || (x =? 192)%N then [192; 224]%N
  else [x].

Definition lit_match (ic : bool) (x c : N) : bool :=
  if ic then existsb (N.eqb c) (ci_variants x) else (c =? x)%N.

Definition class_match (ic : bool) (cl : cclass) (c : N) : bool :=
  match cl with
  | CSet cs => existsb (fun x => lit_match ic x c) cs
  | CPred p => p c
  end.

(** [$]: at the end, or just before a newline that ends the string. *)
Definition at_eol (s : pystr) : bool :=
  match s with
  | [] => true
  | [c] => (c =? 10)%N
  | _ => false
  end.

Definition orelse {A} (x y : option A) : option A :=
  match x with
  | Some _ => x
  | None => y
  end.

Section Matcher.
Context {A : Type}.
Variable ic : bool.

(** Greedy repetition of a class: the longest run first, then shorter. *)
Fixpoint star_run (cl : cclass) (k : pystr -> option A) (s : pystr) : option A :=
  match s with
  | c :: s' => if class_match ic cl c then orelse (star_run cl k s') (k s) else k s
  | [] => k []
  end.

(** Backtracking matcher in continuation style; [g] is the text of group 1
    so far. The first success in priority order is the match. *)
Fixpoint run (r : regex) (s : pystr) (g : option pystr)
    (k : pystr -> option pystr -> option A) : option A :=
  match r with
  | Eps => k s g
  | Lit x =>
      match s with
      | c :: s' => if lit_match ic x c then k s' g else None
      | [] => None
      end
  | Any cl =>
      match s with
      | c :: s' => if class_match ic cl c then k s' g else None
      | [] => None
      end
  | Seq a b => run a s g (fun s' g' => run b s' g' k)
  | Alt a b => orelse (run a s g k) (run b s g k)
  | Star cl => star_run cl (fun s' => k s' g) s
  | Group a => run a s g (fun s' _ => k s' (Some (take (length s - length s') s)))
  | Eol => if at_eol s then k s g else None
  end.
End Matcher.

(** [re.match(pattern, s, flags)]: [None], or the match object, of which
    only group 1 is kept. *)
Definition re_match (ic : bool) (r : regex) (s : pystr) : option (option pystr) :=
  run ic r s None (fun _ g => Some g).

Definition matches (ic : bool) (r : regex) (s : pystr) : bool :=
  match re_match ic r s with Some _ => true | None => false end.

(** Pattern syntax. *)
Definition seqs (rs : list regex) : regex := fold_right Seq Eps rs.
Definition lits (s : pystr) : regex := seqs (map Lit s).
Definition Plus (cl : cclass) : regex := Seq (Any cl) (Star cl).
Definition Opt (r : regex) : regex := Alt r Eps.
Definition ws : cclass := CPred is_space.
Definition dot : cclass := CPred (fun c => negb (c =? 10)%N).

(** [re.sub(cls+, "", s)]: every maximal run of class characters is replaced
    by the empty string, so exactly the characters outside the class stay. *)
Definition sub_class_plus_empty (p : N -> bool) (s : pystr) : pystr :=
  List.filter (fun c => negb (p c)) s.

(** [re.findall(cls+, s)]: the maximal runs of class characters, in order.
    [w] is the run being read, reversed. *)
Fixpoint findall_runs (p : N -> bool) (w : pystr) (s : pystr) : list pystr :=
  match s with
  | [] => match w with [] => [] | _ => [rev w] end
  | c :: s' =>
      if p c then findall_runs p (c :: w) s'
      else match w with [] => findall_runs p [] s' | _ => rev w :: findall_runs p [] s' end
  end.

(** ** The records exchanged by the two pipelines *)

Module Verse.
Record t := mk {
  urn : pystr;
  number : Z;
  text_original : pystr;
  last_word : pystr;
  rhyme_letter : pystr;
  ssml : pystr
}.
End Verse.

Module Terzina.
Record t := mk {
  urn : pystr;
  start_verso : Z;
  end_verso : Z;
  rhyme_scheme : pystr;
  versi : list pystr
}.
End Terzina.

Module Block.
Record t := mk {
  urn : pystr;
  start_verso : Z;
  end_verso : Z;
  versi : list pystr;
  ssml : pystr
}.
End Block.

Module Counts.
Record t := mk {
  versi : Z;
  terzine : Z;
  recitation_blocks : Z
}.
End Counts.

(** The JSON object of one canto. *)
Module Canto.
Record t := mk {
  cantica : pystr;
  canto : Z;
  source_pdf : pystr;
  source_pages : list Z;
  counts : Counts.t;
  versi : list Verse.t;
  terzine : list Terzina.t;
  recitation_blocks : list Block.t
}.
End Canto.

(** [d[key]] on a dictionary written out as a table. *)
Fixpoint getitem (d : list (pystr * pystr)) (key : pystr) : outcome pystr :=
  match d with
  | [] => Raise (KeyError key)
  | (k, v) :: d' => if decide (k = key) then Ok v else getitem d' key
  end.


(** The truth value of a string. *)
Definition nonempty (s : pystr) : bool :=
  match s with
  | [] => false
  | _ :: _ => true
  end.

(** [enumerate(l)] *)
Definition enumerate {A} (l : list A) : list (Z * A) :=
  combine (map Z.of_nat (seq 0 (length l))) l.

(** [os.path.join(a, b)] for a relative [b]. *)
Definition path_join (a b : pystr) : pystr :=
  match last a with
  | None => b
  | Some c => if (c =? 47)%N then a ++ b else a ++ str "/" ++ b
  end.

(** The class [[A-Z\s\.\-]] of the short-heading test. *)
Definition caps_class (c : N) : bool :=
  is_ascii_upper c || is_space c || (c =? 46)%N || (c =? 45)%N.

(** The class [[A-Za-zÀ-ÖØ-öø-ÿ’']] of [last_word]. *)
Definition word_letter (c : N) : bool :=
  is_ascii_upper c || is_ascii_lower c || in_range 192 214 c
  || in_range 216 246 c || in_range 248 255 c || (c =? 8217)%N || (c =? 39)%N.

(** ** divina_pipeline.py: one canto from a given page range *)

Module divina_pipeline.
Section Pipeline.
Context {U : UnicodeData}.


Definition short_cantica (cantica : pystr) : outcome pystr :=
  let c := lower (strip cantica) in
  if startswith c (str "inf") then Ok (str "inf")
  else if startswith c (str "pur") then Ok (str "purg")
  else if startswith c (str "par") then Ok (str "par")
  else Raise (ValueError (str "Cantica non riconosciuta: " ++ cantica)).


(** Applied with [re.IGNORECASE]. *)
Definition HEADER_PATTERNS : list regex :=
  [ seqs [Star ws; lits (str "CANTO"); Plus ws; Plus (CSet (str "IVXLCDM")); Star ws; Eol];
    seqs [Star ws;
          Group (Alt (lits (str "Inferno")) (Alt (lits (str "Purgatorio")) (lits (str "Paradiso"))));
          Star ws; Eol];
    seqs [Star ws; lits (str "DANTE"); Plus ws; lits (str "ALIGHIERI"); Star ws; Eol];
    seqs [Star ws; lits (str "LA"); Plus ws; lits (str "DIVINA"); Plus ws; lits (str "COMMEDIA");
          Star ws; Eol] ].

Definition FOOTER_PATTERNS : list regex :=
  [ seqs [Star ws; Plus (CPred is_decimal); Star ws; Eol] ].

Definition is_header_footer (line : pystr) : bool :=
  existsb (fun pat => matches true pat line) (HEADER_PATTERNS ++ FOOTER_PATTERNS).

Definition clean_line (line : pystr) : pystr :=
  strip (replace1 173 [] line).

Definition is_probable_verse (line : pystr) : bool :=
  if negb (nonempty line) then false
  else if is_header_footer line then false
  else if len line <? 2 then false
  else if matches false (seqs [Plus (CPred caps_class); Eol]) line && (len (split line) <=? 4)
  then false
  else true.

(** [extract_lines_from_pdf], from the text lines of every page of the
    document ([extract_text().splitlines()] page by page). *)
Definition extract_lines_from_pdf (pages : list (list pystr)) (start_page end_page : Z)
    : outcome (list pystr) :=
  let n_pages := len pages in
  if (start_page <? 1) || (end_page >? n_pages) || (start_page >? end_page)
  then Raise (ValueError
                (str "Intervallo pagine non valido: 1.." ++ str_int n_pages ++ str ", richiesto "
                 ++ str_int start_page ++ str ".." ++ str_int end_page))
  else Ok (flat_map (fun raws => List.filter is_probable_verse (map clean_line raws))
             (slice pages (start_page - 1) end_page)).

Fixpoint group_terzine_loop (verses : list Verse.t) (idx : list Z) (terzine : list Terzina.t)
    : outcome (list Terzina.t) :=
  match idx with
  | [] => Ok terzine
  | i :: idx' =>
      let chunk := slice verses i (i + 3) in
      if len chunk <? 3 then Ok terzine
      else
        do first <- index chunk 0;
        do final <- index chunk (-1);
        let start_urn := Verse.urn first in
        do prefix <- index (rsplit1 46 start_urn) 0;
        group_terzine_loop verses idx'
          (terzine ++
           [ Terzina.mk
               (prefix ++ str "." ++ format_0d 3 (Verse.number first) ++ str "-"
                ++ format_0d 3 (Verse.number final))
               (Verse.number first) (Verse.number final) (str "aba")
               (map Verse.urn chunk) ])
  end.

Definition group_terzine (verses : list Verse.t) : outcome (list Terzina.t) :=
  group_terzine_loop verses (py_range 0 (len verses) 3) [].

Definition make_ssml_for_verso (text : pystr) : pystr :=
  let safe := replace1 62 (str "&gt;") (replace1 60 (str "&lt;") (replace1 38 (str "&amp;") text)) in
  str "<s>" ++ safe ++ str "</s>".

(** The parts appended for the texts numbered from [i] on. *)
Fixpoint ssml_parts (i : Z) (verses_texts : list pystr) : list pystr :=
  match verses_texts with
  | [] => []
  | t :: ts =>
      (str "<s>" ++ t ++ str "</s>")
      :: (if i mod 3 =? 0 then str "<break time='220ms'/>" else str "<break time='120ms'/>")
      :: ssml_parts (i + 1) ts
  end.

Definition make_ssml_for_block (verses_texts : list pystr) : pystr :=
  str "<p>" ++ concat (ssml_parts 1 verses_texts) ++ str "</p>".

Fixpoint build_recitation_blocks_loop (fuel : nat) (verses : list Verse.t)
    (block_size step n i : Z) (blocks : list Block.t) : outcome (list Block.t) :=
  match fuel with
  | O => OutOfFuel
  | S fuel' =>
      if i <? n then
        let chunk := slice verses i (i + block_size) in
        match chunk with
        | [] => Ok blocks
        | _ :: _ =>
            do first <- index chunk 0;
            do final <- index chunk (-1);
            let start_no := Verse.number first in
            let end_no := Verse.number final in
            let start_urn := Verse.urn first in
            let ssml := make_ssml_for_block (map Verse.text_original chunk) in
            do prefix <- index (rsplit1 46 start_urn) 0;
            let blocks' :=
              blocks ++
              [ Block.mk (prefix ++ str "." ++ format_0d 3 start_no ++ str "-" ++ format_0d 3 end_no)
                  start_no end_no (map Verse.urn chunk) ssml ] in
            if i + block_size >=? n then Ok blocks'
            else build_recitation_blocks_loop fuel' verses block_size step n (i + step) blocks'
        end
      else Ok blocks
  end.

Definition build_recitation_blocks (verses : list Verse.t) (block_size overlap : Z)
    : outcome (list Block.t) :=
  let n := len verses in
  if block_size <=? 0 then Ok []
  else
    let step := Z.max 1 (block_size - overlap) in
    build_recitation_blocks_loop (S (length verses)) verses block_size step n 0 [].

Definition last_word (text : pystr) : pystr :=
  match last (findall_runs word_letter [] text) with
  | Some tok => lower tok
  | None => []
  end.




End Pipeline.
End divina_pipeline.

(** ** divina_full_pipeline.py: the whole work, boundaries detected *)

Module divina_full_pipeline.

(** The manifest entry of a closed canto. [cantica] and [canto] are the
    loop variables of [run_pipeline], which may be [None]. *)
Module Entry.
Record t := mk {
  cantica : option pystr;
  canto : option Z;
  file : pystr;
  counts : Counts.t
}.
End Entry.

Module CantoBuffer.
Record t := mk {
  cantica : pystr;
  canto_num : Z;
  verses : list Verse.t
}.
End CantoBuffer.

(** The variables of [run_pipeline] that its loop and [close_canto] update:
    the manifest (its list of cantos and its computed [__last_canto_] keys),
    the files written so far, and the four [nonlocal] variables. *)
Module State.
Record t := mk {
  canti : list Entry.t;
  extra : gmap (list N) Z;
  written : list (pystr * Canto.t);
  current_cantica : option pystr;
  current_canto_num : option Z;
  canto_buf : option CantoBuffer.t;
  canto_start_page : option Z
}.
End State.

(** What a run leaves behind: the canto files, the manifest file and the
    returned summary. *)
Module Run.
Record t := mk {
  files : list (pystr * Canto.t);
  manifest_pdf : pystr;
  manifest_outdir : pystr;
  manifest_canti : list Entry.t;
  manifest_extra : gmap (list N) Z;
  manifest_path : pystr;
  count_canti : Z
}.
End Run.

(** The directory and file operations of [run_pipeline], each of which
    either succeeds or raises: [os.makedirs(outdir, exist_ok=True)], reading
    the text lines of the pages of the document ([PyPDF2.PdfReader],
    [extract_text], [splitlines]), [open] and [json.dump] of a canto file
    given the files written before it, and [open] and [json.dump] of the
    manifest. *)
Module FileSystem.
Record t := mk {
  makedirs : pystr -> option exn;
  read_pages : pystr -> exn + list (list pystr);
  dump_canto : list (pystr * Canto.t) -> pystr -> Canto.t -> option exn;
  dump_manifest : Run.t -> option exn
}.
End FileSystem.

(** An operation that returns nothing. *)
Definition io (r : option exn) : outcome unit :=
  match r with
  | Some e => Raise e
  | None => Ok tt
  end.

Section Pipeline.
Context {U : UnicodeData}.

Definition CANTICHE_TITLES : list (pystr * pystr) :=
  [ (str "INFERNO", str "Inferno");
    (str "PURGATORIO", str "Purgatorio");
    (str "PARADISO", str "Paradiso") ].

(** The class [[A-ZÀÈÉÌÒÙ]] of the ordinal words. *)
Definition ordinal_letter (c : N) : bool :=
  is_ascii_upper c || (c =? 192)%N || (c =? 200)%N || (c =? 201)%N
  || (c =? 204)%N || (c =? 210)%N || (c =? 217)%N.

(** Applied without flags. *)
Definition CANTO_HEADER_RE : regex :=
  seqs [Star ws; lits (str "CANTO"); Plus ws; Plus (CPred ordinal_letter);
        Opt (Group (Seq (Plus ws) (Plus (CPred ordinal_letter)))); Star ws; Eol].

(** Applied with [re.IGNORECASE]. *)
Definition CANTICA_HEADER_RE : regex :=
  seqs [Star ws;
        Group (Alt (lits (str "INFERNO")) (Alt (lits (str "PURGATORIO")) (lits (str "PARADISO"))));
        Star ws; Eol].

Definition HEADER_PATTERNS : list regex :=
  [ seqs [Star ws; lits (str "LA"); Plus ws; lits (str "DIVINA"); Plus ws; lits (str "COMMEDIA");
          Star ws; Eol];
    seqs [Star ws; lits (str "DANTE"); Plus ws; lits (str "ALIGHIERI"); Star ws; Eol];
    seqs [Star ws; lits (str "Propriet"); Any (CSet [97; 224]%N); Plus ws; lits (str "letteraria");
          Star dot; Eol];
    seqs [Star ws; lits (str "Milano"); Lit 46; Star ws; Lit 8211; Star ws; lits (str "Tip");
          Lit 46; Star ws; lits (str "Treves"); Lit 46; Star ws; Eol];
    seqs [Star ws; lits (str "PREFAZIONE"); Star ws; Eol];
    seqs [Star ws; lits (str "INDICE"); Star dot; Eol];
    seqs [Star ws; lits (str "Liber"); Plus ws; lits (str "Liber"); Star ws; Eol] ].

Definition FOOTER_PATTERNS : list regex :=
  [ seqs [Star ws; Plus (CPred is_decimal); Star ws; Eol] ].

Definition ILLUSTRATION_PATTERNS : list regex :=
  [ seqs [Star ws; lits (str "Raffaello"); Lit 46; Star dot; Eol];
    seqs [Star ws; lits (str "Michelangelo"); Lit 46; Star dot; Eol];
    seqs [Star ws; lits (str "Luca"); Plus ws; lits (str "Signorelli"); Lit 46; Star dot; Eol];
    seqs [Star ws; lits (str "Disegno"); Plus ws; lits (str "di"); Plus ws; Star dot; Eol];
    seqs [Star ws; lits (str "Miniatura"); Plus ws; lits (str "del"); Plus ws; Star dot; Eol];
    seqs [Star ws; lits (str "Pagina"); Plus ws; lits (str "del"); Plus ws; lits (str "Dante");
          Star dot; Eol] ].

Definition looks_like_noise (line : pystr) : bool :=
  existsb (fun pat => matches true pat line)
    (HEADER_PATTERNS ++ FOOTER_PATTERNS ++ ILLUSTRATION_PATTERNS).

Definition clean_line (line : pystr) : pystr :=
  let line := replace1 173 [] line in
  let line := replace1 8217 [8217%N] line in
  strip line.

Definition is_canto_header (line : pystr) : bool := matches false CANTO_HEADER_RE line.
Definition is_cantica_header (line : pystr) : bool := matches true CANTICA_HEADER_RE line.

Definition is_probable_verse (line : pystr) : bool :=
  let rest :=
    if is_canto_header line || is_cantica_header line then false
    else if len (sub_class_plus_empty (fun c => negb (is_word c)) line) <? 2 then false
    else true in
  if negb (nonempty line) then false
  else if looks_like_noise line then false
  else if matches false (seqs [Plus (CPred caps_class); Eol]) line && (len (split line) <=? 4)
  then (if negb (is_canto_header line) && negb (is_cantica_header line) then false else rest)
  else rest.

Definition last_word (text : pystr) : pystr :=
  match last (findall_runs word_letter [] text) with
  | Some tok => lower tok
  | None => []
  end.

Definition short_cantica (cantica : pystr) : outcome pystr :=
  let c := lower (strip cantica) in
  if startswith c (str "inf") then Ok (str "inf")
  else if startswith c (str "pur") then Ok (str "purg")
  else if startswith c (str "par") then Ok (str "par")
  else Raise (ValueError (str "Cantica non riconosciuta: " ++ cantica)).

Definition verse_urn (cantica : pystr) (canto n : Z) : outcome pystr :=
  do sc <- short_cantica cantica;
  Ok (sc ++ str "." ++ format_0d 2 canto ++ str "." ++ format_0d 3 n).

Definition ssml_for_verso (text : pystr) : pystr :=
  let safe := replace1 62 (str "&gt;") (replace1 60 (str "&lt;") (replace1 38 (str "&amp;") text)) in
  str "<s>" ++ safe ++ str "</s>".

(** The parts appended for the texts numbered from [i] on. *)
Fixpoint ssml_parts (i : Z) (verses_texts : list pystr) : list pystr :=
  match verses_texts with
  | [] => []
  | t :: ts =>
      (str "<s>" ++ t ++ str "</s>")
      :: (if i mod 3 =? 0 then str "<break time='220ms'/>" else str "<break time='120ms'/>")
      :: ssml_parts (i + 1) ts
  end.

Definition ssml_block (verses_texts : list pystr) : pystr :=
  str "<p>" ++ concat (ssml_parts 1 verses_texts) ++ str "</p>".

Fixpoint group_terzine_loop (verses : list Verse.t) (idx : list Z) (out : list Terzina.t)
    : outcome (list Terzina.t) :=
  match idx with
  | [] => Ok out
  | i :: idx' =>
      let chunk := slice verses i (i + 3) in
      if len chunk <? 3 then Ok out
      else
        do first <- index chunk 0;
        do final <- index chunk (-1);
        let start_no := Verse.number first in
        let end_no := Verse.number final in
        group_terzine_loop verses idx'
          (out ++
           [ Terzina.mk
               (slice (Verse.urn first) 0 (-3) ++ format_0d 3 start_no ++ str "-"
                ++ format_0d 3 end_no)
               start_no end_no (str "aba") (map Verse.urn chunk) ])
  end.

Definition group_terzine (verses : list Verse.t) : outcome (list Terzina.t) :=
  group_terzine_loop verses (py_range 0 (len verses) 3) [].

Fixpoint make_blocks_loop (fuel : nat) (verses : list Verse.t) (size step n i : Z)
    (blocks : list Block.t) : outcome (list Block.t) :=
  match fuel with
  | O => OutOfFuel
  | S fuel' =>
      if i <? n then
        let chunk := slice verses i (i + size) in
        match chunk with
        | [] => Ok blocks
        | _ :: _ =>
            do first <- index chunk 0;
            do final <- index chunk (-1);
            let start_no := Verse.number first in
            let end_no := Verse.number final in
            let ssml := ssml_block (map Verse.text_original chunk) in
            let blocks' :=
              blocks ++
              [ Block.mk
                  (slice (Verse.urn first) 0 (-3) ++ format_0d 3 start_no ++ str "-"
                   ++ format_0d 3 end_no)
                  start_no end_no (map Verse.urn chunk) ssml ] in
            if i + size >=? n then Ok blocks'
            else make_blocks_loop fuel' verses size step n (i + step) blocks'
        end
      else Ok blocks
  end.

Definition make_blocks (verses : list Verse.t) (size overlap : Z) : outcome (list Block.t) :=
  if size <=? 0 then Ok []
  else
    let step := Z.max 1 (size - overlap) in
    let n := len verses in
    make_blocks_loop (S (length verses)) verses size step n 0 [].

Definition add_verse (self : CantoBuffer.t) (text : pystr) : outcome CantoBuffer.t :=
  let n := len (CantoBuffer.verses self) + 1 in
  do urn <- verse_urn (CantoBuffer.cantica self) (CantoBuffer.canto_num self) n;
  do letter <- index (str "aba") ((n - 1) mod 3);
  Ok (CantoBuffer.mk (CantoBuffer.cantica self) (CantoBuffer.canto_num self)
        (CantoBuffer.verses self ++
         [Verse.mk urn n text (last_word text) [letter] (ssml_for_verso text)])).

Definition to_json (self : CantoBuffer.t) (source_pdf : pystr) (pages_range : list Z)
    (block_size block_overlap : Z) : outcome Canto.t :=
  do terzine <- group_terzine (CantoBuffer.verses self);
  do blocks <- make_blocks (CantoBuffer.verses self) block_size block_overlap;
  Ok (Canto.mk (CantoBuffer.cantica self) (CantoBuffer.canto_num self) source_pdf pages_range
        (Counts.mk (len (CantoBuffer.verses self)) (len terzine) (len blocks))
        (CantoBuffer.verses self) terzine blocks).

(** [parse_pdf], from the text lines of every page
    ([extract_text().splitlines()] page by page). *)
Definition parse_pdf (pages : list (list pystr)) : list (list pystr) :=
  map (fun raws => List.filter nonempty (map clean_line raws)) pages.

(** [run_pipeline] and its [close_canto], first with a directory and files
    that take every write: a file that the run writes is recorded in
    [State.written], and the pages are those that the document reads as.
    [run_pipeline_io] below is the function with the operations that can
    fail. *)
Section Run.
Variables (pdf outdir : pystr) (block_size block_overlap : Z).

Definition close_canto (end_page_idx : Z) (st : State.t) : outcome State.t :=
  match State.canto_buf st with
  | None => Ok st
  | Some buf =>
      let start := match State.canto_start_page st with
                   | Some p => if p =? 0 then 0 else p
                   | None => 0
                   end in
      do data <- to_json buf pdf [start + 1; end_page_idx + 1] block_size block_overlap;
      do code <- match State.current_cantica st with
                 | Some c => short_cantica c
                 | None => Raise AttributeError
                 end;
      let fname := code ++ str "_" ++ format_0d 2 (CantoBuffer.canto_num buf) ++ str ".json" in
      let fpath := path_join outdir fname in
      Ok (State.mk
            (State.canti st ++
             [Entry.mk (State.current_cantica st) (State.current_canto_num st) fpath
                (Canto.counts data)])
            (State.extra st)
            (State.written st ++ [(fpath, data)])
            (State.current_cantica st) None None None)
  end.

(** The body of the loop over the lines of page [page_idx]. *)
Definition process_line (page_idx : Z) (st : State.t) (line : pystr) : outcome State.t :=
  match re_match true CANTICA_HEADER_RE line with
  | Some m =>
      do st <- close_canto (page_idx - 1) st;
      do g <- match m with Some g => Ok g | None => Raise AttributeError end;
      let title := upper g in
      do name <- getitem CANTICHE_TITLES title;
      Ok (State.mk (State.canti st) (State.extra st) (State.written st) (Some name)
            (State.current_canto_num st) (State.canto_buf st) (State.canto_start_page st))
  | None =>
      if is_canto_header line then
        match State.current_cantica st with
        | None => Ok st
        | Some cantica =>
            do st <- close_canto (page_idx - 1) st;
            let key := str "__last_canto_" ++ cantica in
            let next_num := match State.extra st !! key with
                            | None => 1
                            | Some last_num => last_num + 1
                            end in
            Ok (State.mk (State.canti st) (<[key := next_num]> (State.extra st))
                  (State.written st) (State.current_cantica st) (Some next_num)
                  (Some (CantoBuffer.mk cantica next_num [])) (Some page_idx))
        end
      else
        match State.canto_buf st with
        | Some buf =>
            if is_probable_verse line then
              do buf <- add_verse buf line;
              Ok (State.mk (State.canti st) (State.extra st) (State.written st)
                    (State.current_cantica st) (State.current_canto_num st) (Some buf)
                    (State.canto_start_page st))
            else Ok st
        | None => Ok st
        end
  end.

Definition process_page (st : State.t) (page : Z * list pystr) : outcome State.t :=
  foldM (process_line page.1) st page.2.

Definition initial : State.t := State.mk [] ∅ [] None None None None.

(** [run_pipeline] after [parse_pdf]. *)
Definition run_lines (pages_lines : list (list pystr)) : outcome Run.t :=
  do st <- foldM process_page initial (enumerate pages_lines);
  do st <- close_canto (len pages_lines - 1) st;
  let extra := filter (fun kv => startswith kv.1 (str "__last_canto_") = false) (State.extra st) in
  Ok (Run.mk (State.written st) pdf outdir (State.canti st) extra
        (path_join outdir (str "manifest.json")) (len (State.canti st))).

Definition run_pipeline (pages : list (list pystr)) : outcome Run.t :=
  run_lines (parse_pdf pages).

(** The same with the directory and file operations of [fs], in the order
    of the source: a canto file is opened and written once its data and its
    name are computed and before the manifest gets its entry. *)
Variable fs : FileSystem.t.

Definition close_canto_io (end_page_idx : Z) (st : State.t) : outcome State.t :=
  match State.canto_buf st with
  | None => Ok st
  | Some buf =>
      let start := match State.canto_start_page st with
                   | Some p => if p =? 0 then 0 else p
                   | None => 0
                   end in
      do data <- to_json buf pdf [start + 1; end_page_idx + 1] block_size block_overlap;
      do code <- match State.current_cantica st with
                 | Some c => short_cantica c
                 | None => Raise AttributeError
                 end;
      let fname := code ++ str "_" ++ format_0d 2 (CantoBuffer.canto_num buf) ++ str ".json" in
      let fpath := path_join outdir fname in
      do _ <- io (FileSystem.dump_canto fs (State.written st) fpath data);
      Ok (State.mk
            (State.canti st ++
             [Entry.mk (State.current_cantica st) (State.current_canto_num st) fpath
                (Canto.counts data)])
            (State.extra st)
            (State.written st ++ [(fpath, data)])
            (State.current_cantica st) None None None)
  end.

Definition process_line_io (page_idx : Z) (st : State.t) (line : pystr) : outcome State.t :=
  match re_match true CANTICA_HEADER_RE line with
  | Some m =>
      do st <- close_canto_io (page_idx - 1) st;
      do g <- match m with Some g => Ok g | None => Raise AttributeError end;
      let title := upper g in
      do name <- getitem CANTICHE_TITLES title;
      Ok (State.mk (State.canti st) (State.extra st) (State.written st) (Some name)
            (State.current_canto_num st) (State.canto_buf st) (State.canto_start_page st))
  | None =>
      if is_canto_header line then
        match State.current_cantica st with
        | None => Ok st
        | Some cantica =>
            do st <- close_canto_io (page_idx - 1) st;
            let key := str "__last_canto_" ++ cantica in
            let next_num := match State.extra st !! key with
                            | None => 1
                            | Some last_num => last_num + 1
                            end in
            Ok (State.mk (State.canti st) (<[key := next_num]> (State.extra st))
                  (State.written st) (State.current_cantica st) (Some next_num)
                  (Some (CantoBuffer.mk cantica next_num [])) (Some page_idx))
        end
      else
        match State.canto_buf st with
        | Some buf =>
            if is_probable_verse line then
              do buf <- add_verse buf line;
              Ok (State.mk (State.canti st) (State.extra st) (State.written st)
                    (State.current_cantica st) (State.current_canto_num st) (Some buf)
                    (State.canto_start_page st))
            else Ok st
        | None => Ok st
        end
  end.

Definition process_page_io (st : State.t) (page : Z * list pystr) : outcome State.t :=
  foldM (process_line_io page.1) st page.2.

Definition run_pipeline_io : outcome Run.t :=
  do _ <- io (FileSystem.makedirs fs outdir);
  do pages <- match FileSystem.read_pages fs pdf with
              | inl e => Raise e
              | inr pages => Ok pages
              end;
  let pages_lines := parse_pdf pages in
  do st <- foldM process_page_io initial (enumerate pages_lines);
  do st <- close_canto_io (len pages_lines - 1) st;
  let extra := filter (fun kv => startswith kv.1 (str "__last_canto_") = false) (State.extra st) in
  let r := Run.mk (State.written st) pdf outdir (State.canti st) extra
             (path_join outdir (str "manifest.json")) (len (State.canti st)) in
  do _ <- io (FileSystem.dump_manifest fs r);
  Ok r.

End Run.
End Pipeline.
End divina_full_pipeline.

(** * Definitions used to state the properties *)

(** The indices of [range(0, n, 3)] from position [i] on. *)
Definition idx_from (i : Z) (m : nat) : list Z :=
  map (fun k => i + 3 * Z.of_nat k) (seq 0 m).

(** Consecutive groups of three; a shorter rest is dropped. *)
Fixpoint chunks3 {A} (l : list A) : list (list A) :=
  match l with
  | a :: b :: c :: l' => [a; b; c] :: chunks3 l'
  | _ => []
  end.

(** The stanza record that [divina_full_pipeline.group_terzine] builds from
    a group whose first and last verses are [a] and [c]. *)
Definition terzina_full (a c : Verse.t) (chunk : list Verse.t) : Terzina.t :=
  Terzina.mk
    (slice (Verse.urn a) 0 (-3) ++ format_0d 3 (Verse.number a) ++ str "-"
     ++ format_0d 3 (Verse.number c))
    (Verse.number a) (Verse.number c) (str "aba") (map Verse.urn chunk).

(** The text before the last dot, or the whole text if it has no dot:
    [s.rsplit('.', 1)[0]]. *)
Definition before_last_dot (s : pystr) : pystr :=
  match rpartition 46 s with
  | Some (h, _) => h
  | None => s
  end.

(** The stanza record that [divina_pipeline.group_terzine] builds. *)
Definition terzina_single (a c : Verse.t) (chunk : list Verse.t) : Terzina.t :=
  Terzina.mk
    (before_last_dot (Verse.urn a) ++ str "." ++ format_0d 3 (Verse.number a) ++ str "-"
     ++ format_0d 3 (Verse.number c))
    (Verse.number a) (Verse.number c) (str "aba") (map Verse.urn chunk).

Fixpoint terzine_of (mk : Verse.t -> Verse.t -> list Verse.t -> Terzina.t)
    (l : list Verse.t) : list Terzina.t :=
  match l with
  | a :: b :: c :: l' => mk a c [a; b; c] :: terzine_of mk l'
  | _ => []
  end.

(** What the claim on the stanza grouper says of its result [ts] on
    [verses]: as many stanzas as whole groups of three, the [k]-th stanza
    referring to the verses at indices [3k], [3k+1], [3k+2] and carrying the
    numbers of the first and the last of them, and all references together
    being the identifiers of the first [3 * (n / 3)] verses. *)
Definition stanza_partition (verses : list Verse.t) (ts : list Terzina.t) : Prop :=
  len ts = len verses / 3
  /\ (forall k : nat, Z.of_nat k < len verses / 3 ->
        exists t a b c,
          ts !! k = Some t
          /\ slice verses (3 * Z.of_nat k) (3 * Z.of_nat k + 3) = [a; b; c]
          /\ Terzina.versi t = [Verse.urn a; Verse.urn b; Verse.urn c]
          /\ Terzina.start_verso t = Verse.number a
          /\ Terzina.end_verso t = Verse.number c)
  /\ concat (map Terzina.versi ts) = map Verse.urn (slice verses 0 (3 * (len verses / 3)))
  /\ (len verses < 3 -> ts = []).

Definition no_verse : Verse.t := Verse.mk [] 0 [] [] [] [].

(** The block record that [divina_full_pipeline.make_blocks] builds from a
    window whose first and last verses are [a] and [c]. *)
Definition block_full (a c : Verse.t) (chunk : list Verse.t) : Block.t :=
  Block.mk
    (slice (Verse.urn a) 0 (-3) ++ format_0d 3 (Verse.number a) ++ str "-"
     ++ format_0d 3 (Verse.number c))
    (Verse.number a) (Verse.number c) (map Verse.urn chunk)
    (divina_full_pipeline.ssml_block (map Verse.text_original chunk)).

(** The block record that [divina_pipeline.build_recitation_blocks] builds. *)
Definition block_single (a c : Verse.t) (chunk : list Verse.t) : Block.t :=
  Block.mk
    (before_last_dot (Verse.urn a) ++ str "." ++ format_0d 3 (Verse.number a) ++ str "-"
     ++ format_0d 3 (Verse.number c))
    (Verse.number a) (Verse.number c) (map Verse.urn chunk)
    (divina_pipeline.make_ssml_for_block (map Verse.text_original chunk)).

(** The block of the window that starts at index [i]. *)
Definition block_at (mk : Verse.t -> Verse.t -> list Verse.t -> Block.t)
    (verses : list Verse.t) (size i : Z) : Block.t :=
  let chunk := slice verses i (i + size) in
  mk (hd no_verse chunk) (List.last chunk no_verse) chunk.

(** The window starts that the block loop visits from [i] on. *)
Fixpoint window_starts (fuel : nat) (n size step i : Z) : list Z :=
  match fuel with
  | O => []
  | S fuel' =>
      if i <? n then
        i :: (if i + size >=? n then [] else window_starts fuel' n size step (i + step))
      else []
  end.

(** What the claim on the block builder says of its result [blocks] on
    [verses] with block size [size] and stride [step]: the [k]-th block is
    the non-empty window of up to [size] verses that starts at index
    [k * step], it carries the numbers of its first and last verses, and a
    window reaches the end of the list exactly when it is the last block; an
    empty list gives no block, a non-empty list at least one. *)
Definition block_windows (verses : list Verse.t) (size step : Z) (blocks : list Block.t)
    : Prop :=
  (verses = [] -> blocks = [])
  /\ (verses <> [] -> blocks <> [])
  /\ forall (k : nat) (b : Block.t), blocks !! k = Some b ->
       let i := Z.of_nat k * step in
       i < len verses
       /\ (exists first chunk, slice verses i (i + size) = first :: chunk
             /\ Block.start_verso b = Verse.number first
             /\ Block.end_verso b = Verse.number (List.last chunk first))
       /\ Block.versi b = map Verse.urn (slice verses i (i + size))
       /\ (len verses <= i + size <-> S k = length blocks).

(** A verse whose identifier is the one the pipelines generate for its
    number, in some part and canto. *)
Definition generated_urn `{UnicodeData} (v : Verse.t) : Prop :=
  exists cantica canto,
    divina_full_pipeline.verse_urn cantica canto (Verse.number v) = Ok (Verse.urn v).

Definition no_dot (s : pystr) : bool := forallb (fun c => negb (c =? 46)%N) s.

(** ** Line classes *)

(** The characters that the pattern character [x] matches. *)
Definition variants (ic : bool) (x : N) : pystr := if ic then ci_variants x else [x].

(** [s] starts with characters that match the literal text [xs]. *)
Fixpoint prefix_match (ic : bool) (xs s : pystr) : bool :=
  match xs, s with
  | [], _ => true
  | x :: xs', c :: s' => lit_match ic x c && prefix_match ic xs' s'
  | _ :: _, [] => false
  end.

Definition disjointb (l1 l2 : pystr) : bool :=
  forallb (fun a => negb (existsb (N.eqb a) l2)) l1.

(** Two literal texts that cannot both match at the start of one string:
    at some position no character matches both. *)
Fixpoint clash (ic1 ic2 : bool) (xs ys : pystr) : bool :=
  match xs, ys with
  | x :: xs', y :: ys' =>
      disjointb (variants ic1 x) (variants ic2 y) || clash ic1 ic2 xs' ys'
  | _, _ => false
  end.

(** No whitespace character matches the first character of [w]. *)
Definition head_ok (ic : bool) (w : pystr) : bool :=
  match w with
  | x :: _ => forallb (fun c => negb (is_space c)) (variants ic x)
  | [] => false
  end.

(** The class that the loop of [divina_full_pipeline.run_pipeline] gives a
    line: the branch that the line takes. *)
Inductive line_class :=
| Noise
| PartMarker (part : pystr)
| CantoMarker
| VerseLine.

Definition classify `{UnicodeData} (line : pystr) : outcome line_class :=
  match re_match true divina_full_pipeline.CANTICA_HEADER_RE line with
  | Some m =>
      do g <- match m with Some g => Ok g | None => Raise AttributeError end;
      do name <- getitem divina_full_pipeline.CANTICHE_TITLES (upper g);
      Ok (PartMarker name)
  | None =>
      if divina_full_pipeline.is_canto_header line then Ok CantoMarker
      else if divina_full_pipeline.is_probable_verse line then Ok VerseLine
      else Ok Noise
  end.

(** The classification in the order that the specification gives: noise
    first, then the part marker, the canto marker, the verse. *)
Definition classify_by_precedence `{UnicodeData} (line : pystr) : outcome line_class :=
  if divina_full_pipeline.looks_like_noise line then Ok Noise
  else
    match re_match true divina_full_pipeline.CANTICA_HEADER_RE line with
    | Some m =>
        do g <- match m with Some g => Ok g | None => Raise AttributeError end;
        do name <- getitem divina_full_pipeline.CANTICHE_TITLES (upper g);
        Ok (PartMarker name)
    | None =>
        if divina_full_pipeline.is_canto_header line then Ok CantoMarker
        else if divina_full_pipeline.is_probable_verse line then Ok VerseLine
        else Ok Noise
    end.

(** The first words of the noise patterns that start with a word. *)
Definition noise_words : list pystr :=
  [ str "LA"; str "DANTE"; str "Propriet"; str "Milano"; str "PREFAZIONE"; str "INDICE";
    str "Liber"; str "Raffaello"; str "Michelangelo"; str "Luca"; str "Disegno";
    str "Miniatura"; str "Pagina" ].

Definition part_titles : list pystr := [str "INFERNO"; str "PURGATORIO"; str "PARADISO"].

(** The verse conditions in the words of the specification, with ASCII
    punctuation for "punctuation": non-empty, not noise, not a marker, at
    least 2 characters that are neither punctuation nor space, and not a
    line of at most 4 words made only of uppercase letters, spaces and
    punctuation. *)
Definition is_ascii_punct (c : N) : bool :=
  in_range 33 47 c || in_range 58 64 c || in_range 91 96 c || in_range 123 126 c.

Definition spec_heading_like (line : pystr) : bool :=
  forallb (fun c => is_ascii_upper c || is_space c || is_ascii_punct c) line
  && (len (split line) <=? 4).

Definition spec_verse `{UnicodeData} (line : pystr) : Prop :=
  line <> []
  /\ divina_full_pipeline.looks_like_noise line = false
  /\ divina_full_pipeline.is_cantica_header line = false
  /\ divina_full_pipeline.is_canto_header line = false
  /\ 2 <= len (List.filter (fun c => negb (is_ascii_punct c) && negb (is_space c)) line)
  /\ spec_heading_like line = false.

(** ** The segmenter *)

(** The part names with their short codes. *)
Definition part_codes : list (pystr * pystr) :=
  [ (str "Inferno", str "inf"); (str "Purgatorio", str "purg"); (str "Paradiso", str "par") ].

(** [code.cc.nnn] *)
Definition urn_text (code : pystr) (canto n : Z) : pystr :=
  code ++ str "." ++ format_0d 2 canto ++ str "." ++ format_0d 3 n.

(** [1; 2; ...; k] *)
Definition upto (k : Z) : list Z := map Z.of_nat (seq 1 (Z.to_nat k)).

(** The verses of canto [canto] of part [cantica], numbered from 1 in list
    order and carrying the identifiers generated for these numbers. *)
Definition verses_ok (cantica : pystr) (canto : Z) (verses : list Verse.t) : Prop :=
  exists code, In (cantica, code) part_codes
    /\ forall (i : nat) (v : Verse.t), verses !! i = Some v ->
         Verse.number v = Z.of_nat i + 1
         /\ Verse.urn v = urn_text code canto (Z.of_nat i + 1).

Definition key_of (cantica : pystr) : pystr := str "__last_canto_" ++ cantica.

(** The canto counter of a part: [manifest.get("__last_canto_<part>")], 0
    if the key is absent. *)
Definition counter (st : divina_full_pipeline.State.t) (p : pystr) : Z :=
  default 0 (divina_full_pipeline.State.extra st !! key_of p).

(** The number of closed cantos of a part. *)
Definition closed_count (st : divina_full_pipeline.State.t) (p : pystr) : Z :=
  counter st p
  - match divina_full_pipeline.State.canto_buf st with
    | Some buf => if decide (divina_full_pipeline.CantoBuffer.cantica buf = p) then 1 else 0
    | None => 0
    end.

Definition canto_urns (d : Canto.t) : list pystr := map Verse.urn (Canto.versi d).

(** The canto numbers of the part [p] among the cantos [ds], in order. *)
Definition cantos_of (p : pystr) (ds : list Canto.t) : list Z :=
  map Canto.canto (List.filter (fun d => bool_decide (Canto.cantica d = p)) ds).

(** The identifiers of all verses of a state, in document order. *)
Definition state_urns (st : divina_full_pipeline.State.t) : list pystr :=
  concat (map canto_urns (map snd (divina_full_pipeline.State.written st)))
  ++ match divina_full_pipeline.State.canto_buf st with
     | Some buf => map Verse.urn (divina_full_pipeline.CantoBuffer.verses buf)
     | None => []
     end.

(** The identifiers of all verses that a run wrote, in document order. *)
Definition run_urns (r : divina_full_pipeline.Run.t) : list pystr :=
  concat (map canto_urns (map snd (divina_full_pipeline.Run.files r))).

Definition entry_view (e : divina_full_pipeline.Entry.t) : option pystr * option Z * pystr * Counts.t :=
  (divina_full_pipeline.Entry.cantica e, divina_full_pipeline.Entry.canto e,
   divina_full_pipeline.Entry.file e, divina_full_pipeline.Entry.counts e).

Definition file_view (fd : pystr * Canto.t) : option pystr * option Z * pystr * Counts.t :=
  (Some (Canto.cantica fd.2), Some (Canto.canto fd.2), fd.1, Canto.counts fd.2).

(** The invariant of the loop of [run_pipeline]. *)
Record Inv (st : divina_full_pipeline.State.t) : Prop := {
  inv_part : forall c, divina_full_pipeline.State.current_cantica st = Some c ->
    exists code, In (c, code) part_codes;
  inv_buf : forall buf, divina_full_pipeline.State.canto_buf st = Some buf ->
    divina_full_pipeline.State.current_cantica st
      = Some (divina_full_pipeline.CantoBuffer.cantica buf)
    /\ divina_full_pipeline.State.current_canto_num st
       = Some (divina_full_pipeline.CantoBuffer.canto_num buf)
    /\ counter st (divina_full_pipeline.CantoBuffer.cantica buf)
       = divina_full_pipeline.CantoBuffer.canto_num buf
    /\ verses_ok (divina_full_pipeline.CantoBuffer.cantica buf)
         (divina_full_pipeline.CantoBuffer.canto_num buf)
         (divina_full_pipeline.CantoBuffer.verses buf);
  inv_count : forall p, 0 <= closed_count st p;
  inv_cantos : forall p,
    cantos_of p (map snd (divina_full_pipeline.State.written st)) = upto (closed_count st p);
  inv_verses : forall d, In d (map snd (divina_full_pipeline.State.written st)) ->
    verses_ok (Canto.cantica d) (Canto.canto d) (Canto.versi d);
  inv_nodup : NoDup (state_urns st);
  inv_manifest :
    map entry_view (divina_full_pipeline.State.canti st)
    = map file_view (divina_full_pipeline.State.written st)
}.

(** The states that the loop of [run_pipeline] can be in. *)
Inductive reachable `{UnicodeData} (pdf outdir : pystr) (block_size block_overlap : Z)
    : divina_full_pipeline.State.t -> Prop :=
| reach_initial : reachable pdf outdir block_size block_overlap divina_full_pipeline.initial
| reach_line (st st' : divina_full_pipeline.State.t) (page_idx : Z) (line : pystr) :
    reachable pdf outdir block_size block_overlap st ->
    divina_full_pipeline.process_line pdf outdir block_size block_overlap page_idx st line
    = Ok st' ->
    reachable pdf outdir block_size block_overlap st'.

(** [a < b] on strings: lexicographic on the code points. *)
Fixpoint str_lt (a b : pystr) : bool :=
  match a, b with
  | _, [] => false
  | [], _ :: _ => true
  | x :: a', y :: b' => (x <? y)%N || ((x =? y)%N && str_lt a' b')
  end.

(** A list in strictly ascending lexicographic order. *)
Definition ascending (l : list pystr) : Prop :=
  forall (i j : nat) (a b : pystr),
    (i < j)%nat -> l !! i = Some a -> l !! j = Some b -> str_lt a b = true.

(** What holds of the result of a run: every canto has its verses numbered
    from 1 with generated identifiers, the canto numbers of every part are
    1, 2, ... in file order, no identifier occurs twice, and the manifest
    lists the files. *)
Definition run_ok (r : divina_full_pipeline.Run.t) : Prop :=
  (forall d, In d (map snd (divina_full_pipeline.Run.files r)) ->
     verses_ok (Canto.cantica d) (Canto.canto d) (Canto.versi d))
  /\ (forall p, exists k,
        0 <= k /\ cantos_of p (map snd (divina_full_pipeline.Run.files r)) = upto k)
  /\ NoDup (run_urns r)
  /\ map entry_view (divina_full_pipeline.Run.manifest_canti r)
     = map file_view (divina_full_pipeline.Run.files r)
  /\ divina_full_pipeline.Run.count_canti r = len (divina_full_pipeline.Run.files r).

(** The identifiers of the verses of part [p] that a run wrote, in document
    order. *)
Definition part_urns (p : pystr) (r : divina_full_pipeline.Run.t) : list pystr :=
  concat (map canto_urns
            (List.filter (fun d => bool_decide (Canto.cantica d = p))
               (map snd (divina_full_pipeline.Run.files r)))).

(** The pause after the [i]-th verse of a block, counted from 1. *)
Definition pause (i : Z) : pystr :=
  if i mod 3 =? 0 then str "<break time='220ms'/>" else str "<break time='120ms'/>".

(** ** Concrete inputs *)

Definition five_verses : list Verse.t :=
  map (fun n => Verse.mk (str "inf.01." ++ format_0d 3 n) n (str "verso") (str "verso")
                 (str "a") (str "<s>verso</s>"))
    [1; 2; 3; 4; 5].

(** Three verses with an identifier that no pipeline builds. *)
Definition foreign_verses : list Verse.t :=
  map (fun n => Verse.mk (str "abc") n (str "verso") (str "verso") (str "a")
                 (str "<s>verso</s>"))
    [1; 2; 3].

(** Three verses with the identifiers of their numbers, numbered from -100. *)
Definition low_verses : list Verse.t :=
  map (fun n => Verse.mk (str "inf.01." ++ format_0d 3 n) n (str "verso") (str "verso")
                 (str "a") (str "<s>verso</s>"))
    [-100; -99; -98].

Definition ampersand_verse : Verse.t :=
  Verse.mk (str "inf.01.001") 1 (str "a&b") (str "b") (str "a") (str "<s>a&amp;b</s>").

(** The page of the scenario of the specification. *)
Definition scenario_pages : list (list pystr) :=
  [ [ str "LA DIVINA COMMEDIA"; str "INFERNO"; str "CANTO PRIMO";
      str "Nel mezzo del cammin di nostra vita"; str "5";
      str "che la diritta via era smarrita" ] ].

(** The first verses of the second and of the third part. *)
Definition two_parts_pages : list (list pystr) :=
  [ [ str "PURGATORIO"; str "CANTO PRIMO"; str "Per correr miglior acque alza le vele";
      str "PARADISO"; str "CANTO PRIMO"; str "La gloria di colui che tutto move" ] ].

(** A document that comes back to the first part after the second. *)
Definition interleaved_pages : list (list pystr) :=
  [ [ str "INFERNO"; str "CANTO PRIMO"; str "Nel mezzo del cammin di nostra vita" ];
    [ str "PURGATORIO"; str "CANTO PRIMO"; str "Per correr miglior acque alza le vele" ];
    [ str "INFERNO"; str "CANTO SECONDO"; str "Lo giorno se n'andava, e l'aere bruno" ] ].

(** What a run wrote, in short: part, canto, counts and identifiers. *)
Definition summary (r : outcome divina_full_pipeline.Run.t)
    : option (list (pystr * Z * Counts.t * list pystr)) :=
  match r with
  | Ok r => Some (map (fun fd => (Canto.cantica fd.2, Canto.canto fd.2, Canto.counts fd.2,
                                  canto_urns fd.2))
                    (divina_full_pipeline.Run.files r))
  | _ => None
  end.

(** INFERNO spelled with U+0130, the capital I with a dot above. *)
Definition dotted_title : pystr := 304%N :: str "NFERNO".

(** The state of a run after the lines INFERNO and CANTO PRIMO of page 0:
    the first canto is open and has no verse. *)
Definition part_state : divina_full_pipeline.State.t :=
  divina_full_pipeline.State.mk [] ∅ [] (Some (str "Inferno")) None None None.

Definition empty_canto_state : divina_full_pipeline.State.t :=
  divina_full_pipeline.State.mk [] (<[key_of (str "Inferno") := 1]> ∅) []
    (Some (str "Inferno")) (Some 1)
    (Some (divina_full_pipeline.CantoBuffer.mk (str "Inferno") 1 [])) (Some 0).

(** * Definitions used to state further properties *)

(** ** Markup and words *)

(** What escaping makes of one character. *)
Definition escape_char (c : N) : pystr :=
  if (c =? 38)%N then str "&amp;"
  else if (c =? 60)%N then str "&lt;"
  else if (c =? 62)%N then str "&gt;"
  else [c].

(** ** Verse records *)

(** The rhyme letter of the verse at position [i] of a canto, counted from
    0: the letters a, b, a in turn. *)
Definition rhyme_at (i : Z) : pystr := if i mod 3 =? 1 then str "b" else str "a".

(** The record of the verse numbered [n] of a canto, built from its text. *)
Definition verse_record `{UnicodeData} (code : pystr) (canto n : Z) (text : pystr) : Verse.t :=
  Verse.mk (urn_text code canto n) n text (divina_full_pipeline.last_word text)
    (rhyme_at (n - 1)) (divina_full_pipeline.ssml_for_verso text).

(** The records of the lines of a canto, numbered from [first]. *)
Definition numbered `{UnicodeData} (code : pystr) (canto first : Z) (lines : list pystr)
    : list Verse.t :=
  imap (fun i line => verse_record code canto (first + Z.of_nat i) line) lines.

(** The lines that [divina_pipeline.py] keeps of one page. *)
Definition page_verses `{UnicodeData} (raws : list pystr) : list pystr :=
  List.filter divina_pipeline.is_probable_verse (map divina_pipeline.clean_line raws).


(** Three pages of text, the first with a page number. *)
Definition three_pages : list (list pystr) :=
  [ [ str "  Nel mezzo del cammin di nostra vita"; str "12" ];
    [ str "mi ritrovai per una selva oscura," ];
    [ str "che la diritta via era smarrita."; str "" ] ].

(** ** Blocks *)

(** The number of blocks of [n] verses with block size [size] and stride
    [step]: none without verses; otherwise one, and one more for every
    stride that it takes until a window reaches the end. *)
Definition block_number (n size step : Z) : Z :=
  if n =? 0 then 0 else 1 + Z.max 0 ((n - size + step - 1) / step).

(** The references of the first block, then those of every later block
    without its first [overlap] references. *)
Definition fresh_refs (overlap : Z) (blocks : list Block.t) : list pystr :=
  concat (imap (fun k b => match k with
                           | O => Block.versi b
                           | S _ => drop (Z.to_nat overlap) (Block.versi b)
                           end) blocks).

(** ** Canto files *)

(** The path of the file of canto [canto] of the part with short code
    [code]. *)
Definition canto_file (outdir code : pystr) (canto : Z) : pystr :=
  path_join outdir (code ++ str "_" ++ format_0d 2 canto ++ str ".json").

(** The verses of a canto are the records of lines that the verse test
    accepts, numbered from 1. *)
Definition built_from `{UnicodeData} (cantica : pystr) (canto : Z) (verses : list Verse.t)
    : Prop :=
  exists code texts,
    In (cantica, code) part_codes
    /\ verses = numbered code canto 1 texts
    /\ Forall (fun t => divina_full_pipeline.is_probable_verse t = true) texts.

(** A canto file as [close_canto] writes it: on the path of its part and
    number, with verses built from accepted lines, and with everything else
    derived from these verses by [to_json]. *)
Definition file_ok `{UnicodeData} (pdf outdir : pystr) (block_size block_overlap : Z)
    (fd : pystr * Canto.t) : Prop :=
  (exists code, In (Canto.cantica fd.2, code) part_codes
     /\ fd.1 = canto_file outdir code (Canto.canto fd.2))
  /\ built_from (Canto.cantica fd.2) (Canto.canto fd.2) (Canto.versi fd.2)
  /\ divina_full_pipeline.to_json
       (divina_full_pipeline.CantoBuffer.mk (Canto.cantica fd.2) (Canto.canto fd.2)
          (Canto.versi fd.2))
       pdf (Canto.source_pages fd.2) block_size block_overlap
     = Ok fd.2.

(** What the loop of [run_pipeline] keeps besides [Inv]. *)
Record Inv2 `{UnicodeData} (pdf outdir : pystr) (block_size block_overlap : Z)
    (st : divina_full_pipeline.State.t) : Prop := {
  inv_files : Forall (file_ok pdf outdir block_size block_overlap)
                (divina_full_pipeline.State.written st);
  inv_open : forall buf, divina_full_pipeline.State.canto_buf st = Some buf ->
    built_from (divina_full_pipeline.CantoBuffer.cantica buf)
      (divina_full_pipeline.CantoBuffer.canto_num buf)
      (divina_full_pipeline.CantoBuffer.verses buf)
    /\ exists p, divina_full_pipeline.State.canto_start_page st = Some p;
  inv_keys : forall k n, divina_full_pipeline.State.extra st !! k = Some n ->
    exists p, k = key_of p
}.

(** A part title spelled with U+0130: the line matches the title pattern
    and its title, group 1 of the match, has the character. *)
Definition dotted_part_title (line : pystr) (g : pystr) : Prop :=
  re_match true divina_full_pipeline.CANTICA_HEADER_RE line = Some (Some g) /\ In 304%N g.

(** ** The segmentation as a function of the lines *)

(** The lines of the pages with the indices of their pages, in reading
    order. *)
Definition stream (pages_lines : list (list pystr)) : list (Z * pystr) :=
  flat_map (fun page : Z * list pystr => map (pair page.1) page.2) (enumerate pages_lines).

(** The canto that closing an open canto gives: the pages from the one of
    its heading to [end_page_idx], counted from 1, and its lines. *)
Definition close_segment (cur : option (Z * list pystr)) (end_page_idx : Z)
    : list (list Z * list pystr) :=
  match cur with
  | Some (start, texts) => [([start + 1; end_page_idx + 1], texts)]
  | None => []
  end.

(** The cantos of a stream of lines, each with its page range and the lines
    that make its verses. [part] tells whether a part title has been read,
    [cur] is the open canto, if any, with the page of its heading and its
    lines so far. A part title closes the open canto; a canto heading
    counts only after a part title, closes the open canto and opens a new
    one; any other line goes to the open canto if the verse test accepts
    it, and is dropped otherwise. The end of the stream closes the open
    canto on the page [last_page]. *)
Fixpoint segments `{UnicodeData} (part : bool) (cur : option (Z * list pystr)) (last_page : Z)
    (lines : list (Z * pystr)) : list (list Z * list pystr) :=
  match lines with
  | [] => close_segment cur last_page
  | (page_idx, line) :: rest =>
      if divina_full_pipeline.is_cantica_header line then
        close_segment cur (page_idx - 1) ++ segments true None last_page rest
      else if divina_full_pipeline.is_canto_header line then
        if part then
          close_segment cur (page_idx - 1) ++ segments true (Some (page_idx, [])) last_page rest
        else segments part cur last_page rest
      else
        match cur with
        | Some (start, texts) =>
            if divina_full_pipeline.is_probable_verse line
            then segments part (Some (start, texts ++ [line])) last_page rest
            else segments part cur last_page rest
        | None => segments part cur last_page rest
        end
  end.

(** The page range and the verse texts of a canto file. *)
Definition file_segment (fd : pystr * Canto.t) : list Z * list pystr :=
  (Canto.source_pages fd.2, map Verse.text_original (Canto.versi fd.2)).

(** What a state of the loop has of [part] and [cur]. *)
Definition part_of (st : divina_full_pipeline.State.t) : bool :=
  match divina_full_pipeline.State.current_cantica st with
  | Some _ => true
  | None => false
  end.

Definition open_of (st : divina_full_pipeline.State.t) : option (Z * list pystr) :=
  match divina_full_pipeline.State.canto_buf st with
  | Some buf =>
      Some (default 0 (divina_full_pipeline.State.canto_start_page st),
            map Verse.text_original (divina_full_pipeline.CantoBuffer.verses buf))
  | None => None
  end.

(** The lines after the first part title. *)
Fixpoint after_part_title `{UnicodeData} (lines : list pystr) : list pystr :=
  match lines with
  | [] => []
  | line :: rest =>
      if divina_full_pipeline.is_cantica_header line then rest else after_part_title rest
  end.

(** ** What a pattern matches *)

(** The pattern [r] matches the text [pre] when the text [suf] follows it:
    the declarative reading of the patterns, against which the matcher is
    checked. Only [$] looks at what follows. *)
Fixpoint lang (ic : bool) (r : regex) (pre suf : pystr) : Prop :=
  match r with
  | Eps => pre = []
  | Lit x => exists c, pre = [c] /\ lit_match ic x c = true
  | Any cl => exists c, pre = [c] /\ class_match ic cl c = true
  | Seq a b =>
      exists p1 p2, pre = p1 ++ p2 /\ lang ic a p1 (p2 ++ suf) /\ lang ic b p2 suf
  | Alt a b => lang ic a pre suf \/ lang ic b pre suf
  | Star cl => forallb (class_match ic cl) pre = true
  | Group a => lang ic a pre suf
  | Eol => pre = [] /\ at_eol suf = true
  end.

(** The text [t] spells the pattern text [xs], character by character. *)
Definition spells (ic : bool) (xs t : pystr) : Prop :=
  Forall2 (fun x c => lit_match ic x c = true) xs t.

(** A non-empty run of whitespace, and a word of the capital letters of
    the ordinal words. *)
Definition blank (s : pystr) : Prop := s <> [] /\ forallb is_space s = true.

Definition ordinal_word (w : pystr) : Prop :=
  w <> [] /\ forallb divina_full_pipeline.ordinal_letter w = true.

(** The page indices of a stream of lines never go down, starting from
    [lo]. *)
Fixpoint ordered (lo : Z) (lines : list (Z * pystr)) : Prop :=
  match lines with
  | [] => True
  | (p, _) :: rest => lo <= p /\ ordered p rest
  end.

(** ** Directory and file operations *)

(** The exception [e] is what a directory or file operation of a run
    raises. *)
Definition io_raises (fs : divina_full_pipeline.FileSystem.t) (pdf outdir : pystr) (e : exn)
    : Prop :=
  divina_full_pipeline.FileSystem.makedirs fs outdir = Some e
  \/ divina_full_pipeline.FileSystem.read_pages fs pdf = inl e
  \/ (exists written fpath data,
        divina_full_pipeline.FileSystem.dump_canto fs written fpath data = Some e)
  \/ (exists r, divina_full_pipeline.FileSystem.dump_manifest fs r = Some e).

(** No directory or file operation fails, and the document reads as
    [pages]. *)
Definition io_succeeds (fs : divina_full_pipeline.FileSystem.t) (pdf outdir : pystr)
    (pages : list (list pystr)) : Prop :=
  divina_full_pipeline.FileSystem.makedirs fs outdir = None
  /\ divina_full_pipeline.FileSystem.read_pages fs pdf = inr pages
  /\ (forall written fpath data,
        divina_full_pipeline.FileSystem.dump_canto fs written fpath data = None)
  /\ (forall r, divina_full_pipeline.FileSystem.dump_manifest fs r = None).

(** A computation with directory and file operations against the same
    computation without them: the same result, or an exception of [P]. *)
Definition io_sim {A} (P : exn -> Prop) (m_io m : outcome A) : Prop :=
  match m_io with
  | Ok a => m = Ok a
  | Raise e => m = Raise e \/ P e
  | OutOfFuel => m = OutOfFuel
  end.

(** A file system that cannot make a directory with the empty name, as
    [os.makedirs] cannot, and takes everything else; the document reads as
    [pages]. *)
Definition refusing_fs (pages : list (list pystr)) : divina_full_pipeline.FileSystem.t :=
  divina_full_pipeline.FileSystem.mk
    (fun outdir => match outdir with
                   | [] => Some (OSError (str "No such file or directory"))
                   | _ :: _ => None
                   end)
    (fun _ => inr pages) (fun _ _ _ => None) (fun _ => None).

(** * Properties *)

(** ** Slices and ranges *)

Lemma len_app {A} (l k : list A) : len (l ++ k) = len l + len k.
Proof. unfold len. rewrite length_app. lia. Qed.

Lemma len_nonneg {A} (l : list A) : 0 <= len l.
Proof. unfold len. lia. Qed.

Lemma slice_app_take {A} (pre rest : list A) (k : Z) :
  0 <= k -> slice (pre ++ rest) (len pre) (len pre + k) = take (Z.to_nat k) rest.
Proof.
  intros Hk. unfold slice, slice_bound. rewrite len_app.
  pose proof (len_nonneg pre) as Hp. pose proof (len_nonneg rest) as Hr.
  destruct (Z.ltb_spec (len pre) 0); [lia|].
  destruct (Z.ltb_spec (len pre + k) 0); [lia|].
  rewrite (Z.min_l (len pre)) by lia.
  replace (Z.to_nat (len pre)) with (length pre) by (unfold len; lia).
  rewrite drop_app_length.
  destruct (Z.le_gt_cases k (len rest)).
  - rewrite Z.min_l by lia. f_equal. lia.
  - rewrite Z.min_r by lia.
    rewrite !take_ge; auto; unfold len in *; lia.
Qed.

Lemma slice_from_0 {A} (l : list A) (k : Z) :
  0 <= k -> slice l 0 k = take (Z.to_nat k) l.
Proof. intros Hk. apply (slice_app_take [] l k Hk). Qed.

Lemma slice_take_drop {A} (l : list A) (i k : Z) :
  0 <= i <= len l -> 0 <= k ->
  slice l i (i + k) = take (Z.to_nat k) (drop (Z.to_nat i) l).
Proof.
  intros Hi Hk.
  assert (E : len (take (Z.to_nat i) l) = i).
  { unfold len in *. rewrite length_take. lia. }
  pose proof (slice_app_take (take (Z.to_nat i) l) (drop (Z.to_nat i) l) k Hk) as H.
  rewrite take_drop, E in H. exact H.
Qed.

Lemma index_0 {A} (x : A) (l : list A) : index (x :: l) 0 = Ok x.
Proof. reflexivity. Qed.

Lemma index_last {A} (l : list A) (x : A) : index (l ++ [x]) (-1) = Ok x.
Proof.
  unfold index. rewrite len_app. pose proof (len_nonneg l).
  change (len [x]) with 1. change (-1 <? 0) with true. cbv iota.
  destruct (Z.ltb_spec (-1 + (len l + 1)) 0); [lia|].
  replace (Z.to_nat (-1 + (len l + 1))) with (length l) by (unfold len; lia).
  rewrite nth_error_app2 by lia. rewrite Nat.sub_diag. reflexivity.
Qed.

Lemma idx_from_S i m : idx_from i (S m) = i :: idx_from (i + 3) m.
Proof.
  unfold idx_from. simpl. f_equal; [lia|].
  rewrite <- seq_shift, map_map. apply map_ext. intros; lia.
Qed.

Lemma py_range_3 (n : Z) : 0 <= n -> py_range 0 n 3 = idx_from 0 (Z.to_nat ((n + 2) / 3)).
Proof.
  intros Hn. unfold py_range, idx_from, range_count.
  replace (n - 0 + 3 - 1) with (n + 2) by lia. reflexivity.
Qed.

Lemma list_ind3 {A} (P : list A -> Prop) :
  P [] -> (forall a, P [a]) -> (forall a b, P [a; b]) ->
  (forall a b c l, P l -> P (a :: b :: c :: l)) ->
  forall l, P l.
Proof.
  intros H0 H1 H2 H3.
  assert (H : forall l, P l /\ (forall a, P (a :: l)) /\ (forall a b, P (a :: b :: l))).
  { induction l as [|x l (IH0 & IH1 & IH2)]; repeat split; auto. }
  intro l. apply H.
Qed.

Lemma chunks3_length {A} (l : list A) : len (chunks3 l) = len l / 3.
Proof.
  induction l using list_ind3; try reflexivity.
  cbn [chunks3]. unfold len in *. cbn [length].
  replace (Z.of_nat (S (S (S (length l))))) with (1 * 3 + Z.of_nat (length l)) by lia.
  rewrite Z.div_add_l by lia. lia.
Qed.

Lemma chunks3_concat {A} (l : list A) :
  concat (chunks3 l) = slice l 0 (3 * (len l / 3)).
Proof.
  rewrite slice_from_0 by (pose proof (len_nonneg l); apply Z.mul_nonneg_nonneg; [lia|apply Z.div_pos; lia]).
  induction l using list_ind3; try reflexivity.
  cbn [chunks3 concat]. rewrite IHl. unfold len. cbn [length].
  replace (Z.of_nat (S (S (S (length l))))) with (1 * 3 + Z.of_nat (length l)) by lia.
  rewrite Z.div_add_l by lia.
  replace (Z.to_nat (3 * (1 + Z.of_nat (length l) / 3)))
    with (S (S (S (Z.to_nat (3 * (Z.of_nat (length l) / 3)))))).
  - reflexivity.
  - assert (0 <= Z.of_nat (length l) / 3) by (apply Z.div_pos; lia). lia.
Qed.

Lemma chunks3_lookup {A} (l : list A) (k : nat) :
  Z.of_nat k < len l / 3 ->
  chunks3 l !! k = Some (slice l (3 * Z.of_nat k) (3 * Z.of_nat k + 3)).
Proof.
  revert k. induction l using list_ind3; intros k Hk;
    try (exfalso; vm_compute in Hk; destruct k; discriminate).
  unfold len in Hk. cbn [length] in Hk.
  replace (Z.of_nat (S (S (S (length l))))) with (1 * 3 + Z.of_nat (length l)) in Hk by lia.
  rewrite Z.div_add_l in Hk by lia.
  destruct k as [|k].
  - change (3 * Z.of_nat 0) with 0. rewrite (slice_from_0 _ 3) by lia. reflexivity.
  - cbn [chunks3 lookup list_lookup]. rewrite IHl by (unfold len; lia).
    f_equal. change (a :: b :: c :: l) with ([a; b; c] ++ l).
    assert (Hl : 0 <= Z.of_nat (length l) / 3) by (apply Z.div_pos; lia).
    assert (Hb : 3 * Z.of_nat k + 3 <= len l).
    { unfold len. pose proof (Z.mul_div_le (Z.of_nat (length l)) 3). lia. }
    rewrite !slice_take_drop; unfold len in *; rewrite ?length_app; cbn [length]; try lia.
    replace (Z.to_nat (3 * Z.of_nat (S k))) with (3 + Z.to_nat (3 * Z.of_nat k))%nat by lia.
    reflexivity.
Qed.

(** ** The stanza grouper *)

Lemma chunks3_shape {A} (l : list A) (k : nat) (ch : list A) :
  chunks3 l !! k = Some ch -> exists a b c, ch = [a; b; c].
Proof.
  revert k. induction l using list_ind3; intros k H; try discriminate.
  destruct k as [|k]; cbn in H.
  - inversion H. eauto.
  - eauto.
Qed.

Lemma terzine_of_chunks mk (l : list Verse.t) :
  terzine_of mk l
  = map (fun ch => mk (hd (Verse.mk [] 0 [] [] [] []) ch)
                      (List.last ch (Verse.mk [] 0 [] [] [] [])) ch) (chunks3 l).
Proof. induction l using list_ind3; try reflexivity. cbn [terzine_of chunks3 map]. rewrite IHl. reflexivity. Qed.

Lemma terzine_of_partition mk (verses : list Verse.t) :
  (forall a c ch, Terzina.versi (mk a c ch) = map Verse.urn ch) ->
  (forall a c ch, Terzina.start_verso (mk a c ch) = Verse.number a) ->
  (forall a c ch, Terzina.end_verso (mk a c ch) = Verse.number c) ->
  stanza_partition verses (terzine_of mk verses).
Proof.
  intros Hv Hs He. unfold stanza_partition. repeat split.
  - rewrite terzine_of_chunks. unfold len. rewrite length_map. apply chunks3_length.
  - intros k Hk. pose proof (chunks3_lookup verses k Hk) as Hl.
    destruct (chunks3_shape _ _ _ Hl) as (a & b & c & E).
    rewrite E in Hl.
    exists (mk a c [a; b; c]), a, b, c. repeat split; auto.
    rewrite terzine_of_chunks, list_lookup_fmap, Hl. reflexivity.
  - rewrite <- chunks3_concat, terzine_of_chunks, map_map.
    rewrite (map_ext _ (map Verse.urn)) by (intros; apply Hv).
    symmetry. apply concat_map.
  - intros H. destruct verses as [|a [|b [|c l]]]; try reflexivity.
    unfold len in H. cbn [length] in H. lia.
Qed.

Lemma full_group_terzine_loop_spec (m : nat) : forall pre rest out,
  (length rest <= 3 * m)%nat ->
  divina_full_pipeline.group_terzine_loop (pre ++ rest) (idx_from (len pre) m) out
  = Ok (out ++ terzine_of terzina_full rest).
Proof.
  induction m as [|m IH]; intros pre rest out Hm.
  - destruct rest; [|cbn in Hm; lia]. cbn. rewrite app_nil_r. reflexivity.
  - rewrite idx_from_S. cbn [divina_full_pipeline.group_terzine_loop].
    rewrite slice_app_take by lia. change (Z.to_nat 3) with 3%nat.
    destruct rest as [|a [|b [|c rest]]];
      try (cbn [terzine_of]; rewrite (app_nil_r out); reflexivity).
    change (take 3 (a :: b :: c :: rest)) with [a; b; c].
    change (len [a; b; c] <? 3) with false. cbv iota.
    rewrite index_0. cbn [bind].
    change (index [a; b; c] (-1)) with (index ([a; b] ++ [c]) (-1)). rewrite index_last.
    cbn [bind terzine_of].
    replace (pre ++ a :: b :: c :: rest) with ((pre ++ [a; b; c]) ++ rest)
      by (rewrite <- app_assoc; reflexivity).
    replace (len pre + 3) with (len (pre ++ [a; b; c])) by (rewrite len_app; reflexivity).
    rewrite IH by (cbn in Hm; lia).
    rewrite <- app_assoc. reflexivity.
Qed.

Lemma full_group_terzine_eq (verses : list Verse.t) :
  divina_full_pipeline.group_terzine verses = Ok (terzine_of terzina_full verses).
Proof.
  unfold divina_full_pipeline.group_terzine.
  rewrite py_range_3 by apply len_nonneg.
  apply (full_group_terzine_loop_spec _ [] verses []).
  pose proof (Z.mul_div_le (len verses + 2) 3). pose proof (Z.mod_pos_bound (len verses + 2) 3).
  pose proof (Z.div_mod (len verses + 2) 3).
  assert (0 <= (len verses + 2) / 3) by (apply Z.div_pos; pose proof (len_nonneg verses); lia).
  unfold len in *. lia.
Qed.

Lemma index_rsplit1 (s : pystr) : index (rsplit1 46 s) 0 = Ok (before_last_dot s).
Proof. unfold rsplit1, before_last_dot. destruct (rpartition 46 s) as [[h t]|]; reflexivity. Qed.

Lemma single_group_terzine_loop_spec (m : nat) : forall pre rest out,
  (length rest <= 3 * m)%nat ->
  divina_pipeline.group_terzine_loop (pre ++ rest) (idx_from (len pre) m) out
  = Ok (out ++ terzine_of terzina_single rest).
Proof.
  induction m as [|m IH]; intros pre rest out Hm.
  - destruct rest; [|cbn in Hm; lia]. cbn. rewrite app_nil_r. reflexivity.
  - rewrite idx_from_S. cbn [divina_pipeline.group_terzine_loop].
    rewrite slice_app_take by lia. change (Z.to_nat 3) with 3%nat.
    destruct rest as [|a [|b [|c rest]]];
      try (cbn [terzine_of]; rewrite (app_nil_r out); reflexivity).
    change (take 3 (a :: b :: c :: rest)) with [a; b; c].
    change (len [a; b; c] <? 3) with false. cbv iota.
    rewrite index_0. cbn [bind].
    change (index [a; b; c] (-1)) with (index ([a; b] ++ [c]) (-1)). rewrite index_last.
    cbn [bind]. rewrite index_rsplit1. cbn [bind terzine_of].
    replace (pre ++ a :: b :: c :: rest) with ((pre ++ [a; b; c]) ++ rest)
      by (rewrite <- app_assoc; reflexivity).
    replace (len pre + 3) with (len (pre ++ [a; b; c])) by (rewrite len_app; reflexivity).
    rewrite IH by (cbn in Hm; lia).
    rewrite <- app_assoc. reflexivity.
Qed.

Lemma single_group_terzine_eq (verses : list Verse.t) :
  divina_pipeline.group_terzine verses = Ok (terzine_of terzina_single verses).
Proof.
  unfold divina_pipeline.group_terzine.
  rewrite py_range_3 by apply len_nonneg.
  apply (single_group_terzine_loop_spec _ [] verses []).
  pose proof (Z.mul_div_le (len verses + 2) 3). pose proof (Z.mod_pos_bound (len verses + 2) 3).
  pose proof (Z.div_mod (len verses + 2) 3).
  assert (0 <= (len verses + 2) / 3) by (apply Z.div_pos; pose proof (len_nonneg verses); lia).
  unfold len in *. lia.
Qed.

(** C1. On every verse list, both versions of the stanza grouper return
    (without raising) exactly [n / 3] stanzas, the [k]-th made of the three
    verses at indices [3k .. 3k+2]; the verse references of all stanzas, in
    order, are the identifiers of the first [3 * (n / 3)] verses; fewer than
    three verses give no stanza. *)
Theorem group_terzine_partition (verses : list Verse.t) :
  (exists ts, divina_full_pipeline.group_terzine verses = Ok ts /\ stanza_partition verses ts)
  /\ (exists ts, divina_pipeline.group_terzine verses = Ok ts /\ stanza_partition verses ts).
Proof.
  split.
  - exists (terzine_of terzina_full verses). split; [apply full_group_terzine_eq|].
    apply terzine_of_partition; reflexivity.
  - exists (terzine_of terzina_single verses). split; [apply single_group_terzine_eq|].
    apply terzine_of_partition; reflexivity.
Qed.

(** ** The recitation-block builder *)

Lemma index_hd {A} (d : A) (l : list A) : l <> [] -> index l 0 = Ok (hd d l).
Proof. destruct l; [congruence|reflexivity]. Qed.

Lemma index_final {A} (d : A) (l : list A) : l <> [] -> index l (-1) = Ok (List.last l d).
Proof.
  intros Hl. destruct (exists_last Hl) as (l' & x & ->).
  rewrite index_last, last_last. reflexivity.
Qed.

Lemma slice_nonempty {A} (l : list A) (i size : Z) :
  0 <= i < len l -> 1 <= size -> slice l i (i + size) <> [].
Proof.
  intros Hi Hs. rewrite slice_take_drop by lia.
  intros E. apply (f_equal (@length A)) in E.
  rewrite length_take, length_drop in E. unfold len in *. cbn in E. lia.
Qed.

Section BlockLoop.
Variables (verses : list Verse.t) (size step : Z).
Hypothesis size_pos : 1 <= size.
Hypothesis step_pos : 1 <= step.

Lemma full_make_blocks_loop_spec (fuel : nat) : forall i blocks,
  0 <= i -> (Z.to_nat (len verses - i) < fuel)%nat ->
  divina_full_pipeline.make_blocks_loop fuel verses size step (len verses) i blocks
  = Ok (blocks ++ map (block_at block_full verses size)
                      (window_starts fuel (len verses) size step i)).
Proof.
  induction fuel as [|fuel IH]; intros i blocks Hi Hf; [lia|].
  cbn [divina_full_pipeline.make_blocks_loop window_starts].
  destruct (Z.ltb_spec i (len verses)) as [Hlt|Hge].
  - pose proof (slice_nonempty verses i size ltac:(lia) size_pos) as Hne.
    cbn [map]. unfold block_at at 1.
    destruct (slice verses i (i + size)) as [|v chunk] eqn:E; [congruence|].
    rewrite (index_hd no_verse) by congruence.
    rewrite (index_final no_verse) by congruence.
    cbn [bind].
    destruct (i + size >=? len verses).
    + reflexivity.
    + rewrite IH by lia. rewrite <- app_assoc. reflexivity.
  - cbn [map]. rewrite app_nil_r. reflexivity.
Qed.

Lemma single_make_blocks_loop_spec (fuel : nat) : forall i blocks,
  0 <= i -> (Z.to_nat (len verses - i) < fuel)%nat ->
  divina_pipeline.build_recitation_blocks_loop fuel verses size step (len verses) i blocks
  = Ok (blocks ++ map (block_at block_single verses size)
                      (window_starts fuel (len verses) size step i)).
Proof.
  induction fuel as [|fuel IH]; intros i blocks Hi Hf; [lia|].
  cbn [divina_pipeline.build_recitation_blocks_loop window_starts].
  destruct (Z.ltb_spec i (len verses)) as [Hlt|Hge].
  - pose proof (slice_nonempty verses i size ltac:(lia) size_pos) as Hne.
    cbn [map]. unfold block_at at 1.
    destruct (slice verses i (i + size)) as [|v chunk] eqn:E; [congruence|].
    rewrite (index_hd no_verse) by congruence.
    rewrite (index_final no_verse) by congruence.
    cbn [bind]. rewrite index_rsplit1. cbn [bind].
    destruct (i + size >=? len verses).
    + reflexivity.
    + rewrite IH by lia. rewrite <- app_assoc. reflexivity.
  - cbn [map]. rewrite app_nil_r. reflexivity.
Qed.

(** The visited starts are [i], [i + step], ...; each lies inside the list,
    and, the stride being at most the block size, a window reaches the end
    exactly at the last one. *)
Lemma window_starts_spec (fuel : nat) : step <= size -> forall i,
  0 <= i -> (Z.to_nat (len verses - i) < fuel)%nat ->
  (i < len verses -> window_starts fuel (len verses) size step i <> [])
  /\ forall (j : nat) (x : Z),
       window_starts fuel (len verses) size step i !! j = Some x ->
       x = i + Z.of_nat j * step /\ x < len verses
       /\ (len verses <= x + size
           <-> S j = length (window_starts fuel (len verses) size step i)).
Proof.
  intros Hle.
  induction fuel as [|fuel IH]; intros i Hi Hf; [lia|].
  cbn [window_starts].
  destruct (Z.ltb_spec i (len verses)) as [Hlt|Hge].
  2:{ split; [lia|]. intros j x H. discriminate. }
  split; [congruence|].
  destruct (Z.geb_spec (i + size) (len verses)) as [Hend|Hnot].
  - intros [|j] x H; cbn in H; [|discriminate].
    inversion H; subst x. cbn [length]. lia.
  - destruct (IH (i + step) ltac:(lia) ltac:(lia)) as [Hne IHj].
    intros [|j] x H; cbn in H.
    + inversion H; subst x. cbn [length]. split; [lia|]. split; [lia|].
      split; [lia|]. intros E. exfalso. apply Hne; [lia|].
      destruct (window_starts fuel (len verses) size step (i + step)); [reflexivity|discriminate].
    + destruct (IHj j x H) as (Hx & Hb & Hl). cbn [length].
      split; [lia|]. split; [lia|]. rewrite Hl. lia.
Qed.

End BlockLoop.

Lemma last_cons_default {A} (a d : A) (l : list A) : List.last (a :: l) d = List.last l a.
Proof.
  destruct l as [|b l]; [reflexivity|].
  change (List.last (a :: b :: l) d) with (List.last (b :: l) d).
  assert (Hne : b :: l <> []) by congruence.
  destruct (exists_last Hne) as (l' & x & ->).
  rewrite !last_last. reflexivity.
Qed.

Lemma block_windows_of_starts mk (verses : list Verse.t) (size step : Z) :
  1 <= step <= size ->
  (forall a c ch, Block.versi (mk a c ch) = map Verse.urn ch) ->
  (forall a c ch, Block.start_verso (mk a c ch) = Verse.number a) ->
  (forall a c ch, Block.end_verso (mk a c ch) = Verse.number c) ->
  block_windows verses size step
    (map (block_at mk verses size)
       (window_starts (S (length verses)) (len verses) size step 0)).
Proof.
  intros Hs Hv Hst Hen.
  destruct (window_starts_spec verses size step ltac:(lia) (S (length verses)) ltac:(lia) 0
              ltac:(lia) ltac:(unfold len; lia)) as [Hne Hj].
  unfold block_windows. repeat split.
  - intros ->. reflexivity.
  - intros Hv0 E. apply map_eq_nil in E. revert E. apply Hne.
    destruct verses; [congruence|]. unfold len. cbn. lia.
  - apply list_lookup_fmap_Some in H as (x & -> & Hx).
    destruct (Hj k x Hx) as (E & Hlt & _). lia.
  - apply list_lookup_fmap_Some in H as (x & -> & Hx).
    destruct (Hj k x Hx) as (E & Hlt & _).
    replace (Z.of_nat k * step) with x by lia.
    pose proof (slice_nonempty verses x size ltac:(lia) ltac:(lia)) as Hn.
    unfold block_at.
    destruct (slice verses x (x + size)) as [|first chunk]; [congruence|].
    exists first, chunk. rewrite Hst, Hen, last_cons_default. auto.
  - apply list_lookup_fmap_Some in H as (x & -> & Hx).
    destruct (Hj k x Hx) as (E & Hlt & _).
    replace (Z.of_nat k * step) with x by lia.
    unfold block_at. apply Hv.
  - apply list_lookup_fmap_Some in H as (x & -> & Hx).
    destruct (Hj k x Hx) as (E & Hlt & Hl).
    replace (Z.of_nat k * step) with x by lia.
    rewrite length_map. apply Hl.
  - apply list_lookup_fmap_Some in H as (x & -> & Hx).
    destruct (Hj k x Hx) as (E & Hlt & Hl).
    replace (Z.of_nat k * step) with x by lia.
    rewrite length_map. apply Hl.
Qed.

Lemma full_make_blocks_eq (verses : list Verse.t) (size overlap : Z) :
  1 <= size ->
  divina_full_pipeline.make_blocks verses size overlap
  = Ok (map (block_at block_full verses size)
          (window_starts (S (length verses)) (len verses) size (Z.max 1 (size - overlap)) 0)).
Proof.
  intros Hs. unfold divina_full_pipeline.make_blocks.
  destruct (Z.leb_spec size 0); [lia|].
  apply (full_make_blocks_loop_spec verses size (Z.max 1 (size - overlap)) Hs ltac:(lia) _ 0 []);
    unfold len; lia.
Qed.

Lemma single_make_blocks_eq (verses : list Verse.t) (size overlap : Z) :
  1 <= size ->
  divina_pipeline.build_recitation_blocks verses size overlap
  = Ok (map (block_at block_single verses size)
          (window_starts (S (length verses)) (len verses) size (Z.max 1 (size - overlap)) 0)).
Proof.
  intros Hs. unfold divina_pipeline.build_recitation_blocks.
  destruct (Z.leb_spec size 0); [lia|].
  apply (single_make_blocks_loop_spec verses size (Z.max 1 (size - overlap)) Hs ltac:(lia) _ 0 []);
    unfold len; lia.
Qed.

(** C2. With [0 <= O < B] the stride [max(1, B - O)] is [B - O]; both
    versions of the block builder return (the loop terminates, nothing is
    raised) the blocks of the windows that start at 0, stride, 2 * stride,
    ...: each window is non-empty and holds up to [B] verses, and a window
    reaches the end of the list exactly when it is the last block, so that
    nothing follows it. A non-positive block size gives no block, whatever
    the overlap. Five verses with [B = 3], [O = 1] give the two blocks of
    verses 1-3 and 3-5. *)
Theorem recitation_blocks_windows (verses : list Verse.t) (B O : Z) :
  0 <= O < B ->
  Z.max 1 (B - O) = B - O
  /\ (exists blocks,
        divina_full_pipeline.make_blocks verses B O = Ok blocks
        /\ block_windows verses B (Z.max 1 (B - O)) blocks)
  /\ (exists blocks,
        divina_pipeline.build_recitation_blocks verses B O = Ok blocks
        /\ block_windows verses B (Z.max 1 (B - O)) blocks)
  /\ (forall size overlap, size <= 0 ->
        divina_full_pipeline.make_blocks verses size overlap = Ok []
        /\ divina_pipeline.build_recitation_blocks verses size overlap = Ok [])
  /\ (forall v1 v2 v3 v4 v5 : Verse.t,
        (exists b1 b2,
           divina_full_pipeline.make_blocks [v1; v2; v3; v4; v5] 3 1 = Ok [b1; b2]
           /\ Block.versi b1 = [Verse.urn v1; Verse.urn v2; Verse.urn v3]
           /\ Block.versi b2 = [Verse.urn v3; Verse.urn v4; Verse.urn v5])
        /\ (exists b1 b2,
              divina_pipeline.build_recitation_blocks [v1; v2; v3; v4; v5] 3 1 = Ok [b1; b2]
              /\ Block.versi b1 = [Verse.urn v1; Verse.urn v2; Verse.urn v3]
              /\ Block.versi b2 = [Verse.urn v3; Verse.urn v4; Verse.urn v5])).
Proof.
  intros HO. split; [lia|]. split; [|split; [|split]].
  - eexists. split; [apply full_make_blocks_eq; lia|].
    apply block_windows_of_starts; try reflexivity. lia.
  - eexists. split; [apply single_make_blocks_eq; lia|].
    apply block_windows_of_starts; try reflexivity. lia.
  - intros size overlap Hs.
    unfold divina_full_pipeline.make_blocks, divina_pipeline.build_recitation_blocks.
    destruct (Z.leb_spec size 0); [auto|lia].
  - intros. rewrite full_make_blocks_eq, single_make_blocks_eq by lia.
    split; do 2 eexists; (split; [reflexivity|split; reflexivity]).
Qed.

(** ** The two variants build the same groups *)

Lemma format_0d_3_shape (n : Z) :
  -99 <= n <= 999 -> length (format_0d 3 n) = 3%nat /\ no_dot (format_0d 3 n) = true.
Proof.
  intros Hn.
  assert (Hall : forallb (fun k => let s := format_0d 3 (Z.of_nat k - 99) in
                                   (length s =? 3)%nat && no_dot s) (seq 0 1099) = true)
    by (vm_compute; reflexivity).
  rewrite forallb_forall in Hall.
  specialize (Hall (Z.to_nat (n + 99))).
  replace (Z.of_nat (Z.to_nat (n + 99)) - 99) with n in Hall by lia.
  cbv zeta in Hall. rewrite andb_true_iff, Nat.eqb_eq in Hall.
  apply Hall, in_seq. lia.
Qed.

Lemma rpartition_no_dot (d : pystr) : no_dot d = true -> rpartition 46 d = None.
Proof.
  induction d as [|c d IH]; [reflexivity|]. cbn [no_dot forallb]. fold (no_dot d).
  rewrite andb_true_iff, negb_true_iff. intros [Hc Hd].
  cbn [rpartition]. rewrite IH, Hc by assumption. reflexivity.
Qed.

Lemma rpartition_last_dot (x d : pystr) :
  no_dot d = true -> rpartition 46 (x ++ 46%N :: d) = Some (x, d).
Proof.
  intros Hd. induction x as [|c x IH]; cbn [app rpartition].
  - rewrite rpartition_no_dot by assumption. reflexivity.
  - rewrite IH. reflexivity.
Qed.

Lemma slice_drop_last3 (x d : pystr) : length d = 3%nat -> slice (x ++ d) 0 (-3) = x.
Proof.
  intros Hd. unfold slice, slice_bound. rewrite len_app.
  change (0 <? 0) with false. change (-3 <? 0) with true. cbv iota.
  pose proof (len_nonneg x). assert (Ed : len d = 3) by (unfold len; lia). rewrite Ed.
  rewrite Z.min_l by lia. rewrite Z.max_r by lia.
  replace (Z.to_nat (-3 + (len x + 3) - 0)) with (length x) by (unfold len; lia).
  change (Z.to_nat 0) with 0%nat. rewrite drop_0. apply take_app_length.
Qed.

Section Variants.
Context {U : UnicodeData}.

(** The identifier of a generated verse ends in a dot and three characters
    without a dot, so both ways of cutting the verse number off agree. *)
Lemma generated_urn_prefix (v : Verse.t) :
  -99 <= Verse.number v <= 999 -> generated_urn v ->
  slice (Verse.urn v) 0 (-3) = before_last_dot (Verse.urn v) ++ str ".".
Proof.
  intros Hn (cantica & canto & Hu).
  unfold divina_full_pipeline.verse_urn in Hu.
  destruct (divina_full_pipeline.short_cantica cantica) as [sc| |]; try discriminate.
  cbn [bind] in Hu. change (str ".") with [46%N] in *.
  destruct (format_0d_3_shape _ Hn) as [Hl Hd].
  set (d := format_0d 3 (Verse.number v)) in *.
  set (x := sc ++ [46%N] ++ format_0d 2 canto).
  assert (E : Verse.urn v = (x ++ [46%N]) ++ d).
  { unfold x. rewrite <- !app_assoc. congruence. }
  rewrite E, slice_drop_last3 by assumption.
  unfold before_last_dot. rewrite <- app_assoc. cbn [app].
  rewrite rpartition_last_dot by assumption. reflexivity.
Qed.

Lemma ssml_parts_agree (texts : list pystr) : forall i,
  divina_pipeline.ssml_parts i texts = divina_full_pipeline.ssml_parts i texts.
Proof.
  induction texts as [|t ts IH]; intros i; [reflexivity|].
  cbn [divina_pipeline.ssml_parts divina_full_pipeline.ssml_parts]. rewrite IH. reflexivity.
Qed.

Lemma ssml_block_agree (texts : list pystr) :
  divina_pipeline.make_ssml_for_block texts = divina_full_pipeline.ssml_block texts.
Proof.
  unfold divina_pipeline.make_ssml_for_block, divina_full_pipeline.ssml_block.
  rewrite ssml_parts_agree. reflexivity.
Qed.

Lemma terzina_agree (a c : Verse.t) (chunk : list Verse.t) :
  -99 <= Verse.number a <= 999 -> generated_urn a ->
  terzina_single a c chunk = terzina_full a c chunk.
Proof.
  intros Hn Hg. unfold terzina_single, terzina_full.
  rewrite (generated_urn_prefix a Hn Hg), <- !app_assoc. reflexivity.
Qed.

Lemma block_agree (a c : Verse.t) (chunk : list Verse.t) :
  -99 <= Verse.number a <= 999 -> generated_urn a ->
  block_single a c chunk = block_full a c chunk.
Proof.
  intros Hn Hg. unfold block_single, block_full.
  rewrite (generated_urn_prefix a Hn Hg), ssml_block_agree, <- !app_assoc. reflexivity.
Qed.

Lemma terzine_of_agree (verses : list Verse.t) :
  Forall (fun v => -99 <= Verse.number v <= 999 /\ generated_urn v) verses ->
  terzine_of terzina_single verses = terzine_of terzina_full verses.
Proof.
  induction verses using list_ind3; intros H; try reflexivity.
  cbn [terzine_of].
  inversion H as [|? ? [Ha Hg] H1]; subst.
  inversion H1 as [|? ? _ H2]; subst. inversion H2 as [|? ? _ H3]; subst.
  rewrite terzina_agree, IHverses by assumption. reflexivity.
Qed.

Lemma window_starts_bounds (fuel : nat) (n size step : Z) : 1 <= step -> forall i x,
  0 <= i -> In x (window_starts fuel n size step i) -> 0 <= x < n.
Proof.
  intros Hs. induction fuel as [|fuel IH]; intros i x Hi Hx; [destruct Hx|].
  cbn [window_starts] in Hx.
  destruct (Z.ltb_spec i n); [|destruct Hx].
  destruct Hx as [<-|Hx]; [lia|].
  destruct (i + size >=? n); [destruct Hx|].
  apply (IH (i + step)); [lia|assumption].
Qed.

Lemma hd_slice_In (verses : list Verse.t) (x size : Z) :
  0 <= x < len verses -> 1 <= size ->
  hd no_verse (slice verses x (x + size)) ∈ verses.
Proof.
  intros Hx Hs. pose proof (slice_nonempty verses x size Hx Hs) as Hne.
  rewrite slice_take_drop in * by lia.
  destruct (take (Z.to_nat size) (drop (Z.to_nat x) verses)) as [|v l] eqn:E; [congruence|].
  cbn [hd].
  assert (Hin : In v (take (Z.to_nat size) (drop (Z.to_nat x) verses))) by (rewrite E; left; reflexivity).
  apply list_elem_of_In in Hin.
  apply elem_of_take in Hin as (j & Hj & _).
  rewrite lookup_drop in Hj. apply list_elem_of_lookup. eauto.
Qed.

(** C10, as the code has it. On every list of verses as the pipelines
    build them (the identifier of each verse is the one generated for its
    number, in some part and canto) whose numbers lie between -99 and 999
    (the pipelines number from 1), and for every block size and overlap,
    the grouping functions of the two files return the same outcome: the
    same stanza records, and the same block records. *)
Theorem variants_agree (verses : list Verse.t) (block_size overlap : Z) :
  Forall (fun v => -99 <= Verse.number v <= 999 /\ generated_urn v) verses ->
  divina_pipeline.group_terzine verses = divina_full_pipeline.group_terzine verses
  /\ divina_pipeline.build_recitation_blocks verses block_size overlap
     = divina_full_pipeline.make_blocks verses block_size overlap.
Proof.
  intros Hall. split.
  - rewrite single_group_terzine_eq, full_group_terzine_eq, terzine_of_agree by assumption.
    reflexivity.
  - destruct (Z.le_gt_cases block_size 0) as [Hle|Hgt].
    + unfold divina_pipeline.build_recitation_blocks, divina_full_pipeline.make_blocks.
      destruct (Z.leb_spec block_size 0); [reflexivity|lia].
    + rewrite single_make_blocks_eq, full_make_blocks_eq by lia. f_equal.
      apply map_ext_in. intros x Hx.
      apply window_starts_bounds in Hx; [|lia|lia].
      unfold block_at.
      rewrite Forall_forall in Hall.
      destruct (Hall _ (hd_slice_In verses x block_size Hx ltac:(lia))) as [Hn Hg].
      apply block_agree; assumption.
Qed.

End Variants.

(** ** The matcher *)

Lemma orelse_None_r {A} (x : option A) : orelse x None = x.
Proof. destruct x; reflexivity. Qed.

Lemma orelse_Some {A} (x y : option A) (r : A) :
  orelse x y = Some r -> x = Some r \/ y = Some r.
Proof. destruct x; cbn; auto. Qed.

Lemma lit_match_variants (ic : bool) (x c : N) :
  lit_match ic x c = existsb (N.eqb c) (variants ic x).
Proof. destruct ic; cbn; [reflexivity|]. rewrite orb_false_r. reflexivity. Qed.

Lemma lit_match_In (ic : bool) (x c : N) :
  lit_match ic x c = true -> In c (variants ic x).
Proof.
  rewrite lit_match_variants, existsb_exists. intros (y & Hy & E).
  apply N.eqb_eq in E. subst. assumption.
Qed.

Lemma run_lits {A} (ic : bool) (xs : pystr) : forall s g (k : pystr -> option pystr -> option A),
  run ic (lits xs) s g k = if prefix_match ic xs s then k (drop (length xs) s) g else None.
Proof.
  induction xs as [|x xs IH]; intros s g k; [reflexivity|].
  change (lits (x :: xs)) with (Seq (Lit x) (lits xs)).
  cbn [run prefix_match length]. destruct s as [|c s]; [reflexivity|].
  destruct (lit_match ic x c); [|reflexivity].
  rewrite IH. reflexivity.
Qed.

Lemma star_ws_skip {A} (ic : bool) (k : pystr -> option A) (s : pystr) :
  (forall c s', is_space c = true -> k (c :: s') = None) ->
  star_run ic ws k s = k (lstrip s).
Proof.
  intros Hk. induction s as [|c s IH]; [reflexivity|].
  cbn [star_run lstrip class_match ws]. destruct (is_space c) eqn:E; [|reflexivity].
  rewrite IH, Hk by assumption. apply orelse_None_r.
Qed.

Lemma star_run_Some {A} (ic : bool) (cl : cclass) (k : pystr -> option A) (s : pystr) (r : A) :
  star_run ic cl k s = Some r ->
  exists pre suf, s = pre ++ suf /\ forallb (class_match ic cl) pre = true /\ k suf = Some r.
Proof.
  induction s as [|c s IH]; cbn [star_run]; intros H.
  - exists [], []. auto.
  - destruct (class_match ic cl c) eqn:E.
    + destruct (star_run ic cl k s) eqn:Es.
      * cbn in H. destruct (IH H) as (pre & suf & -> & Hp & Hk).
        exists (c :: pre), suf. cbn. rewrite E, Hp. auto.
      * cbn in H. exists [], (c :: s). auto.
    + exists [], (c :: s). auto.
Qed.

Lemma prefix_match_head_space (ic : bool) (w : pystr) (c : N) (s : pystr) :
  head_ok ic w = true -> is_space c = true -> prefix_match ic w (c :: s) = false.
Proof.
  intros Hw Hc. destruct w as [|x w]; [discriminate|].
  cbn [prefix_match head_ok] in *.
  destruct (lit_match ic x c) eqn:E; [|reflexivity].
  apply lit_match_In in E. rewrite forallb_forall in Hw. apply Hw in E.
  rewrite Hc in E. discriminate.
Qed.

(** A pattern [\s*word...] matches only if the line, without its leading
    whitespace, starts with the word. *)
Lemma match_ws_word (ic : bool) (w : pystr) (rest : regex) (line : pystr) :
  head_ok ic w = true ->
  matches ic (Seq (Star ws) (Seq (lits w) rest)) line = true ->
  prefix_match ic w (lstrip line) = true.
Proof.
  intros Hw. unfold matches, re_match. cbn [run].
  rewrite star_ws_skip.
  - rewrite run_lits. destruct (prefix_match ic w (lstrip line)); [reflexivity|discriminate].
  - intros c s' Hc. rewrite run_lits, prefix_match_head_space by assumption. reflexivity.
Qed.

Lemma clash_sound (ic1 ic2 : bool) (xs : pystr) : forall ys t,
  clash ic1 ic2 xs ys = true ->
  prefix_match ic1 xs t = true -> prefix_match ic2 ys t = true -> False.
Proof.
  induction xs as [|x xs IH]; intros ys t Hc H1 H2; [discriminate|].
  destruct ys as [|y ys]; [discriminate|]. destruct t as [|c t]; [discriminate|].
  cbn [clash prefix_match] in *.
  apply andb_true_iff in H1 as [Hx H1]. apply andb_true_iff in H2 as [Hy H2].
  apply orb_true_iff in Hc as [Hd|Hc]; [|eauto].
  apply lit_match_In in Hx. rewrite lit_match_variants in Hy.
  unfold disjointb in Hd. rewrite forallb_forall in Hd. apply Hd in Hx.
  rewrite Hy in Hx. discriminate.
Qed.


Lemma lstrip_suffix (s : pystr) : exists pre, s = pre ++ lstrip s /\ forallb is_space pre = true.
Proof.
  induction s as [|c s (pre & E & Hp)]; [exists []; auto|].
  cbn [lstrip]. destruct (is_space c) eqn:Hc.
  - exists (c :: pre). cbn. rewrite Hc, Hp, <- E. auto.
  - exists []. auto.
Qed.

Lemma prefix_match_length (ic : bool) (xs : pystr) : forall t,
  prefix_match ic xs t = true -> (length xs <= length t)%nat.
Proof.
  induction xs as [|x xs IH]; intros t H; cbn; [lia|].
  destruct t as [|c t]; [discriminate|]. cbn in *.
  apply andb_true_iff in H as [_ H]. apply IH in H. lia.
Qed.

Lemma prefix_match_head (ic : bool) (x : N) (xs t : pystr) (P : N -> bool) :
  prefix_match ic (x :: xs) t = true -> forallb P t = true ->
  existsb P (variants ic x) = true.
Proof.
  destruct t as [|c t]; [discriminate|]. cbn [prefix_match forallb].
  intros H HP. apply andb_true_iff in H as [H _]. apply andb_true_iff in HP as [HP _].
  apply existsb_exists. exists c. split; [apply lit_match_In; assumption|assumption].
Qed.

Lemma forallb_weaken {A} (P Q : A -> bool) (l : list A) :
  (forall x, P x = true -> Q x = true) -> forallb P l = true -> forallb Q l = true.
Proof.
  intros H. induction l as [|x l IH]; [reflexivity|]. cbn [forallb].
  rewrite !andb_true_iff. intros [Hx Hl]. auto.
Qed.

Section Classifier.
Context {U : UnicodeData}.

Import divina_full_pipeline.

(** A line that the page-number pattern matches is made of whitespace and
    decimal digits. *)
Lemma footer_chars (line : pystr) :
  matches true (seqs [Star ws; Plus (CPred is_decimal); Star ws; Eol]) line = true ->
  forallb (fun c => is_space c || is_decimal c) line = true.
Proof.
  unfold matches, re_match. cbn [seqs fold_right Plus run].
  destruct (star_run _ _ _ line) as [r|] eqn:E; [intros _|discriminate].
  apply star_run_Some in E as (p1 & s1 & -> & Hp1 & E).
  destruct s1 as [|c s1]; [discriminate|].
  cbn [class_match] in E. destruct (is_decimal c) eqn:Hc; [|discriminate].
  apply star_run_Some in E as (p2 & s2 & -> & Hp2 & E).
  apply star_run_Some in E as (p3 & s3 & -> & Hp3 & E).
  destruct (at_eol s3) eqn:He; [|discriminate].
  cbn [class_match ws] in *.
  rewrite forallb_app. cbn [forallb]. rewrite !forallb_app, Hc, orb_true_r.
  repeat (apply andb_true_iff; split); try reflexivity.
  - eapply forallb_weaken; [|exact Hp1]. intros x Hx. cbn in Hx. rewrite Hx. reflexivity.
  - eapply forallb_weaken; [|exact Hp2]. intros x Hx. cbn in Hx. rewrite Hx. apply orb_true_r.
  - eapply forallb_weaken; [|exact Hp3]. intros x Hx. cbn in Hx. rewrite Hx. reflexivity.
  - destruct s3 as [|x [|y s3]]; [reflexivity| |discriminate].
    cbn in He. apply N.eqb_eq in He. subst. reflexivity.
Qed.

Ltac word_head H w :=
  apply (match_ws_word true w) in H; [|vm_compute; reflexivity];
  left; exists w; split; [vm_compute; tauto|exact H].

(** What a line that matches a noise pattern looks like: it starts, after
    its leading whitespace, with the first word of a pattern, or it is made
    of whitespace and digits. *)
Lemma noise_head (line : pystr) :
  looks_like_noise line = true ->
  (exists w, In w noise_words /\ prefix_match true w (lstrip line) = true)
  \/ forallb (fun c => is_space c || is_decimal c) line = true.
Proof.
  unfold looks_like_noise, HEADER_PATTERNS, FOOTER_PATTERNS, ILLUSTRATION_PATTERNS.
  cbn [app existsb]. rewrite !orb_true_iff.
  intros [H|[H|[H|[H|[H|[H|[H|[H|[H|[H|[H|[H|[H|[H|H]]]]]]]]]]]]]].
  - word_head H (str "LA").
  - word_head H (str "DANTE").
  - word_head H (str "Propriet").
  - word_head H (str "Milano").
  - word_head H (str "PREFAZIONE").
  - word_head H (str "INDICE").
  - word_head H (str "Liber").
  - right. apply footer_chars. exact H.
  - word_head H (str "Raffaello").
  - word_head H (str "Michelangelo").
  - word_head H (str "Luca").
  - word_head H (str "Disegno").
  - word_head H (str "Miniatura").
  - word_head H (str "Pagina").
  - discriminate.
Qed.

Lemma canto_header_head (line : pystr) :
  is_canto_header line = true -> prefix_match false (str "CANTO") (lstrip line) = true.
Proof.
  intros H. apply (match_ws_word false (str "CANTO")) in H; [exact H|vm_compute; reflexivity].
Qed.

(** The match object of the part-title pattern: group 1 is the title as
    the line spells it. *)
Lemma cantica_header_match (line : pystr) (m : option pystr) :
  re_match true CANTICA_HEADER_RE line = Some m ->
  exists title, In title part_titles
    /\ prefix_match true title (lstrip line) = true
    /\ m = Some (take (length title) (lstrip line)).
Proof.
  unfold re_match, CANTICA_HEADER_RE. cbn [seqs fold_right run].
  rewrite star_ws_skip.
  2:{ intros c s' Hc. rewrite !run_lits.
      rewrite !prefix_match_head_space by (try assumption; vm_compute; reflexivity).
      reflexivity. }
  set (t := lstrip line). rewrite !run_lits.
  assert (Hend : forall (n : nat) (w : pystr),
            length w = n ->
            (if prefix_match true w t then
               star_run true ws
                 (fun s' => if at_eol s' then
                              Some (Some (take (length t - length (drop n t)) t))
                            else None) (drop n t)
             else None) = Some m ->
            In w part_titles ->
            exists title, In title part_titles
              /\ prefix_match true title t = true
              /\ m = Some (take (length title) t)).
  { intros n w Hn E Hin. destruct (prefix_match true w t) eqn:Hw; [|discriminate].
    apply star_run_Some in E as (p & s & _ & _ & E).
    destruct (at_eol s); [|discriminate]. inversion E.
    exists w. repeat split; try assumption. f_equal. f_equal.
    apply prefix_match_length in Hw. rewrite length_drop. lia. }
  intros E. apply orelse_Some in E as [E|E]; [|apply orelse_Some in E as [E|E]].
  - apply (Hend _ _ eq_refl E). vm_compute; tauto.
  - apply (Hend _ _ eq_refl E). vm_compute; tauto.
  - apply (Hend _ _ eq_refl E). vm_compute; tauto.
Qed.

End Classifier.

(** ** The line classifier *)

Lemma star_eol_forallb {A} (ic : bool) (p : N -> bool) (r : A) (s : pystr) :
  p 10%N = true ->
  star_run ic (CPred p) (fun s' => if at_eol s' then Some r else None) s
  = if forallb p s then Some r else None.
Proof.
  intros Hp. induction s as [|c s IH]; [reflexivity|].
  cbn [star_run class_match forallb]. rewrite IH.
  destruct (p c) eqn:Hc; cbn [andb].
  - destruct (forallb p s) eqn:Hs; [reflexivity|]. cbn [orelse].
    destruct s as [|d s]; [discriminate|]. reflexivity.
  - destruct s as [|d s]; [|reflexivity]. cbn [at_eol].
    destruct (N.eqb_spec c 10); [congruence|reflexivity].
Qed.

(** The short-heading pattern [^[A-Z\s\.\-]+$] matches the non-empty lines
    made of class characters only. *)
Lemma caps_match (line : pystr) :
  matches false (seqs [Plus (CPred caps_class); Eol]) line
  = nonempty line && forallb caps_class line.
Proof.
  unfold matches, re_match. cbn [seqs fold_right Plus run].
  destruct line as [|c s]; [reflexivity|]. cbn [class_match nonempty forallb andb].
  destruct (caps_class c); [|reflexivity].
  rewrite (star_eol_forallb false caps_class None s) by reflexivity.
  destruct (forallb caps_class s); reflexivity.
Qed.

Lemma filter_negb_negb {A} (p : A -> bool) (l : list A) :
  List.filter (fun c => negb (negb (p c))) l = List.filter p l.
Proof. apply filter_ext. intros a. apply negb_involutive. Qed.

Lemma forallb_lstrip (P : N -> bool) (s : pystr) :
  forallb P s = true -> forallb P (lstrip s) = true.
Proof.
  destruct (lstrip_suffix s) as (pre & E & _). rewrite E at 1.
  rewrite forallb_app, andb_true_iff. tauto.
Qed.

Section Classification.
Context {U : UnicodeData}.
Import divina_full_pipeline.

Lemma noise_not_canto_header (line : pystr) :
  looks_like_noise line = true -> is_canto_header line = false.
Proof.
  intros Hn. destruct (is_canto_header line) eqn:Hc; [exfalso|reflexivity].
  apply canto_header_head in Hc.
  destruct (noise_head line Hn) as [(w & Hw & Hp)|Hd].
  - apply (clash_sound true false w (str "CANTO") (lstrip line)); try assumption.
    assert (Hall : forallb (fun w => clash true false w (str "CANTO")) noise_words = true)
      by (vm_compute; reflexivity).
    rewrite forallb_forall in Hall. apply Hall. assumption.
  - apply forallb_lstrip in Hd.
    pose proof (prefix_match_head false _ _ _ _ Hc Hd) as H.
    vm_compute in H. discriminate.
Qed.

Lemma noise_not_cantica_header (line : pystr) :
  looks_like_noise line = true -> re_match true CANTICA_HEADER_RE line = None.
Proof.
  intros Hn. destruct (re_match true CANTICA_HEADER_RE line) as [m|] eqn:Hc; [exfalso|reflexivity].
  apply cantica_header_match in Hc as (title & Ht & Hp & _).
  destruct (noise_head line Hn) as [(w & Hw & Hpw)|Hd].
  - apply (clash_sound true true w title (lstrip line)); try assumption.
    assert (Hall : forallb (fun w => forallb (clash true true w) part_titles) noise_words = true)
      by (vm_compute; reflexivity).
    rewrite forallb_forall in Hall. specialize (Hall _ Hw).
    rewrite forallb_forall in Hall. apply Hall. assumption.
  - apply forallb_lstrip in Hd.
    destruct Ht as [<-|[<-|[<-|[]]]];
      pose proof (prefix_match_head true _ _ _ _ Hp Hd) as H; vm_compute in H; discriminate.
Qed.

Lemma canto_not_cantica_header (line : pystr) :
  is_canto_header line = true -> re_match true CANTICA_HEADER_RE line = None.
Proof.
  intros Hn. destruct (re_match true CANTICA_HEADER_RE line) as [m|] eqn:Hc; [exfalso|reflexivity].
  apply cantica_header_match in Hc as (title & Ht & Hp & _).
  apply canto_header_head in Hn.
  apply (clash_sound false true (str "CANTO") title (lstrip line)); try assumption.
  destruct Ht as [<-|[<-|[<-|[]]]]; vm_compute; reflexivity.
Qed.

Lemma noise_not_verse (line : pystr) :
  looks_like_noise line = true -> is_probable_verse line = false.
Proof.
  intros Hn. unfold is_probable_verse. rewrite Hn.
  destruct (negb (nonempty line)); reflexivity.
Qed.

Lemma noise_line_ignored (pdf outdir : pystr) (block_size block_overlap page_idx : Z)
    (st : State.t) (line : pystr) :
  looks_like_noise line = true ->
  process_line pdf outdir block_size block_overlap page_idx st line = Ok st.
Proof.
  intros Hn. unfold process_line.
  rewrite (noise_not_cantica_header line Hn), (noise_not_canto_header line Hn),
    (noise_not_verse line Hn).
  destruct (State.canto_buf st); reflexivity.
Qed.

Lemma noise_classified (line : pystr) :
  looks_like_noise line = true -> classify line = Ok Noise.
Proof.
  intros Hn. unfold classify.
  rewrite (noise_not_cantica_header line Hn), (noise_not_canto_header line Hn),
    (noise_not_verse line Hn). reflexivity.
Qed.

(** C3. The loop tests the part marker, then the canto marker, then the
    verse (whose test rejects noise); since no line matches a noise pattern
    and a marker pattern at once, this is the classification with noise
    first: on every line the class is the one that the precedence
    Noise, PartMarker, CantoMarker, Verse gives, and a line that matches a
    noise pattern is classified Noise and leaves the state of the run
    unchanged (no part change, no canto boundary, no verse). *)
Theorem noise_takes_precedence (line : pystr) :
  classify line = classify_by_precedence line
  /\ (looks_like_noise line = true ->
      re_match true CANTICA_HEADER_RE line = None
      /\ is_canto_header line = false
      /\ classify line = Ok Noise
      /\ forall pdf outdir block_size block_overlap page_idx st,
           process_line pdf outdir block_size block_overlap page_idx st line = Ok st).
Proof.
  split.
  - unfold classify, classify_by_precedence.
    destruct (looks_like_noise line) eqn:Hn; [|reflexivity].
    rewrite (noise_not_cantica_header line Hn), (noise_not_canto_header line Hn),
      (noise_not_verse line Hn). reflexivity.
  - intros Hn. repeat split.
    + apply noise_not_cantica_header, Hn.
    + apply noise_not_canto_header, Hn.
    + apply noise_classified, Hn.
    + intros. apply noise_line_ignored, Hn.
Qed.

End Classification.

Section VerseLines.
Context {U : UnicodeData}.
Import divina_full_pipeline.

Lemma is_cantica_header_None (line : pystr) :
  is_cantica_header line = false <-> re_match true CANTICA_HEADER_RE line = None.
Proof.
  unfold is_cantica_header, matches.
  destruct (re_match true CANTICA_HEADER_RE line); split; congruence.
Qed.

Lemma nonempty_true (line : pystr) : nonempty line = true <-> line <> [].
Proof. destruct line; cbn; split; congruence. Qed.

Lemma short_heading_false (line : pystr) :
  forallb caps_class line && (len (split line) <=? 4) = false
  <-> ~ (forallb caps_class line = true /\ len (split line) <= 4).
Proof.
  rewrite <- Z.leb_le, <- andb_true_iff.
  destruct (forallb caps_class line && (len (split line) <=? 4)); split; congruence.
Qed.

Lemma probable_verse_bool (line : pystr) :
  is_cantica_header line = false -> is_canto_header line = false ->
  is_probable_verse line
  = nonempty line && negb (looks_like_noise line)
    && negb (forallb caps_class line && (len (split line) <=? 4))
    && (2 <=? len (List.filter is_word line)).
Proof.
  intros Hc1 Hc2. unfold is_probable_verse, sub_class_plus_empty.
  rewrite Hc1, Hc2, caps_match, filter_negb_negb.
  rewrite (Z.leb_antisym (len (List.filter is_word line)) 2). cbn [orb negb andb].
  destruct (nonempty line), (looks_like_noise line), (forallb caps_class line),
    (len (split line) <=? 4), (len (List.filter is_word line) <? 2); reflexivity.
Qed.

Lemma probable_verse_iff (line : pystr) :
  is_cantica_header line = false -> is_canto_header line = false ->
  (is_probable_verse line = true <->
   line <> [] /\ looks_like_noise line = false
   /\ 2 <= len (List.filter is_word line)
   /\ ~ (forallb caps_class line = true /\ len (split line) <= 4)).
Proof.
  intros Hc1 Hc2. rewrite (probable_verse_bool line Hc1 Hc2).
  rewrite !andb_true_iff, !negb_true_iff, nonempty_true, short_heading_false, Z.leb_le.
  tauto.
Qed.

Lemma single_probable_verse_iff (line : pystr) :
  divina_pipeline.is_probable_verse line = true <->
  line <> [] /\ divina_pipeline.is_header_footer line = false
  /\ 2 <= len line
  /\ ~ (forallb caps_class line = true /\ len (split line) <= 4).
Proof.
  assert (E : divina_pipeline.is_probable_verse line
              = nonempty line && negb (divina_pipeline.is_header_footer line)
                && (2 <=? len line)
                && negb (forallb caps_class line && (len (split line) <=? 4))).
  { unfold divina_pipeline.is_probable_verse.
    rewrite caps_match, (Z.leb_antisym (len line) 2).
    destruct (nonempty line), (divina_pipeline.is_header_footer line), (len line <? 2),
      (forallb caps_class line), (len (split line) <=? 4); reflexivity. }
  rewrite E, !andb_true_iff, !negb_true_iff, nonempty_true, short_heading_false, Z.leb_le.
  tauto.
Qed.

(** C9, as the code has it. A line is classified Verse if and only if it is
    non-empty, matches no noise pattern, is neither a part marker nor a
    canto marker, has at least 2 word characters (alphanumeric or
    underscore), and is not a line of at most 4 whitespace-separated words
    made only of the letters A-Z, whitespace, full stops and hyphens. In
    [divina_pipeline.py] the markers are among the noise patterns and the
    length test counts every character. The line "47" is noise in both
    files and leaves the state of the run unchanged. *)
Theorem verse_line_iff (line : pystr) :
  (classify line = Ok VerseLine <->
   line <> [] /\ looks_like_noise line = false
   /\ is_cantica_header line = false /\ is_canto_header line = false
   /\ 2 <= len (List.filter is_word line)
   /\ ~ (forallb caps_class line = true /\ len (split line) <= 4))
  /\ (divina_pipeline.is_probable_verse line = true <->
      line <> [] /\ divina_pipeline.is_header_footer line = false
      /\ 2 <= len line
      /\ ~ (forallb caps_class line = true /\ len (split line) <= 4))
  /\ looks_like_noise (str "47") = true
  /\ classify (str "47") = Ok Noise
  /\ (forall pdf outdir block_size block_overlap page_idx st,
        process_line pdf outdir block_size block_overlap page_idx st (str "47") = Ok st)
  /\ divina_pipeline.is_probable_verse (str "47") = false.
Proof.
  split; [|split].
  - unfold classify.
    destruct (re_match true CANTICA_HEADER_RE line) as [m|] eqn:Em.
    + split.
      * destruct m as [g|]; cbn [bind]; [|discriminate].
        destruct (getitem CANTICHE_TITLES (upper g)); discriminate.
      * intros (_ & _ & H & _). apply is_cantica_header_None in H. congruence.
    + pose proof (proj2 (is_cantica_header_None line) Em) as Hc1.
      destruct (is_canto_header line) eqn:Hc2.
      * split; [discriminate|]. intros (_ & _ & _ & H & _). discriminate.
      * pose proof (probable_verse_iff line Hc1 Hc2) as Hiff.
        destruct (is_probable_verse line).
        -- split; [intros _|reflexivity].
           destruct (proj1 Hiff eq_refl) as (H1 & H2 & H3 & H4). tauto.
        -- split; [discriminate|]. intros (H1 & H2 & _ & _ & H3 & H4).
           assert (false = true); [|discriminate]. apply Hiff. tauto.
  - apply single_probable_verse_iff.
  - assert (Hn : looks_like_noise (str "47") = true) by (vm_compute; reflexivity).
    split; [exact Hn|]. split; [apply noise_classified, Hn|].
    split; [intros; apply noise_line_ignored, Hn|]. vm_compute. reflexivity.
Qed.

End VerseLines.

(** C9, as the specification words it, fails: the line "AH!" is one word
    made only of uppercase letters and punctuation, and the code classifies
    it Verse, because the short-heading test knows no punctuation other
    than the full stop and the hyphen. *)
Lemma verse_claim_fails_on_punctuation :
  ~ (forall (U : UnicodeData) (line : pystr), classify line = Ok VerseLine <-> spec_verse line).
Proof.
  intros H. specialize (H ascii_only (str "AH!")). destruct H as [H _].
  assert (Hc : @classify ascii_only (str "AH!") = Ok VerseLine) by (vm_compute; reflexivity).
  apply H in Hc. destruct Hc as (_ & _ & _ & _ & _ & Hh).
  vm_compute in Hh. discriminate.
Qed.

(** ** Identifiers *)

Lemma uint_chars_inj (d1 : Decimal.uint) : forall d2,
  uint_chars d1 = uint_chars d2 -> d1 = d2.
Proof.
  induction d1; intros d2 H; destruct d2; cbn in H; try discriminate; try reflexivity;
    inversion H; f_equal; auto.
Qed.

Lemma uint_chars_no_dot (d : Decimal.uint) : no_dot (uint_chars d) = true.
Proof. induction d; cbn; auto. Qed.



Lemma uint_chars_zeros (k : nat) (d : Decimal.uint) :
  uint_chars (Nat.iter k D0 d) = replicate k 48%N ++ uint_chars d.
Proof.
  induction k as [|k IH]; [reflexivity|].
  rewrite Nat.iter_succ. cbn [uint_chars replicate app]. rewrite IH. reflexivity.
Qed.

Lemma of_uint_zeros (k : nat) (d : Decimal.uint) : N.of_uint (Nat.iter k D0 d) = N.of_uint d.
Proof. induction k as [|k IH]; [reflexivity|]. rewrite Nat.iter_succ. exact IH. Qed.

Lemma format_0d_nonneg (w : nat) (z : Z) :
  0 <= z ->
  format_0d w z
  = uint_chars (Nat.iter (w - 0 - length (decimal (Z.abs_N z))) D0 (N.to_uint (Z.abs_N z))).
Proof.
  intros Hz. unfold format_0d. destruct (Z.ltb_spec z 0); [lia|].
  rewrite uint_chars_zeros. reflexivity.
Qed.

Lemma format_0d_inj (w : nat) (z1 z2 : Z) :
  0 <= z1 -> 0 <= z2 -> format_0d w z1 = format_0d w z2 -> z1 = z2.
Proof.
  intros H1 H2 E. rewrite !format_0d_nonneg in E by assumption.
  apply uint_chars_inj in E. apply (f_equal N.of_uint) in E.
  rewrite !of_uint_zeros, !DecimalN.Unsigned.of_to in E. lia.
Qed.

Lemma format_0d_no_dot (w : nat) (z : Z) : 0 <= z -> no_dot (format_0d w z) = true.
Proof. intros Hz. rewrite format_0d_nonneg by assumption. apply uint_chars_no_dot. Qed.

Lemma dot_split_inj (x1 : pystr) : forall x2 r1 r2,
  no_dot x1 = true -> no_dot x2 = true ->
  x1 ++ 46%N :: r1 = x2 ++ 46%N :: r2 -> x1 = x2 /\ r1 = r2.
Proof.
  induction x1 as [|c1 x1 IH]; intros [|c2 x2] r1 r2 H1 H2 E; cbn in *.
  - inversion E. auto.
  - inversion E; subst. discriminate.
  - inversion E; subst. discriminate.
  - apply andb_true_iff in H1 as [_ H1]. apply andb_true_iff in H2 as [_ H2].
    inversion E; subst. destruct (IH _ _ _ H1 H2 H3) as [-> ->]. auto.
Qed.

Lemma urn_text_inj (code1 code2 : pystr) (c1 c2 n1 n2 : Z) :
  no_dot code1 = true -> no_dot code2 = true ->
  0 <= c1 -> 0 <= c2 -> 0 <= n1 -> 0 <= n2 ->
  urn_text code1 c1 n1 = urn_text code2 c2 n2 ->
  code1 = code2 /\ c1 = c2 /\ n1 = n2.
Proof.
  intros Hd1 Hd2 Hc1 Hc2 Hn1 Hn2. unfold urn_text. change (str ".") with [46%N].
  cbn [app]. intros E.
  apply dot_split_inj in E as [-> E]; try assumption.
  apply dot_split_inj in E as [Ec En]; try (apply format_0d_no_dot; assumption).
  apply format_0d_inj in Ec; try assumption. apply format_0d_inj in En; try assumption.
  auto.
Qed.

Lemma part_codes_no_dot (p code : pystr) : In (p, code) part_codes -> no_dot code = true.
Proof. intros [H|[H|[H|[]]]]; inversion H; reflexivity. Qed.

Lemma part_codes_inj (p1 p2 code : pystr) :
  In (p1, code) part_codes -> In (p2, code) part_codes -> p1 = p2.
Proof.
  intros [H1|[H1|[H1|[]]]] [H2|[H2|[H2|[]]]]; inversion H1; inversion H2; subst;
    try reflexivity; discriminate.
Qed.

Lemma part_codes_fun (p code1 code2 : pystr) :
  In (p, code1) part_codes -> In (p, code2) part_codes -> code1 = code2.
Proof.
  intros [H1|[H1|[H1|[]]]] [H2|[H2|[H2|[]]]]; inversion H1; inversion H2; subst;
    try reflexivity; discriminate.
Qed.


Lemma upto_succ (k : Z) : 0 <= k -> upto (k + 1) = upto k ++ [k + 1].
Proof.
  intros Hk. unfold upto.
  replace (Z.to_nat (k + 1)) with (Z.to_nat k + 1)%nat by lia.
  rewrite seq_app, map_app. cbn. do 2 f_equal. lia.
Qed.

Lemma upto_In (k x : Z) : In x (upto k) <-> 1 <= x <= k.
Proof.
  unfold upto. rewrite in_map_iff. split.
  - intros (i & <- & Hi). apply in_seq in Hi. lia.
  - intros Hx. exists (Z.to_nat x). split; [lia|]. apply in_seq. lia.
Qed.


Section Identifiers.
Context {U : UnicodeData}.
Import divina_full_pipeline.

Lemma short_cantica_codes (p code : pystr) :
  In (p, code) part_codes -> short_cantica p = Ok code.
Proof. intros [H|[H|[H|[]]]]; inversion H; vm_compute; reflexivity. Qed.

Lemma verse_urn_codes (p code : pystr) (c n : Z) :
  In (p, code) part_codes -> verse_urn p c n = Ok (urn_text code c n).
Proof. intros H. unfold verse_urn. rewrite (short_cantica_codes p code H). reflexivity. Qed.

End Identifiers.

(** ** The segmenter *)

Lemma cantos_of_app (p : pystr) (ds1 ds2 : list Canto.t) :
  cantos_of p (ds1 ++ ds2) = cantos_of p ds1 ++ cantos_of p ds2.
Proof. unfold cantos_of. rewrite List.filter_app, map_app. reflexivity. Qed.

Lemma cantos_of_In (p : pystr) (ds : list Canto.t) (d : Canto.t) :
  In d ds -> Canto.cantica d = p -> In (Canto.canto d) (cantos_of p ds).
Proof.
  intros Hd Hp. unfold cantos_of. apply in_map, filter_In. split; [assumption|].
  apply bool_decide_eq_true. assumption.
Qed.

Lemma key_of_inj (p q : pystr) : key_of p = key_of q -> p = q.
Proof. unfold key_of. apply app_inv_head. Qed.

Lemma verses_ok_nil (p code : pystr) (k : Z) : In (p, code) part_codes -> verses_ok p k [].
Proof. intros H. exists code. split; [assumption|]. intros i v Hv. discriminate. Qed.

Lemma verses_ok_numbers (p : pystr) (k : Z) (verses : list Verse.t) :
  verses_ok p k verses -> map Verse.number verses = upto (len verses).
Proof.
  intros (code & _ & H). unfold upto, len. rewrite Nat2Z.id.
  apply list_eq. intros i. rewrite !list_lookup_fmap.
  destruct (verses !! i) as [v|] eqn:E; cbn.
  - rewrite lookup_seq_lt by (apply lookup_lt_Some in E; assumption).
    cbn. f_equal. destruct (H i v E) as [-> _]. lia.
  - rewrite lookup_seq_ge by (apply lookup_ge_None in E; assumption). reflexivity.
Qed.

Section Segmenter.
Context {U : UnicodeData}.
Variables (pdf outdir : pystr) (block_size block_overlap : Z).
Import divina_full_pipeline.

Lemma make_blocks_total (verses : list Verse.t) (size overlap : Z) :
  exists blocks, make_blocks verses size overlap = Ok blocks /\ (verses = [] -> blocks = []).
Proof.
  destruct (Z.le_gt_cases size 0) as [Hs|Hs].
  - exists []. unfold make_blocks. destruct (Z.leb_spec size 0); [auto|lia].
  - eexists. split; [apply full_make_blocks_eq; lia|]. intros ->. reflexivity.
Qed.

Lemma to_json_ok (buf : CantoBuffer.t) (pages_range : list Z) :
  exists terzine blocks,
    to_json buf pdf pages_range block_size block_overlap
    = Ok (Canto.mk (CantoBuffer.cantica buf) (CantoBuffer.canto_num buf) pdf pages_range
            (Counts.mk (len (CantoBuffer.verses buf)) (len terzine) (len blocks))
            (CantoBuffer.verses buf) terzine blocks)
    /\ (CantoBuffer.verses buf = [] -> terzine = [] /\ blocks = []).
Proof.
  destruct (make_blocks_total (CantoBuffer.verses buf) block_size block_overlap)
    as (blocks & Hb & Hb0).
  exists (terzine_of terzina_full (CantoBuffer.verses buf)), blocks. split.
  - unfold to_json. rewrite full_group_terzine_eq, Hb. reflexivity.
  - intros E. split; [rewrite E; reflexivity|auto].
Qed.

(** The state after [close_canto] on an open canto. *)
Lemma close_canto_open (end_page_idx : Z) (st : State.t) (buf : CantoBuffer.t) :
  Inv st -> State.canto_buf st = Some buf ->
  exists code pages_range terzine blocks,
    In (CantoBuffer.cantica buf, code) part_codes
    /\ (CantoBuffer.verses buf = [] -> terzine = [] /\ blocks = [])
    /\ let data := Canto.mk (CantoBuffer.cantica buf) (CantoBuffer.canto_num buf) pdf
                     pages_range
                     (Counts.mk (len (CantoBuffer.verses buf)) (len terzine) (len blocks))
                     (CantoBuffer.verses buf) terzine blocks in
       let fpath := path_join outdir
                      (code ++ str "_" ++ format_0d 2 (CantoBuffer.canto_num buf)
                       ++ str ".json") in
       close_canto pdf outdir block_size block_overlap end_page_idx st
       = Ok (State.mk
               (State.canti st ++
                [Entry.mk (Some (CantoBuffer.cantica buf)) (Some (CantoBuffer.canto_num buf))
                   fpath (Canto.counts data)])
               (State.extra st) (State.written st ++ [(fpath, data)])
               (State.current_cantica st) None None None).
Proof.
  intros HI Hb. destruct (inv_buf st HI buf Hb) as (Hc & Hn & _ & _).
  destruct (inv_part st HI _ Hc) as (code & Hcode).
  unfold close_canto. rewrite Hb.
  match goal with |- context [to_json buf pdf ?pr _ _] =>
    destruct (to_json_ok buf pr) as (terzine & blocks & Hj & H0); exists code, pr, terzine, blocks
  end.
  split; [assumption|]. split; [assumption|].
  cbv zeta. rewrite Hj, Hc. cbn [bind]. rewrite (short_cantica_codes _ _ Hcode). cbn [bind].
  rewrite Hn. reflexivity.
Qed.

Lemma closed_count_no_buf (st : State.t) (p : pystr) :
  State.canto_buf st = None -> closed_count st p = counter st p.
Proof. intros H. unfold closed_count. rewrite H. lia. Qed.

Lemma closed_count_buf (st : State.t) (buf : CantoBuffer.t) (p : pystr) :
  State.canto_buf st = Some buf ->
  closed_count st p = counter st p - if decide (CantoBuffer.cantica buf = p) then 1 else 0.
Proof. intros H. unfold closed_count. rewrite H. reflexivity. Qed.

Lemma counter_ext (st st' : State.t) (p : pystr) :
  State.extra st' = State.extra st -> counter st' p = counter st p.
Proof. intros H. unfold counter. rewrite H. reflexivity. Qed.

Lemma close_canto_inv (end_page_idx : Z) (st : State.t) :
  Inv st ->
  exists st', close_canto pdf outdir block_size block_overlap end_page_idx st = Ok st'
    /\ Inv st' /\ State.canto_buf st' = None
    /\ State.current_cantica st' = State.current_cantica st
    /\ State.extra st' = State.extra st.
Proof.
  intros HI. destruct (State.canto_buf st) as [buf|] eqn:Hb.
  2:{ exists st. unfold close_canto. rewrite Hb. auto. }
  destruct (close_canto_open end_page_idx st buf HI Hb)
    as (code & pr & terzine & blocks & Hcode & _ & Hclose).
  cbv zeta in Hclose.
  match type of Hclose with _ = Ok ?s => set (st' := s) in * end.
  exists st'. split; [exact Hclose|]. split; [|auto].
  destruct (inv_buf st HI buf Hb) as (Hc & Hn & Hk & Hv).
  assert (Hb' : State.canto_buf st' = None) by reflexivity.
  assert (He : State.extra st' = State.extra st) by reflexivity.
  constructor.
  - apply (inv_part st HI).
  - intros buf' E. rewrite Hb' in E. discriminate.
  - intros p. rewrite (closed_count_no_buf st' p Hb'), (counter_ext st st' p He).
    pose proof (inv_count st HI p) as H. rewrite (closed_count_buf st buf p Hb) in H.
    destruct (decide _); lia.
  - intros p. rewrite (closed_count_no_buf st' p Hb'), (counter_ext st st' p He).
    unfold st' at 1. cbn [State.written].
    rewrite map_app, cantos_of_app, (inv_cantos st HI p), (closed_count_buf st buf p Hb).
    pose proof (inv_count st HI p) as H0. rewrite (closed_count_buf st buf p Hb) in H0.
    unfold cantos_of. cbn [map List.filter snd Canto.cantica].
    destruct (decide (CantoBuffer.cantica buf = p)) as [E|E].
    + rewrite bool_decide_eq_true_2 by assumption. cbn [map Canto.canto].
      subst p. rewrite <- Hk in *.
      replace (counter st (CantoBuffer.cantica buf))
        with (counter st (CantoBuffer.cantica buf) - 1 + 1) at 2 3 by lia.
      rewrite upto_succ by lia. reflexivity.
    + rewrite bool_decide_eq_false_2 by assumption. cbn [map].
      rewrite app_nil_r, Z.sub_0_r. reflexivity.
  - intros d. unfold st'. cbn [State.written]. rewrite map_app, in_app_iff.
    intros [Hd|[<-|[]]].
    + apply (inv_verses st HI d Hd).
    + exact Hv.
  - pose proof (inv_nodup st HI) as Hnd. unfold state_urns in *.
    rewrite Hb in Hnd. rewrite Hb'. unfold st'. cbn [State.written].
    rewrite !map_app, concat_app, app_nil_r. cbn [map concat snd]. rewrite app_nil_r.
    exact Hnd.
  - unfold st'. cbn [State.written State.canti].
    rewrite !map_app, (inv_manifest st HI). reflexivity.
Qed.

(** [upper] gives back the title that a line spells case-insensitively,
    unless the line spells it with U+0130. *)
Lemma prefix_upper (xs : pystr) : forall t,
  forallb (fun x => forallb (fun c => (c =? 304)%N || (upper_char c =? x)%N) (ci_variants x)) xs
  = true ->
  prefix_match true xs t = true ->
  upper (take (length xs) t) = xs \/ In 304%N (take (length xs) t).
Proof.
  induction xs as [|x xs IH]; intros t Hok Hp; [left; reflexivity|].
  destruct t as [|c t]; [discriminate|]. cbn [prefix_match forallb length] in *.
  apply andb_true_iff in Hok as [Hx Hok]. apply andb_true_iff in Hp as [Hc Hp].
  apply lit_match_In in Hc. cbn [variants] in Hc.
  rewrite forallb_forall in Hx. specialize (Hx c Hc).
  cbn [take upper map].
  apply orb_true_iff in Hx as [Hx|Hx]; apply N.eqb_eq in Hx.
  - right. left. auto.
  - destruct (IH t Hok Hp) as [E|E].
    + left. unfold upper in E. rewrite E, Hx. reflexivity.
    + right. right. assumption.
Qed.

Lemma In_lstrip (c : N) (s : pystr) : In c (lstrip s) -> In c s.
Proof.
  destruct (lstrip_suffix s) as (pre & E & _). intros H. rewrite E.
  apply in_or_app. auto.
Qed.

Lemma In_take {A} (x : A) (n : nat) (l : list A) : In x (take n l) -> In x l.
Proof. intros H. rewrite <- (take_drop n l). apply in_or_app. auto. Qed.

Lemma getitem_titles (key name : pystr) :
  getitem CANTICHE_TITLES key = Ok name -> exists code, In (name, code) part_codes.
Proof.
  unfold CANTICHE_TITLES. cbn [getitem].
  repeat (destruct (decide _); [intros H; inversion H; eexists; vm_compute; tauto|]).
  discriminate.
Qed.

Lemma getitem_no_fuel (d : list (pystr * pystr)) (key : pystr) : getitem d key <> OutOfFuel.
Proof. induction d as [|[k v] d IH]; cbn; [discriminate|]. destruct (decide _); [discriminate|auto]. Qed.

(** The lookup of a matched part title fails only on a line with U+0130. *)
Lemma title_lookup (line : pystr) (m : option pystr) :
  re_match true CANTICA_HEADER_RE line = Some m ->
  exists g, m = Some g
    /\ ((exists name, getitem CANTICHE_TITLES (upper g) = Ok name) \/ In 304%N line).
Proof.
  intros Hm. apply cantica_header_match in Hm as (title & Ht & Hp & ->).
  eexists. split; [reflexivity|].
  assert (Hu : upper (take (length title) (lstrip line)) = title
               \/ In 304%N (take (length title) (lstrip line))).
  { apply prefix_upper; [|assumption].
    destruct Ht as [<-|[<-|[<-|[]]]]; vm_compute; reflexivity. }
  destruct Hu as [-> | Hin].
  - left. destruct Ht as [<-|[<-|[<-|[]]]]; eexists; vm_compute; reflexivity.
  - right. apply In_lstrip, (In_take _ _ _ Hin).
Qed.

Lemma index_aba (z : Z) : exists c, index (str "aba") (z mod 3) = Ok c.
Proof.
  pose proof (Z.mod_pos_bound z 3 ltac:(lia)) as H.
  assert (E : z mod 3 = 0 \/ z mod 3 = 1 \/ z mod 3 = 2) by lia.
  destruct E as [-> | [-> | ->]]; eexists; reflexivity.
Qed.

Lemma add_verse_ok (buf : CantoBuffer.t) (text code : pystr) :
  In (CantoBuffer.cantica buf, code) part_codes ->
  exists lw letter ssml,
    add_verse buf text
    = Ok (CantoBuffer.mk (CantoBuffer.cantica buf) (CantoBuffer.canto_num buf)
            (CantoBuffer.verses buf ++
             [Verse.mk (urn_text code (CantoBuffer.canto_num buf)
                          (len (CantoBuffer.verses buf) + 1))
                (len (CantoBuffer.verses buf) + 1) text lw letter ssml])).
Proof.
  intros Hcode. unfold add_verse.
  rewrite (verse_urn_codes _ _ _ _ Hcode). cbn [bind].
  destruct (index_aba (len (CantoBuffer.verses buf) + 1 - 1)) as (c & Hc). rewrite Hc.
  cbn [bind]. do 3 eexists. reflexivity.
Qed.

Lemma verses_ok_snoc (p code : pystr) (k : Z) (verses : list Verse.t) (v : Verse.t) :
  In (p, code) part_codes -> verses_ok p k verses ->
  Verse.number v = len verses + 1 -> Verse.urn v = urn_text code k (len verses + 1) ->
  verses_ok p k (verses ++ [v]).
Proof.
  intros Hcode (code' & Hcode' & H) Hn Hu.
  rewrite (part_codes_fun _ _ _ Hcode' Hcode) in H.
  exists code. split; [assumption|]. intros i w Hw.
  apply lookup_app_Some in Hw as [Hw|[Hi Hw]]; [auto|].
  apply list_lookup_singleton_Some in Hw as [Hi' <-].
  unfold len in *. replace i with (length verses) by lia. auto.
Qed.

(** The identifier of the next verse of the open canto is new. *)
Lemma new_urn_fresh (st : State.t) (buf : CantoBuffer.t) (code : pystr) :
  Inv st -> State.canto_buf st = Some buf ->
  In (CantoBuffer.cantica buf, code) part_codes ->
  ~ In (urn_text code (CantoBuffer.canto_num buf) (len (CantoBuffer.verses buf) + 1))
       (state_urns st).
Proof.
  intros HI Hb Hcode Hin.
  destruct (inv_buf st HI buf Hb) as (Hc & Hn & Hk & (code' & Hcode' & Hv)).
  rewrite (part_codes_fun _ _ _ Hcode' Hcode) in Hv. clear code' Hcode'.
  pose proof (inv_count st HI (CantoBuffer.cantica buf)) as Hpos.
  rewrite (closed_count_buf st buf _ Hb) in Hpos.
  destruct (decide (CantoBuffer.cantica buf = CantoBuffer.cantica buf)); [|congruence].
  unfold state_urns in Hin. rewrite Hb in Hin. apply in_app_or in Hin as [Hin|Hin].
  - apply in_concat in Hin as (us & Hus & Hin).
    apply in_map_iff in Hus as (d & <- & Hd).
    unfold canto_urns in Hin. apply in_map_iff in Hin as (v & Hu & Hvd).
    destruct (inv_verses st HI d Hd) as (cd & Hcd & Hvs).
    apply list_elem_of_In, list_elem_of_lookup in Hvd as (i & Hi).
    destruct (Hvs i v Hi) as [_ Hurn]. rewrite Hurn in Hu.
    pose proof (cantos_of_In _ _ d Hd eq_refl) as Hcanto.
    rewrite (inv_cantos st HI) in Hcanto. apply upto_In in Hcanto.
    apply urn_text_inj in Hu as (-> & Hk' & _);
      try (eapply part_codes_no_dot; eassumption); try (unfold len; lia).
    pose proof (part_codes_inj _ _ _ Hcd Hcode) as Hp.
    rewrite Hp, (closed_count_buf st buf _ Hb) in Hcanto.
    destruct (decide (CantoBuffer.cantica buf = CantoBuffer.cantica buf)); [|congruence].
    lia.
  - apply in_map_iff in Hin as (v & Hu & Hvd).
    apply list_elem_of_In, list_elem_of_lookup in Hvd as (i & Hi).
    destruct (Hv i v Hi) as [_ Hurn]. rewrite Hurn in Hu.
    apply lookup_lt_Some in Hi.
    apply urn_text_inj in Hu as (_ & _ & Hn');
      try (eapply part_codes_no_dot; eassumption); unfold len in *; lia.
Qed.

Lemma process_line_inv (page_idx : Z) (st : State.t) (line : pystr) :
  Inv st ->
  match process_line pdf outdir block_size block_overlap page_idx st line with
  | Ok st' => Inv st'
  | Raise _ => In 304%N line
  | OutOfFuel => False
  end.
Proof.
  intros HI. unfold process_line.
  destruct (re_match true CANTICA_HEADER_RE line) as [m|] eqn:Hm.
  - destruct (close_canto_inv (page_idx - 1) st HI) as (st1 & Hclose & HI1 & Hb1 & Hc1 & He1).
    rewrite Hclose. cbn [bind].
    destruct (title_lookup line m Hm) as (g & -> & Hg). cbn [bind].
    destruct (getitem CANTICHE_TITLES (upper g)) as [name|e|] eqn:Eg; cbn [bind].
    + destruct (getitem_titles _ _ Eg) as (code & Hcode).
      constructor.
      * intros c E. cbn in E. inversion E; subst. eauto.
      * intros buf E. cbn in E. rewrite Hb1 in E. discriminate.
      * exact (inv_count st1 HI1).
      * exact (inv_cantos st1 HI1).
      * exact (inv_verses st1 HI1).
      * exact (inv_nodup st1 HI1).
      * exact (inv_manifest st1 HI1).
    + destruct Hg as [(name & Hn)|Hin]; [congruence|assumption].
    + exact (getitem_no_fuel _ _ Eg).
  - destruct (is_canto_header line).
    + destruct (State.current_cantica st) as [p|] eqn:Hp; [|assumption].
      destruct (close_canto_inv (page_idx - 1) st HI) as (st1 & Hclose & HI1 & Hb1 & Hc1 & He1).
      rewrite Hclose. cbn [bind].
      rewrite Hp in Hc1.
      destruct (inv_part st1 HI1 p Hc1) as (code & Hcode).
      fold (key_of p).
      set (next := match State.extra st1 !! key_of p with
                   | Some last_num => last_num + 1
                   | None => 1
                   end).
      assert (Hnext : next = counter st1 p + 1).
      { unfold next, counter. destruct (State.extra st1 !! key_of p); cbn; lia. }
      match goal with |- Inv ?s => set (st2 := s) end.
      assert (Hcnt : forall q, closed_count st2 q = closed_count st1 q).
      { intros q. rewrite (closed_count_no_buf st1 q Hb1).
        rewrite (closed_count_buf st2 (CantoBuffer.mk p next []) q eq_refl).
        unfold counter, st2. cbn [State.extra CantoBuffer.cantica].
        destruct (decide (p = q)) as [<-|Hq].
        - rewrite lookup_insert_eq. fold (counter st1 p). cbn. lia.
        - rewrite lookup_insert_ne by (intros E; apply key_of_inj in E; congruence). lia. }
      constructor.
      * intros c E. cbn in E. rewrite Hc1 in E. inversion E; subst. eauto.
      * intros buf E. cbn in E. inversion E; subst buf. cbn.
        repeat split; try assumption.
        -- unfold counter. cbn. rewrite lookup_insert_eq. reflexivity.
        -- apply (verses_ok_nil p code). assumption.
      * intros q. rewrite Hcnt. apply (inv_count st1 HI1).
      * intros q. rewrite Hcnt. apply (inv_cantos st1 HI1).
      * exact (inv_verses st1 HI1).
      * pose proof (inv_nodup st1 HI1) as Hnd. unfold state_urns in *.
        rewrite Hb1 in Hnd. exact Hnd.
      * exact (inv_manifest st1 HI1).
    + destruct (State.canto_buf st) as [buf|] eqn:Hb; [|assumption].
      destruct (is_probable_verse line); [|assumption].
      destruct (inv_buf st HI buf Hb) as (Hc & Hn & Hk & Hv).
      destruct (inv_part st HI _ Hc) as (code & Hcode).
      destruct (add_verse_ok buf line code Hcode) as (lw & letter & ssml & Hadd).
      rewrite Hadd. cbn [bind].
      match goal with |- Inv ?s => set (st2 := s) end.
      match type of Hadd with _ = Ok ?b => set (buf2 := b) in * end.
      assert (Hcnt : forall q, closed_count st2 q = closed_count st q).
      { intros q. rewrite (closed_count_buf st buf q Hb).
        rewrite (closed_count_buf st2 buf2 q eq_refl). reflexivity. }
      constructor.
      * exact (inv_part st HI).
      * intros b E. cbn in E. inversion E; subst b. cbn.
        repeat split; try assumption.
        apply (verses_ok_snoc _ code); auto.
      * intros q. rewrite Hcnt. apply (inv_count st HI).
      * intros q. rewrite Hcnt. apply (inv_cantos st HI).
      * exact (inv_verses st HI).
      * pose proof (inv_nodup st HI) as Hnd.
        pose proof (new_urn_fresh st buf code HI Hb Hcode) as Hfresh.
        unfold state_urns in *. rewrite Hb in *.
        cbn [State.written State.canto_buf st2 buf2 CantoBuffer.verses].
        rewrite map_app, app_assoc. cbn [map Verse.urn].
        apply NoDup_app. split; [assumption|]. split; [|apply NoDup_singleton].
        intros x Hx Hx'. apply list_elem_of_singleton in Hx'. subst x.
        apply Hfresh. apply list_elem_of_In. assumption.
      * exact (inv_manifest st HI).
Qed.

End Segmenter.

(** ** Whole runs *)

Lemma foldM_inv {A S} (f : S -> A -> outcome S) (P : S -> Prop) (bad : A -> Prop) :
  (forall s x, P s -> match f s x with
                      | Ok s' => P s'
                      | Raise _ => bad x
                      | OutOfFuel => False
                      end) ->
  forall l s, P s ->
    match foldM f s l with
    | Ok s' => P s'
    | Raise _ => exists x, In x l /\ bad x
    | OutOfFuel => False
    end.
Proof.
  intros Hf. induction l as [|x l IH]; intros s Hs; cbn [foldM]; [assumption|].
  specialize (Hf s x Hs). destruct (f s x) as [s'|e|]; cbn [bind].
  - specialize (IH s' Hf). destruct (foldM f s' l); try assumption.
    destruct IH as (y & Hy & Hb). exists y. split; [right; assumption|assumption].
  - exists x. split; [left; reflexivity|assumption].
  - assumption.
Qed.

Lemma In_enumerate {A} (l : list A) (i : Z) (x : A) : In (i, x) (enumerate l) -> In x l.
Proof. unfold enumerate. apply in_combine_r. Qed.

Lemma In_replace1_same (c old : N) (new s : pystr) :
  (forall x, In x new -> x = old) -> In c (replace1 old new s) -> In c s.
Proof.
  intros Hnew. unfold replace1. rewrite in_flat_map. intros (y & Hy & Hc).
  destruct (N.eqb_spec y old) as [->|_].
  - apply Hnew in Hc. subst. assumption.
  - destruct Hc as [<-|[]]. assumption.
Qed.

Lemma In_strip (c : N) (s : pystr) : In c (strip s) -> In c s.
Proof.
  unfold strip, rstrip. intros H. rewrite <- in_rev in H. apply In_lstrip in H.
  rewrite <- in_rev in H. apply In_lstrip. assumption.
Qed.

Lemma In_clean_line (c : N) (s : pystr) : In c (divina_full_pipeline.clean_line s) -> In c s.
Proof.
  unfold divina_full_pipeline.clean_line. intros H. apply In_strip in H.
  apply In_replace1_same in H; [|intros x [<-|[]]; reflexivity].
  apply In_replace1_same in H; [assumption|intros x []].
Qed.

Lemma Inv_initial : Inv divina_full_pipeline.initial.
Proof.
  assert (Hc : forall p, closed_count divina_full_pipeline.initial p = 0).
  { intros p. unfold closed_count, counter, divina_full_pipeline.initial.
    cbn [divina_full_pipeline.State.extra divina_full_pipeline.State.canto_buf].
    rewrite lookup_empty. reflexivity. }
  constructor.
  - intros c E. discriminate.
  - intros buf E. discriminate.
  - intros p. rewrite Hc. lia.
  - intros p. rewrite Hc. reflexivity.
  - intros d [].
  - constructor.
  - reflexivity.
Qed.

Section Runs.
Context {U : UnicodeData}.
Variables (pdf outdir : pystr) (block_size block_overlap : Z).
Import divina_full_pipeline.

Lemma reachable_inv (st : State.t) :
  reachable pdf outdir block_size block_overlap st -> Inv st.
Proof.
  induction 1 as [|st st' page_idx line _ IH Hstep]; [apply Inv_initial|].
  pose proof (process_line_inv pdf outdir block_size block_overlap page_idx st line IH) as H.
  rewrite Hstep in H. exact H.
Qed.

Lemma run_lines_inv (pages_lines : list (list pystr)) :
  match run_lines pdf outdir block_size block_overlap pages_lines with
  | Ok r => run_ok r
  | Raise _ => exists page line, In page pages_lines /\ In line page /\ In 304%N line
  | OutOfFuel => False
  end.
Proof.
  unfold run_lines.
  pose proof (foldM_inv (process_page pdf outdir block_size block_overlap) Inv
                (fun page => exists line, In line page.2 /\ In 304%N line)) as Hfold.
  specialize (Hfold (fun s x H => foldM_inv _ Inv (fun line => In 304%N line)
                       (fun s line => process_line_inv _ _ _ _ x.1 s line) x.2 s H)).
  specialize (Hfold (enumerate pages_lines) initial Inv_initial).
  destruct (foldM _ initial (enumerate pages_lines)) as [st|e|]; cbn [bind].
  - destruct (close_canto_inv pdf outdir block_size block_overlap (len pages_lines - 1) st Hfold)
      as (st' & -> & HI & Hb & _ & _).
    cbn [bind]. unfold run_ok, run_urns. cbn [Run.files Run.manifest_canti Run.count_canti].
    split; [apply (inv_verses st' HI)|].
    split.
    { intros p. exists (closed_count st' p). split; [apply (inv_count st' HI)|].
      apply (inv_cantos st' HI). }
    split.
    { pose proof (inv_nodup st' HI) as Hnd. unfold state_urns in Hnd.
      rewrite Hb, app_nil_r in Hnd. exact Hnd. }
    split; [apply (inv_manifest st' HI)|].
    pose proof (f_equal (@length _) (inv_manifest st' HI)) as Hl.
    rewrite !length_map in Hl. unfold len. rewrite Hl. reflexivity.
  - destruct Hfold as ([i page] & Hin & line & Hl & H304).
    exists page, line. split; [apply (In_enumerate _ _ _ Hin)|auto].
  - assumption.
Qed.

Lemma run_pipeline_inv (pages : list (list pystr)) :
  match run_pipeline pdf outdir block_size block_overlap pages with
  | Ok r => run_ok r
  | Raise _ => exists page raw, In page pages /\ In raw page /\ In 304%N raw
  | OutOfFuel => False
  end.
Proof.
  unfold run_pipeline. pose proof (run_lines_inv (parse_pdf pages)) as H.
  destruct (run_lines _ _ _ _ (parse_pdf pages)); try assumption.
  destruct H as (page & line & Hp & Hl & H304).
  unfold parse_pdf in Hp. apply in_map_iff in Hp as (raws & <- & Hraws).
  apply filter_In in Hl as [Hl _]. apply in_map_iff in Hl as (raw & <- & Hraw).
  exists raws, raw. repeat split; try assumption. apply In_clean_line. assumption.
Qed.

End Runs.

(** ** The lexicographic order of identifiers *)

Lemma str_lt_irrefl (a : pystr) : str_lt a a = false.
Proof.
  induction a as [|x a IH]; [reflexivity|]. cbn [str_lt].
  rewrite N.ltb_irrefl, N.eqb_refl, IH. reflexivity.
Qed.

Lemma str_lt_trans (a : pystr) : forall b c,
  str_lt a b = true -> str_lt b c = true -> str_lt a c = true.
Proof.
  induction a as [|x a IH]; intros [|y b] [|z c] H1 H2; cbn [str_lt] in *;
    try discriminate; try reflexivity.
  apply orb_true_iff in H1. apply orb_true_iff in H2. apply orb_true_iff.
  rewrite !andb_true_iff, !N.ltb_lt, !N.eqb_eq in *.
  destruct H1 as [H1|[-> H1]], H2 as [H2|[-> H2]]; eauto; left; lia.
Qed.

Lemma str_lt_app_prefix (p a b : pystr) : str_lt (p ++ a) (p ++ b) = str_lt a b.
Proof.
  induction p as [|x p IH]; [reflexivity|]. cbn [app str_lt].
  rewrite N.ltb_irrefl, N.eqb_refl, IH. reflexivity.
Qed.

Lemma str_lt_app_same_length (a1 : pystr) : forall a2 r1 r2,
  length a1 = length a2 ->
  str_lt (a1 ++ r1) (a2 ++ r2)
  = str_lt a1 a2 || (bool_decide (a1 = a2) && str_lt r1 r2).
Proof.
  induction a1 as [|x a1 IH]; intros [|y a2] r1 r2 Hl; try discriminate.
  - cbn [app]. rewrite str_lt_irrefl. reflexivity.
  - cbn [app str_lt]. rewrite IH by (cbn in Hl; lia).
    destruct (N.eqb_spec x y) as [->|Hxy].
    + rewrite N.ltb_irrefl. cbn [orb andb].
      destruct (decide (a1 = a2)) as [->|Hne].
      * rewrite !bool_decide_eq_true_2 by reflexivity. reflexivity.
      * rewrite !bool_decide_eq_false_2 by congruence. reflexivity.
    + rewrite (bool_decide_eq_false_2 (x :: a1 = y :: a2)) by congruence. cbn [andb].
      rewrite !orb_false_r. reflexivity.
Qed.

(** A function into strings that increases from each number to the next
    increases on the whole range, and only there. *)
Lemma adjacent_increasing (f : Z -> pystr) (m : Z) :
  (forall n, 0 <= n < m -> str_lt (f n) (f (n + 1)) = true) ->
  forall n1 n2, 0 <= n1 <= m -> 0 <= n2 <= m ->
    (str_lt (f n1) (f n2) = true <-> n1 < n2).
Proof.
  intros Hadj.
  assert (Hinc : forall (k : nat) n1, 0 <= n1 -> n1 + 1 + Z.of_nat k <= m ->
                   str_lt (f n1) (f (n1 + 1 + Z.of_nat k)) = true).
  { induction k as [|k IH]; intros n1 H0 Hm.
    - rewrite Z.add_0_r. apply Hadj. lia.
    - apply (str_lt_trans _ (f (n1 + 1 + Z.of_nat k))); [apply IH; lia|].
      replace (n1 + 1 + Z.of_nat (S k)) with (n1 + 1 + Z.of_nat k + 1) by lia.
      apply Hadj. lia. }
  assert (Hlt : forall n1 n2, 0 <= n1 -> n1 < n2 -> n2 <= m -> str_lt (f n1) (f n2) = true).
  { intros n1 n2 H0 H12 Hm.
    replace n2 with (n1 + 1 + Z.of_nat (Z.to_nat (n2 - n1 - 1))) by lia.
    apply Hinc; lia. }
  intros n1 n2 H1 H2. split; [|intros; apply Hlt; lia].
  intros H. destruct (Z.lt_trichotomy n1 n2) as [?|[->|Hgt]]; [assumption| |].
  - rewrite str_lt_irrefl in H. discriminate.
  - pose proof (str_lt_trans _ _ _ H (Hlt n2 n1 ltac:(lia) Hgt ltac:(lia))) as Hc.
    rewrite str_lt_irrefl in Hc. discriminate.
Qed.

Lemma forallb_range (P : Z -> bool) (m : nat) :
  forallb (fun i => P (Z.of_nat i)) (seq 0 m) = true ->
  forall n, 0 <= n < Z.of_nat m -> P n = true.
Proof.
  intros H n Hn. rewrite forallb_forall in H.
  specialize (H (Z.to_nat n)). rewrite Z2Nat.id in H by lia.
  apply H, in_seq. lia.
Qed.

Lemma format_0d_2_order (c1 c2 : Z) :
  0 <= c1 <= 99 -> 0 <= c2 <= 99 ->
  (str_lt (format_0d 2 c1) (format_0d 2 c2) = true <-> c1 < c2).
Proof.
  apply (adjacent_increasing (format_0d 2) 99).
  apply (forallb_range (fun n => str_lt (format_0d 2 n) (format_0d 2 (n + 1))) 99).
  vm_compute. reflexivity.
Qed.

Lemma format_0d_3_order (n1 n2 : Z) :
  0 <= n1 <= 999 -> 0 <= n2 <= 999 ->
  (str_lt (format_0d 3 n1) (format_0d 3 n2) = true <-> n1 < n2).
Proof.
  apply (adjacent_increasing (format_0d 3) 999).
  apply (forallb_range (fun n => str_lt (format_0d 3 n) (format_0d 3 (n + 1))) 999).
  vm_compute. reflexivity.
Qed.

Lemma format_0d_2_length (c : Z) : 0 <= c <= 99 -> length (format_0d 2 c) = 2%nat.
Proof.
  intros Hc. apply Nat.eqb_eq.
  apply (forallb_range (fun n => (length (format_0d 2 n) =? 2)%nat) 100); [|lia].
  vm_compute. reflexivity.
Qed.

(** Within one part, with canto numbers up to 99 and verse numbers up to
    999, identifiers are ordered as the pairs (canto, verse). *)
Lemma urn_text_order (code : pystr) (c1 n1 c2 n2 : Z) :
  0 <= c1 <= 99 -> 0 <= c2 <= 99 -> 0 <= n1 <= 999 -> 0 <= n2 <= 999 ->
  (str_lt (urn_text code c1 n1) (urn_text code c2 n2) = true
   <-> c1 < c2 \/ (c1 = c2 /\ n1 < n2)).
Proof.
  intros Hc1 Hc2 Hn1 Hn2. unfold urn_text.
  rewrite !str_lt_app_prefix.
  rewrite str_lt_app_same_length by (rewrite !format_0d_2_length; auto).
  rewrite str_lt_app_prefix, orb_true_iff, andb_true_iff, bool_decide_eq_true.
  rewrite format_0d_2_order, format_0d_3_order by assumption.
  split; intros [H|[H1 H2]]; auto; right; split; auto.
  - apply format_0d_inj in H1; lia.
  - congruence.
Qed.

Lemma ascending_app (l1 l2 : list pystr) :
  ascending l1 -> ascending l2 ->
  (forall a b, In a l1 -> In b l2 -> str_lt a b = true) ->
  ascending (l1 ++ l2).
Proof.
  intros H1 H2 H12 i j a b Hij Ha Hb.
  apply lookup_app_Some in Ha as [Ha|[Hi Ha]]; apply lookup_app_Some in Hb as [Hb|[Hj Hb]].
  - apply (H1 i j); assumption.
  - apply H12; apply list_elem_of_In, list_elem_of_lookup; eauto.
  - apply lookup_lt_Some in Hb. lia.
  - apply (H2 (i - length l1)%nat (j - length l1)%nat); [lia|assumption|assumption].
Qed.

(** The identifiers of one canto are in ascending order. *)
Lemma canto_urns_ascending (d : Canto.t) :
  verses_ok (Canto.cantica d) (Canto.canto d) (Canto.versi d) ->
  0 <= Canto.canto d <= 99 -> len (Canto.versi d) <= 999 ->
  ascending (canto_urns d).
Proof.
  intros (code & _ & Hv) Hc Hn i j a b Hij Ha Hb. unfold canto_urns in *.
  apply list_lookup_fmap_Some in Ha as (va & -> & Ha).
  apply list_lookup_fmap_Some in Hb as (vb & -> & Hb).
  destruct (Hv i va Ha) as [_ ->]. destruct (Hv j vb Hb) as [_ ->].
  apply lookup_lt_Some in Hb. unfold len in Hn.
  apply urn_text_order; lia.
Qed.

(** The identifiers of the cantos numbered [s + 1], [s + 2], ... of one
    part are in ascending order. *)
Lemma part_cantos_ascending (p : pystr) (ds : list Canto.t) : forall (s m : nat),
  map Canto.canto ds = map Z.of_nat (seq (S s) m) ->
  (forall d, In d ds ->
     verses_ok (Canto.cantica d) (Canto.canto d) (Canto.versi d)
     /\ Canto.cantica d = p
     /\ Canto.canto d <= 99 /\ len (Canto.versi d) <= 999) ->
  ascending (concat (map canto_urns ds)).
Proof.
  induction ds as [|d ds IH]; intros s m Hnum Hds.
  - intros i j a b _ Ha. discriminate.
  - destruct m as [|m]; [discriminate|]. cbn [map seq] in Hnum.
    inversion Hnum as [[Hd Hrest]]. cbn [map concat].
    destruct (Hds d (or_introl eq_refl)) as (Hv & Hp & Hc & Hn).
    apply ascending_app.
    + apply canto_urns_ascending; [assumption|lia|assumption].
    + apply (IH (S s) m Hrest). intros d' Hd'. apply Hds. right. assumption.
    + intros a b Ha Hb.
      apply in_concat in Hb as (us & Hus & Hb). apply in_map_iff in Hus as (d' & <- & Hd').
      destruct (Hds d' (or_intror Hd')) as (Hv' & Hp' & Hc' & Hn').
      assert (Hlt : Canto.canto d < Canto.canto d' /\ 0 <= Canto.canto d).
      { assert (Hin : In (Canto.canto d') (map Z.of_nat (seq (S (S s)) m)))
          by (rewrite <- Hrest; apply in_map; assumption).
        apply in_map_iff in Hin as (x & <- & Hx). apply in_seq in Hx. lia. }
      destruct Hv as (code & Hcode & Hv). destruct Hv' as (code' & Hcode' & Hv').
      rewrite Hp in Hcode. rewrite Hp' in Hcode'.
      rewrite (part_codes_fun _ _ _ Hcode' Hcode) in Hv'.
      unfold canto_urns in Ha, Hb.
      apply in_map_iff in Ha as (va & <- & Ha). apply in_map_iff in Hb as (vb & <- & Hb).
      apply list_elem_of_In, list_elem_of_lookup in Ha as (i & Ha).
      apply list_elem_of_In, list_elem_of_lookup in Hb as (j & Hb).
      destruct (Hv i va Ha) as [_ ->]. destruct (Hv' j vb Hb) as [_ ->].
      apply lookup_lt_Some in Ha. apply lookup_lt_Some in Hb. unfold len in *.
      apply urn_text_order; lia.
Qed.

(** ** The claims on whole runs *)

Section RunClaims.
Context {U : UnicodeData}.
Variables (pdf outdir : pystr) (block_size block_overlap : Z).
Import divina_full_pipeline.

Lemma canto_marker_step (st : State.t) (page_idx : Z) (line p : pystr) :
  Inv st -> is_canto_header line = true -> State.current_cantica st = Some p ->
  exists st', process_line pdf outdir block_size block_overlap page_idx st line = Ok st'
    /\ State.canto_buf st' = Some (CantoBuffer.mk p (counter st p + 1) [])
    /\ State.current_cantica st' = Some p
    /\ forall q, q <> p -> counter st' q = counter st q.
Proof.
  intros HI Hl Hp. unfold process_line.
  rewrite (canto_not_cantica_header line Hl), Hl, Hp.
  destruct (close_canto_inv pdf outdir block_size block_overlap (page_idx - 1) st HI)
    as (st1 & -> & _ & _ & Hc1 & He1).
  cbn [bind]. eexists. split; [reflexivity|]. cbn.
  split; [|split].
  - do 2 f_equal. unfold counter. rewrite He1. fold (key_of p).
    destruct (State.extra st !! key_of p); cbn; lia.
  - congruence.
  - intros q Hq. unfold counter. cbn. fold (key_of p).
    rewrite lookup_insert_ne by (intros E; apply key_of_inj in E; congruence).
    rewrite He1. reflexivity.
Qed.

Lemma part_marker_step (st st' : State.t) (page_idx : Z) (line : pystr) (m : option pystr) :
  Inv st -> re_match true CANTICA_HEADER_RE line = Some m ->
  process_line pdf outdir block_size block_overlap page_idx st line = Ok st' ->
  State.canto_buf st' = None /\ forall q, counter st' q = counter st q.
Proof.
  intros HI Hm. unfold process_line. rewrite Hm.
  destruct (close_canto_inv pdf outdir block_size block_overlap (page_idx - 1) st HI)
    as (st1 & -> & _ & Hb1 & _ & He1).
  cbn [bind]. destruct m as [g|]; cbn [bind]; [|discriminate].
  destruct (getitem CANTICHE_TITLES (upper g)); cbn [bind]; try discriminate.
  intros E. inversion E; subst st'. cbn. split; [assumption|].
  intros q. unfold counter. cbn. rewrite He1. reflexivity.
Qed.

Lemma probable_verse_no_marker (line : pystr) :
  is_probable_verse line = true ->
  re_match true CANTICA_HEADER_RE line = None /\ is_canto_header line = false.
Proof.
  unfold is_probable_verse. intros H.
  destruct (is_canto_header line) eqn:Hh, (is_cantica_header line) eqn:Hc;
    cbn [orb negb andb] in H;
    repeat match type of H with
           | context [if ?c then _ else _] => destruct c
           end; try discriminate;
    (split; [apply is_cantica_header_None; exact Hc|reflexivity]).
Qed.

Lemma verse_line_step (st : State.t) (page_idx : Z) (line : pystr) (buf : CantoBuffer.t) :
  Inv st -> State.canto_buf st = Some buf -> is_probable_verse line = true ->
  exists v st',
    process_line pdf outdir block_size block_overlap page_idx st line = Ok st'
    /\ State.canto_buf st'
       = Some (CantoBuffer.mk (CantoBuffer.cantica buf) (CantoBuffer.canto_num buf)
                 (CantoBuffer.verses buf ++ [v]))
    /\ Verse.number v = len (CantoBuffer.verses buf) + 1
    /\ Verse.text_original v = line
    /\ State.written st' = State.written st
    /\ forall q, counter st' q = counter st q.
Proof.
  intros HI Hb Hv. destruct (probable_verse_no_marker line Hv) as [Hm Hh].
  destruct (inv_buf st HI buf Hb) as (Hc & _).
  destruct (inv_part st HI _ Hc) as (code & Hcode).
  destruct (add_verse_ok buf line code Hcode) as (lw & letter & ssml & Hadd).
  unfold process_line. rewrite Hm, Hh, Hb, Hv, Hadd. cbn [bind].
  eexists. eexists. split; [reflexivity|]. cbn.
  split; [reflexivity|]. split; [reflexivity|]. split; [reflexivity|]. split; [reflexivity|].
  intros q. reflexivity.
Qed.

(** C6. In every run that returns, the verses of each canto written are
    numbered 1, 2, ... in list order, and the canto numbers of each part
    are 1, 2, ... in the order of the files, whatever the order in which
    the parts come; the manifest lists the same cantos. The same numbering
    holds in every state that the loop reaches, of the cantos written so
    far and of the open one. A line taken as a verse is appended to the
    open canto, after the verses it has, with their number plus one as its
    number, and changes neither the files nor a counter. At a canto marker
    the new canto gets the counter of the current part plus one, whatever
    the heading says, and the counters of the other parts stay; a part
    marker changes no counter. *)
Theorem numbering_contiguous (pages : list (list pystr)) :
  (forall r, run_pipeline pdf outdir block_size block_overlap pages = Ok r ->
     (forall f d, In (f, d) (Run.files r) ->
        map Verse.number (Canto.versi d) = upto (len (Canto.versi d)))
     /\ (forall p, exists k, 0 <= k /\ cantos_of p (map snd (Run.files r)) = upto k)
     /\ map entry_view (Run.manifest_canti r) = map file_view (Run.files r))
  /\ (forall st, reachable pdf outdir block_size block_overlap st ->
        (forall f d, In (f, d) (State.written st) ->
           map Verse.number (Canto.versi d) = upto (len (Canto.versi d)))
        /\ (forall buf, State.canto_buf st = Some buf ->
              map Verse.number (CantoBuffer.verses buf) = upto (len (CantoBuffer.verses buf)))
        /\ (forall p, cantos_of p (map snd (State.written st)) = upto (closed_count st p)))
  /\ (forall st page_idx line buf,
        reachable pdf outdir block_size block_overlap st ->
        State.canto_buf st = Some buf -> is_probable_verse line = true ->
        exists v st',
          process_line pdf outdir block_size block_overlap page_idx st line = Ok st'
          /\ State.canto_buf st'
             = Some (CantoBuffer.mk (CantoBuffer.cantica buf) (CantoBuffer.canto_num buf)
                       (CantoBuffer.verses buf ++ [v]))
          /\ Verse.number v = len (CantoBuffer.verses buf) + 1
          /\ Verse.text_original v = line
          /\ State.written st' = State.written st
          /\ forall q, counter st' q = counter st q)
  /\ (forall st page_idx line p,
        reachable pdf outdir block_size block_overlap st ->
        is_canto_header line = true -> State.current_cantica st = Some p ->
        exists st',
          process_line pdf outdir block_size block_overlap page_idx st line = Ok st'
          /\ State.canto_buf st' = Some (CantoBuffer.mk p (counter st p + 1) [])
          /\ forall q, q <> p -> counter st' q = counter st q)
  /\ (forall st st' page_idx line m,
        reachable pdf outdir block_size block_overlap st ->
        re_match true CANTICA_HEADER_RE line = Some m ->
        process_line pdf outdir block_size block_overlap page_idx st line = Ok st' ->
        forall q, counter st' q = counter st q).
Proof.
  pose proof (run_pipeline_inv pdf outdir block_size block_overlap pages) as Hrun.
  split; [|split; [|split; [|split]]].
  - intros r Hr. rewrite Hr in Hrun. destruct Hrun as (Hv & Hc & _ & Hm & _).
    split; [|split; assumption].
    intros f d Hd. apply (verses_ok_numbers (Canto.cantica d) (Canto.canto d)), Hv.
    apply in_map_iff. exists (f, d). auto.
  - intros st Hst. pose proof (reachable_inv _ _ _ _ st Hst) as HI. split; [|split].
    + intros f d Hd. apply (verses_ok_numbers (Canto.cantica d) (Canto.canto d)).
      apply (inv_verses st HI). apply in_map_iff. exists (f, d). auto.
    + intros buf Hb. destruct (inv_buf st HI buf Hb) as (_ & _ & _ & Hv).
      apply (verses_ok_numbers _ _ _ Hv).
    + apply (inv_cantos st HI).
  - intros st page_idx line buf Hst Hb Hv.
    apply (verse_line_step st page_idx line buf (reachable_inv _ _ _ _ st Hst) Hb Hv).
  - intros st page_idx line p Hst Hl Hp.
    destruct (canto_marker_step st page_idx line p (reachable_inv _ _ _ _ st Hst) Hl Hp)
      as (st' & H1 & H2 & _ & H3). eauto.
  - intros st st' page_idx line m Hst Hm Hstep.
    apply (part_marker_step st st' page_idx line m (reachable_inv _ _ _ _ st Hst) Hm Hstep).
Qed.

(** C5, as the code has it. An identifier is the short code of the part
    (inf, purg, par), the canto on 2 digits and the verse on 3, joined by
    full stops; the identifiers of one run are pairwise distinct; the
    identifiers of one part, with canto numbers up to 99 and verse numbers
    up to 999, are in lexicographic order exactly as their (canto, verse)
    pairs; and the lexicographic order of the parts is Inferno, Paradiso,
    Purgatorio. *)
Theorem urns_unique_and_ordered (pages : list (list pystr)) (r : Run.t) :
  run_pipeline pdf outdir block_size block_overlap pages = Ok r ->
  NoDup (run_urns r)
  /\ (forall f d, In (f, d) (Run.files r) ->
        exists code, In (Canto.cantica d, code) part_codes
          /\ forall v, In v (Canto.versi d) ->
               verse_urn (Canto.cantica d) (Canto.canto d) (Verse.number v) = Ok (Verse.urn v)
               /\ Verse.urn v = code ++ str "." ++ format_0d 2 (Canto.canto d) ++ str "."
                                ++ format_0d 3 (Verse.number v))
  /\ (forall p code c n, In (p, code) part_codes ->
        verse_urn p c n = Ok (code ++ str "." ++ format_0d 2 c ++ str "." ++ format_0d 3 n))
  /\ (forall code c1 n1 c2 n2,
        0 <= c1 <= 99 -> 0 <= c2 <= 99 -> 0 <= n1 <= 999 -> 0 <= n2 <= 999 ->
        (str_lt (urn_text code c1 n1) (urn_text code c2 n2) = true
         <-> c1 < c2 \/ (c1 = c2 /\ n1 < n2)))
  /\ (forall p,
        (forall f d, In (f, d) (Run.files r) -> Canto.cantica d = p ->
           Canto.canto d <= 99 /\ len (Canto.versi d) <= 999) ->
        ascending (part_urns p r))
  /\ (forall c n c' n',
        str_lt (urn_text (str "inf") c n) (urn_text (str "par") c' n') = true
        /\ str_lt (urn_text (str "par") c n) (urn_text (str "purg") c' n') = true).
Proof.
  intros Hr. pose proof (run_pipeline_inv pdf outdir block_size block_overlap pages) as Hrun.
  rewrite Hr in Hrun. destruct Hrun as (Hv & Hc & Hnd & _).
  split; [assumption|]. split; [|split; [|split; [|split]]].
  - intros f d Hd.
    destruct (Hv d) as (code & Hcode & Hvs); [apply in_map_iff; exists (f, d); auto|].
    exists code. split; [assumption|]. intros v Hin.
    apply list_elem_of_In, list_elem_of_lookup in Hin as (i & Hi).
    destruct (Hvs i v Hi) as [Hn Hu]. rewrite Hn, Hu.
    split; [apply verse_urn_codes; assumption|reflexivity].
  - intros p code c n Hcode. apply (verse_urn_codes p code c n Hcode).
  - apply urn_text_order.
  - intros p Hbound. destruct (Hc p) as (k & Hk & Hcantos).
    apply (part_cantos_ascending p _ 0 (Z.to_nat k)).
    + unfold cantos_of, upto in Hcantos. exact Hcantos.
    + intros d Hd. apply filter_In in Hd as [Hd Hp]. apply bool_decide_eq_true in Hp.
      split; [apply Hv, Hd|]. split; [assumption|].
      apply in_map_iff in Hd as ([f d'] & <- & Hd). apply (Hbound f d' Hd Hp).
  - intros. split; reflexivity.
Qed.

(** C8. A canto marker met before any part marker leaves the state as it
    is. Closing a canto never raises in a run; closing a canto without
    verses writes its file, with zero verses, stanzas and blocks, and adds
    its manifest entry. *)
Theorem anomalies_absorbed (st : State.t) :
  (forall page_idx line,
     is_canto_header line = true -> State.current_cantica st = None ->
     process_line pdf outdir block_size block_overlap page_idx st line = Ok st)
  /\ (reachable pdf outdir block_size block_overlap st ->
      forall end_page_idx,
        (exists st', close_canto pdf outdir block_size block_overlap end_page_idx st = Ok st')
        /\ forall buf, State.canto_buf st = Some buf -> CantoBuffer.verses buf = [] ->
           exists st' fpath data,
             close_canto pdf outdir block_size block_overlap end_page_idx st = Ok st'
             /\ State.written st' = State.written st ++ [(fpath, data)]
             /\ State.canti st'
                = State.canti st ++
                  [Entry.mk (Some (CantoBuffer.cantica buf)) (Some (CantoBuffer.canto_num buf))
                     fpath (Counts.mk 0 0 0)]
             /\ State.canto_buf st' = None
             /\ Canto.cantica data = CantoBuffer.cantica buf
             /\ Canto.canto data = CantoBuffer.canto_num buf
             /\ Canto.counts data = Counts.mk 0 0 0
             /\ Canto.versi data = [] /\ Canto.terzine data = []
             /\ Canto.recitation_blocks data = []).
Proof.
  split.
  - intros page_idx line Hl Hp. unfold process_line.
    rewrite (canto_not_cantica_header line Hl), Hl, Hp. reflexivity.
  - intros Hst end_page_idx. pose proof (reachable_inv _ _ _ _ st Hst) as HI. split.
    + destruct (close_canto_inv pdf outdir block_size block_overlap end_page_idx st HI)
        as (st' & H & _). eauto.
    + intros buf Hb Hv.
      destruct (close_canto_open pdf outdir block_size block_overlap end_page_idx st buf HI Hb)
        as (code & pr & terzine & blocks & _ & H0 & Hclose).
      destruct (H0 Hv) as [-> ->]. cbv zeta in Hclose. rewrite Hv in Hclose.
      do 3 eexists. split; [exact Hclose|]. cbn. repeat split.
Qed.

(** C7. The short code of a part name is inf, purg or par when the
    trimmed, lower-cased name starts with inf, pur or par, and a
    [ValueError] otherwise, in both files. And yet another operation
    raises: a line that spells a part title with U+0130 matches the
    case-insensitive title pattern, its upper case is not a key of the
    title table, and the run ends with a [KeyError]. *)
Theorem part_title_lookup_raises :
  (forall cantica,
     let c := lower (strip cantica) in
     short_cantica cantica = divina_pipeline.short_cantica cantica
     /\ (startswith c (str "inf") = true -> short_cantica cantica = Ok (str "inf"))
     /\ (startswith c (str "inf") = false -> startswith c (str "pur") = true ->
         short_cantica cantica = Ok (str "purg"))
     /\ (startswith c (str "inf") = false -> startswith c (str "pur") = false ->
         startswith c (str "par") = true -> short_cantica cantica = Ok (str "par"))
     /\ ((exists e, short_cantica cantica = Raise e)
         <-> startswith c (str "inf") = false /\ startswith c (str "pur") = false
             /\ startswith c (str "par") = false))
  /\ re_match true CANTICA_HEADER_RE dotted_title = Some (Some dotted_title)
  /\ upper dotted_title = dotted_title
  /\ run_pipeline pdf outdir block_size block_overlap [[dotted_title]]
     = Raise (KeyError dotted_title).
Proof.
  split; [|repeat split; vm_compute; reflexivity].
  intros cantica c. unfold short_cantica, divina_pipeline.short_cantica. fold c.
  destruct (startswith c (str "inf")), (startswith c (str "pur")),
    (startswith c (str "par"));
    repeat match goal with
           | |- _ /\ _ => split
           | |- _ <-> _ => split
           | |- _ -> _ => intro
           | H : exists _, _ |- _ => destruct H
           | H : _ /\ _ |- _ => destruct H
           end;
    try reflexivity; try discriminate; eexists; reflexivity.
Qed.

End RunClaims.

(** C5, as the specification words it, fails: in a run over the first
    verses of Purgatorio and of Paradiso the identifiers come out in
    document order as purg.01.001, par.01.001, and lexicographic order puts
    the second before the first. *)
Lemma lexicographic_order_is_not_document_order :
  ~ (forall (U : UnicodeData) (pdf outdir : pystr) (block_size block_overlap : Z)
            (pages : list (list pystr)) (r : divina_full_pipeline.Run.t),
       divina_full_pipeline.run_pipeline pdf outdir block_size block_overlap pages = Ok r ->
       ascending (run_urns r)).
Proof.
  intros H.
  specialize (H ascii_only (str "commedia.pdf") (str "out") 12 0 two_parts_pages).
  destruct (@divina_full_pipeline.run_pipeline ascii_only (str "commedia.pdf") (str "out")
              12 0 two_parts_pages) as [r| |] eqn:E; try (vm_compute in E; discriminate).
  specialize (H r eq_refl 0%nat 1%nat (str "purg.01.001") (str "par.01.001")).
  vm_compute in E. inversion E; subst r.
  assert (Hf : str_lt (str "purg.01.001") (str "par.01.001") = true)
    by (apply H; [lia|reflexivity|reflexivity]).
  vm_compute in Hf. discriminate.
Qed.

(** ** The markup of a block *)

Lemma replace1_absent (old : N) (new s : pystr) : ~ In old s -> replace1 old new s = s.
Proof.
  induction s as [|c s IH]; intros H; [reflexivity|]. cbn [replace1 flat_map].
  destruct (N.eqb_spec c old) as [->|_]; [exfalso; apply H; left; reflexivity|].
  cbn [app]. f_equal. apply IH. intros Hin. apply H. right. assumption.
Qed.

(** A text without [&], [<] and [>] is its own escaped form: on such
    texts the markup of a block is made of the markup of its verses. *)
Lemma ssml_for_verso_plain (text : pystr) :
  ~ In 38%N text -> ~ In 60%N text -> ~ In 62%N text ->
  divina_full_pipeline.ssml_for_verso text = str "<s>" ++ text ++ str "</s>".
Proof.
  intros H1 H2 H3. unfold divina_full_pipeline.ssml_for_verso.
  rewrite (replace1_absent 38) by assumption. rewrite (replace1_absent 60) by assumption.
  rewrite (replace1_absent 62) by assumption. reflexivity.
Qed.

(** The markup of a block, part by part: the original text of each verse
    between the sentence tags, then the pause that its position in the
    block asks for. *)
Lemma ssml_parts_concat (texts : list pystr) : forall i,
  concat (divina_full_pipeline.ssml_parts i texts)
  = concat (imap (fun k t => str "<s>" ++ t ++ str "</s>" ++ pause (i + Z.of_nat k)) texts).
Proof.
  induction texts as [|t ts IH]; intros i; [reflexivity|].
  cbn [divina_full_pipeline.ssml_parts concat imap]. rewrite IH.
  rewrite Z.add_0_r. fold (pause i). rewrite <- !app_assoc. do 5 f_equal.
  apply imap_ext. intros k x _. cbn. do 3 f_equal. f_equal. lia.
Qed.

(** C4, at a text with an ampersand. The markup of a verse escapes it; the
    markup of the block that holds the verse is built from the original
    text and carries the ampersand as it is, in both files. The rest is as
    claimed: one paragraph, and after the [i]-th verse of the block a pause
    of 220ms if 3 divides [i] and of 120ms otherwise. *)
Theorem block_markup_not_escaped :
  (forall texts,
     divina_full_pipeline.ssml_block texts
     = str "<p>"
       ++ concat (imap (fun k t => str "<s>" ++ t ++ str "</s>" ++ pause (1 + Z.of_nat k)) texts)
       ++ str "</p>"
     /\ divina_pipeline.make_ssml_for_block texts = divina_full_pipeline.ssml_block texts)
  /\ divina_full_pipeline.ssml_for_verso (str "a&b") = str "<s>a&amp;b</s>"
  /\ divina_pipeline.make_ssml_for_verso (str "a&b") = str "<s>a&amp;b</s>"
  /\ (exists b, divina_full_pipeline.make_blocks [ampersand_verse] 12 0 = Ok [b]
        /\ Block.ssml b = str "<p><s>a&b</s><break time='120ms'/></p>")
  /\ (exists b, divina_pipeline.build_recitation_blocks [ampersand_verse] 12 0 = Ok [b]
        /\ Block.ssml b = str "<p><s>a&b</s><break time='120ms'/></p>")
  /\ str "<p><s>a&b</s><break time='120ms'/></p>"
     <> str "<p>" ++ divina_full_pipeline.ssml_for_verso (str "a&b")
        ++ str "<break time='120ms'/>" ++ str "</p>".
Proof.
  split.
  { intros texts. split; [|apply ssml_block_agree].
    unfold divina_full_pipeline.ssml_block. rewrite ssml_parts_concat. reflexivity. }
  split; [reflexivity|]. split; [reflexivity|].
  split; [eexists; split; reflexivity|]. split; [eexists; split; reflexivity|].
  vm_compute. discriminate.
Qed.

(** ** Runs on small documents *)

(** The scenario of the specification: one canto of Inferno with 2 verses,
    no stanza, one block. *)
Example scenario_run :
  summary (@divina_full_pipeline.run_pipeline ascii_only (str "commedia.pdf") (str "out") 12 0
             scenario_pages)
  = Some [ (str "Inferno", 1, Counts.mk 2 0 1, [str "inf.01.001"; str "inf.01.002"]) ].
Proof. vm_compute. reflexivity. Qed.

(** Coming back to a part goes on with its canto numbers. *)
Example interleaved_run :
  summary (@divina_full_pipeline.run_pipeline ascii_only (str "commedia.pdf") (str "out") 12 0
             interleaved_pages)
  = Some [ (str "Inferno", 1, Counts.mk 1 0 1, [str "inf.01.001"]);
           (str "Purgatorio", 1, Counts.mk 1 0 1, [str "purg.01.001"]);
           (str "Inferno", 2, Counts.mk 1 0 1, [str "inf.02.001"]) ].
Proof. vm_compute. reflexivity. Qed.

(** Six verses, block size 3, no overlap: two blocks and two stanzas. *)
Example six_verses_run :
  let verses := map (fun n => Verse.mk (str "inf.01." ++ format_0d 3 n) n (str "verso")
                                (str "verso") (str "a") (str "<s>verso</s>"))
                  [1; 2; 3; 4; 5; 6] in
  (exists b1 b2, divina_full_pipeline.make_blocks verses 3 0 = Ok [b1; b2]
     /\ Block.versi b1 = [str "inf.01.001"; str "inf.01.002"; str "inf.01.003"]
     /\ Block.versi b2 = [str "inf.01.004"; str "inf.01.005"; str "inf.01.006"])
  /\ (exists t1 t2, divina_full_pipeline.group_terzine verses = Ok [t1; t2]
        /\ Terzina.versi t1 = [str "inf.01.001"; str "inf.01.002"; str "inf.01.003"]
        /\ Terzina.versi t2 = [str "inf.01.004"; str "inf.01.005"; str "inf.01.006"]).
Proof. split; do 2 eexists; (split; [vm_compute; reflexivity|split; reflexivity]). Qed.

(** ** The claims at concrete inputs *)

Lemma recitation_blocks_windows_witness :
  0 <= 1 < 3
  /\ exists blocks,
       divina_full_pipeline.make_blocks five_verses 3 1 = Ok blocks
       /\ block_windows five_verses 3 (Z.max 1 (3 - 1)) blocks.
Proof.
  assert (H : 0 <= 1 < 3) by lia. split; [exact H|].
  destruct (recitation_blocks_windows five_verses 3 1 H) as (_ & Hb & _). exact Hb.
Defined.

(** C10, as stated, fails. On verses numbered 1, 2, 3 whose identifier is
    [abc], the stanza of [divina_pipeline.py] is named [abc.001-003] and
    that of [divina_full_pipeline.py] [001-003], and so are the blocks; on
    verses numbered -100, -99, -98 with the identifiers of their numbers
    the names differ too. All these numbers are at most 999. *)
Lemma variants_differ_off_generated :
  Forall (fun v => Verse.number v <= 999) foreign_verses
  /\ divina_pipeline.group_terzine foreign_verses
     = Ok [Terzina.mk (str "abc.001-003") 1 3 (str "aba") [str "abc"; str "abc"; str "abc"]]
  /\ divina_full_pipeline.group_terzine foreign_verses
     = Ok [Terzina.mk (str "001-003") 1 3 (str "aba") [str "abc"; str "abc"; str "abc"]]
  /\ divina_pipeline.group_terzine foreign_verses
     <> divina_full_pipeline.group_terzine foreign_verses
  /\ divina_pipeline.build_recitation_blocks foreign_verses 12 0
     <> divina_full_pipeline.make_blocks foreign_verses 12 0
  /\ Forall (fun v => Verse.number v <= 999 /\ @generated_urn ascii_only v) low_verses
  /\ divina_pipeline.group_terzine low_verses
     <> divina_full_pipeline.group_terzine low_verses
  /\ divina_pipeline.build_recitation_blocks low_verses 12 0
     <> divina_full_pipeline.make_blocks low_verses 12 0.
Proof.
  split; [repeat constructor; cbn; lia|].
  split; [vm_compute; reflexivity|]. split; [vm_compute; reflexivity|].
  split; [vm_compute; discriminate|]. split; [vm_compute; discriminate|].
  split.
  { repeat constructor; try (cbn; lia); exists (str "Inferno"), 1; vm_compute; reflexivity. }
  split; vm_compute; discriminate.
Qed.

Lemma variants_agree_witness :
  Forall (fun v => -99 <= Verse.number v <= 999 /\ @generated_urn ascii_only v) five_verses
  /\ divina_pipeline.group_terzine five_verses = divina_full_pipeline.group_terzine five_verses
  /\ divina_pipeline.build_recitation_blocks five_verses 3 1
     = divina_full_pipeline.make_blocks five_verses 3 1.
Proof.
  assert (H : Forall (fun v => -99 <= Verse.number v <= 999 /\ @generated_urn ascii_only v)
                five_verses).
  { repeat constructor; try (cbn; lia);
      exists (str "Inferno"), 1; vm_compute; reflexivity. }
  split; [exact H|]. exact (@variants_agree ascii_only five_verses 3 1 H).
Defined.

Lemma noise_takes_precedence_witness :
  @divina_full_pipeline.looks_like_noise ascii_only (str "47") = true
  /\ @classify ascii_only (str "47") = Ok Noise.
Proof.
  assert (H : @divina_full_pipeline.looks_like_noise ascii_only (str "47") = true)
    by (vm_compute; reflexivity).
  split; [exact H|].
  destruct (@noise_takes_precedence ascii_only (str "47")) as [_ Hn].
  destruct (Hn H) as (_ & _ & Hc & _). exact Hc.
Defined.

Lemma numbering_contiguous_witness :
  exists r,
    @divina_full_pipeline.run_pipeline ascii_only (str "commedia.pdf") (str "out") 12 0
      scenario_pages = Ok r
    /\ map (fun fd : pystr * Canto.t => map Verse.number (Canto.versi fd.2))
         (divina_full_pipeline.Run.files r) = [[1; 2]]
    /\ forall f d, In (f, d) (divina_full_pipeline.Run.files r) ->
         map Verse.number (Canto.versi d) = upto (len (Canto.versi d)).
Proof.
  eexists. split; [vm_compute; reflexivity|]. split; [vm_compute; reflexivity|].
  destruct (@numbering_contiguous ascii_only (str "commedia.pdf") (str "out") 12 0
              scenario_pages) as [H _].
  destruct (H _ ltac:(vm_compute; reflexivity)) as [Hv _]. exact Hv.
Defined.

Lemma urns_unique_and_ordered_witness :
  exists r,
    @divina_full_pipeline.run_pipeline ascii_only (str "commedia.pdf") (str "out") 12 0
      scenario_pages = Ok r
    /\ NoDup (run_urns r).
Proof.
  eexists. split; [vm_compute; reflexivity|].
  destruct (@urns_unique_and_ordered ascii_only (str "commedia.pdf") (str "out") 12 0
              scenario_pages _ ltac:(vm_compute; reflexivity)) as [H _]. exact H.
Defined.

Lemma empty_canto_state_reachable :
  @reachable ascii_only (str "commedia.pdf") (str "out") 12 0 empty_canto_state.
Proof.
  apply (reach_line _ _ _ _ part_state empty_canto_state 0 (str "CANTO PRIMO")).
  - apply (reach_line _ _ _ _ divina_full_pipeline.initial part_state 0 (str "INFERNO")).
    + apply reach_initial.
    + vm_compute. reflexivity.
  - vm_compute. reflexivity.
Defined.

Lemma anomalies_absorbed_witness :
  @reachable ascii_only (str "commedia.pdf") (str "out") 12 0 empty_canto_state
  /\ exists st',
       @divina_full_pipeline.close_canto ascii_only (str "commedia.pdf") (str "out") 12 0 0
         empty_canto_state = Ok st'.
Proof.
  split; [exact empty_canto_state_reachable|].
  destruct (@anomalies_absorbed ascii_only (str "commedia.pdf") (str "out") 12 0
              empty_canto_state) as [_ H].
  exact (proj1 (H empty_canto_state_reachable 0)).
Defined.

(** * Further properties of the code *)

(** ** Escaping *)

Lemma replace1_app (old : N) (new a b : pystr) :
  replace1 old new (a ++ b) = replace1 old new a ++ replace1 old new b.
Proof. unfold replace1. apply flat_map_app. Qed.

Lemma escape_amp : escape_char 38%N = [38; 97; 109; 112; 59]%N.
Proof. reflexivity. Qed.

Lemma escape_lt : escape_char 60%N = [38; 108; 116; 59]%N.
Proof. reflexivity. Qed.

Lemma escape_gt : escape_char 62%N = [38; 103; 116; 59]%N.
Proof. reflexivity. Qed.

Lemma escape_plain (c : N) : c <> 38%N -> c <> 60%N -> c <> 62%N -> escape_char c = [c].
Proof.
  intros H1 H2 H3. unfold escape_char.
  destruct (N.eqb_spec c 38); [contradiction|]. destruct (N.eqb_spec c 60); [contradiction|].
  destruct (N.eqb_spec c 62); [contradiction|]. reflexivity.
Qed.

(** The three replacements in the order of the source, the ampersand first,
    act as one pass over the characters. *)
Lemma escape_one_pass (s : pystr) :
  replace1 62 (str "&gt;") (replace1 60 (str "&lt;") (replace1 38 (str "&amp;") s))
  = flat_map escape_char s.
Proof.
  induction s as [|c s IH]; [reflexivity|].
  change (replace1 38 (str "&amp;") (c :: s))
    with ((if (c =? 38)%N then str "&amp;" else [c]) ++ replace1 38 (str "&amp;") s).
  rewrite !replace1_app, IH. cbn [flat_map]. f_equal.
  destruct (N.eq_dec c 38%N) as [->|H38]; [reflexivity|].
  destruct (N.eq_dec c 60%N) as [->|H60]; [reflexivity|].
  destruct (N.eq_dec c 62%N) as [->|H62]; [reflexivity|].
  rewrite escape_plain by assumption.
  apply N.eqb_neq in H38, H60, H62. rewrite H38. unfold replace1. cbn [flat_map].
  rewrite H60. cbn [app flat_map]. rewrite H62. reflexivity.
Qed.

Lemma escape_char_cases (c : N) :
  (c <> 38%N /\ c <> 60%N /\ c <> 62%N /\ escape_char c = [c])
  \/ (c = 38%N /\ escape_char c = [38; 97; 109; 112; 59]%N)
  \/ (c = 60%N /\ escape_char c = [38; 108; 116; 59]%N)
  \/ (c = 62%N /\ escape_char c = [38; 103; 116; 59]%N).
Proof.
  destruct (N.eq_dec c 38%N) as [->|H38]; [right; left; split; reflexivity|].
  destruct (N.eq_dec c 60%N) as [->|H60]; [right; right; left; split; reflexivity|].
  destruct (N.eq_dec c 62%N) as [->|H62]; [right; right; right; split; reflexivity|].
  left. repeat split; try assumption. apply escape_plain; assumption.
Qed.

Lemma escape_inj (s : pystr) : forall t,
  flat_map escape_char s = flat_map escape_char t -> s = t.
Proof.
  induction s as [|c s IH]; intros [|d t] H; cbn [flat_map] in H.
  - reflexivity.
  - exfalso. destruct (escape_char_cases d) as [(_ & _ & _ & E)|[[_ E]|[[_ E]|[_ E]]]];
      rewrite E in H; discriminate.
  - exfalso. destruct (escape_char_cases c) as [(_ & _ & _ & E)|[[_ E]|[[_ E]|[_ E]]]];
      rewrite E in H; discriminate.
  - destruct (escape_char_cases c) as [(C1 & C2 & C3 & E)|[[C E]|[[C E]|[C E]]]];
      destruct (escape_char_cases d) as [(D1 & D2 & D3 & E')|[[D E']|[[D E']|[D E']]]];
      rewrite E, E' in H; cbn [app] in H; try discriminate;
      try (exfalso; congruence).
    all: assert (Hs : flat_map escape_char s = flat_map escape_char t) by congruence;
      assert (Hc : c = d) by congruence; rewrite Hc; f_equal; apply IH; exact Hs.
Qed.

Lemma escape_no_angle (s : pystr) (c : N) :
  c = 60%N \/ c = 62%N -> ~ In c (flat_map escape_char s).
Proof.
  intros Hc. induction s as [|d s IH]; [intros []|]. cbn [flat_map]. intros H.
  apply in_app_or in H as [H|H]; [|auto].
  destruct (escape_char_cases d) as [(D1 & D2 & D3 & E)|[[D E]|[[D E]|[D E]]]];
    rewrite E in H; cbn in H; destruct Hc; subst c; intuition congruence.
Qed.

(** X1. The markup of one verse is the text with every ampersand, less-than
    and greater-than sign replaced by its entity in one pass (an ampersand
    that an entity brings in is not escaped again), between the sentence
    tags; the escaped text has no angle bracket, and two texts with the
    same markup are the same text. The two files build it alike. *)
Theorem verse_markup_escapes (text : pystr) :
  divina_full_pipeline.ssml_for_verso text
  = str "<s>" ++ flat_map escape_char text ++ str "</s>"
  /\ divina_pipeline.make_ssml_for_verso text = divina_full_pipeline.ssml_for_verso text
  /\ ~ In 60%N (flat_map escape_char text)
  /\ ~ In 62%N (flat_map escape_char text)
  /\ (forall text',
        divina_full_pipeline.ssml_for_verso text' = divina_full_pipeline.ssml_for_verso text ->
        text' = text).
Proof.
  split; [|split; [|split; [|split]]].
  - unfold divina_full_pipeline.ssml_for_verso. rewrite escape_one_pass. reflexivity.
  - reflexivity.
  - apply escape_no_angle. auto.
  - apply escape_no_angle. auto.
  - intros text'. unfold divina_full_pipeline.ssml_for_verso. rewrite !escape_one_pass.
    intros H. apply app_inv_head in H. apply app_inv_tail in H. apply escape_inj. exact H.
Qed.

(** ** The last word of a line *)

Lemma findall_runs_letters (p : N -> bool) (w : pystr) : forall acc rest,
  forallb p w = true -> findall_runs p acc (w ++ rest) = findall_runs p (rev w ++ acc) rest.
Proof.
  induction w as [|c w IH]; intros acc rest H; [reflexivity|].
  cbn [forallb] in H. apply andb_prop in H as [Hc Hw].
  cbn [app findall_runs]. rewrite Hc, IH by assumption. cbn [rev]. rewrite <- app_assoc.
  reflexivity.
Qed.

Lemma findall_runs_others (p : N -> bool) (post : pystr) : forall acc,
  forallb (fun c => negb (p c)) post = true ->
  findall_runs p acc post = match acc with [] => [] | _ => [rev acc] end.
Proof.
  induction post as [|c post IH]; intros acc H; [reflexivity|].
  cbn [forallb] in H. apply andb_prop in H as [Hc Hp]. apply negb_true_iff in Hc.
  cbn [findall_runs]. rewrite Hc, (IH [] Hp). destruct acc; reflexivity.
Qed.

Lemma findall_runs_break (p : N -> bool) (s : pystr) : forall acc c rest,
  p c = false ->
  findall_runs p acc (s ++ c :: rest) = findall_runs p acc (s ++ [c]) ++ findall_runs p [] rest.
Proof.
  induction s as [|d s IH]; intros acc c rest Hc; cbn [app findall_runs].
  - rewrite Hc. destruct acc; reflexivity.
  - destruct (p d); [apply IH; assumption|].
    destruct acc; rewrite IH by assumption; reflexivity.
Qed.

Lemma findall_runs_final (p : N -> bool) (pre w post : pystr) :
  w <> [] -> forallb p w = true -> forallb (fun c => negb (p c)) post = true ->
  (forall c, last pre = Some c -> p c = false) ->
  last (findall_runs p [] (pre ++ w ++ post)) = Some w.
Proof.
  intros Hw Hp Hpost Hpre.
  assert (Hrun : findall_runs p [] (w ++ post) = [w]).
  { rewrite findall_runs_letters by assumption. rewrite app_nil_r.
    rewrite findall_runs_others by assumption.
    destruct (rev w) as [|x r] eqn:E.
    - exfalso. apply Hw. rewrite <- (rev_involutive w), E. reflexivity.
    - rewrite <- E, rev_involutive. reflexivity. }
  destruct pre as [|x pre'] using rev_ind.
  - cbn [app]. rewrite Hrun. reflexivity.
  - rewrite <- app_assoc. cbn [app].
    rewrite findall_runs_break by (apply Hpre, last_snoc).
    rewrite Hrun. apply last_snoc.
Qed.

Lemma findall_runs_none (p : N -> bool) (text : pystr) :
  forallb (fun c => negb (p c)) text = true -> findall_runs p [] text = [].
Proof. intros H. rewrite findall_runs_others by assumption. reflexivity. Qed.

Section Words.
Context {U : UnicodeData}.

(** X2. The last word of a line is its last maximal run of word letters
    (ASCII and Latin-1 letters, the apostrophe and the right single quote),
    in lower case: whatever follows the run holds no letter, and the
    character before it, if any, is no letter. A text without a letter has
    the empty last word. The two files compute it alike. *)
Theorem last_word_is_final_run (pre w post : pystr) :
  w <> [] -> forallb word_letter w = true ->
  forallb (fun c => negb (word_letter c)) post = true ->
  (forall c, last pre = Some c -> word_letter c = false) ->
  divina_full_pipeline.last_word (pre ++ w ++ post) = lower w
  /\ divina_pipeline.last_word (pre ++ w ++ post) = lower w
  /\ divina_full_pipeline.last_word post = []
  /\ divina_pipeline.last_word post = [].
Proof.
  intros Hw Hp Hpost Hpre.
  unfold divina_full_pipeline.last_word, divina_pipeline.last_word.
  rewrite (findall_runs_final word_letter pre w post Hw Hp Hpost Hpre).
  rewrite (findall_runs_none word_letter post Hpost). auto.
Qed.

End Words.

(** ** Cleaning a line *)

Lemma replace1_delete (c : N) (s : pystr) :
  replace1 c [] s = List.filter (fun x => negb (x =? c)%N) s.
Proof.
  induction s as [|a s IH]; [reflexivity|]. cbn [replace1 flat_map List.filter].
  fold (replace1 c [] s). rewrite IH. destruct (a =? c)%N; reflexivity.
Qed.

Lemma replace1_same (c : N) (s : pystr) : replace1 c [c] s = s.
Proof.
  induction s as [|a s IH]; [reflexivity|]. cbn [replace1 flat_map].
  fold (replace1 c [c] s). rewrite IH. destruct (N.eqb_spec a c); subst; reflexivity.
Qed.

Lemma lstrip_head (s : pystr) (c : N) (r : pystr) : lstrip s = c :: r -> is_space c = false.
Proof.
  induction s as [|a s IH]; cbn [lstrip]; [discriminate|].
  destruct (is_space a) eqn:E; [exact IH|]. intros H. injection H as -> _. exact E.
Qed.

Lemma lstrip_id (s : pystr) : (forall c, head s = Some c -> is_space c = false) -> lstrip s = s.
Proof.
  destruct s as [|a s]; [reflexivity|]. intros H. cbn [lstrip].
  rewrite (H a eq_refl). reflexivity.
Qed.

Lemma forallb_rev {A} (p : A -> bool) (l : list A) : forallb p l = true -> forallb p (rev l) = true.
Proof.
  rewrite !forallb_forall. intros H x Hx. apply H. rewrite in_rev. exact Hx.
Qed.

Lemma rstrip_prefix (s : pystr) :
  exists post, s = rstrip s ++ post /\ forallb is_space post = true.
Proof.
  unfold rstrip. destruct (lstrip_suffix (rev s)) as (pre & E & Hp).
  exists (rev pre). split; [|apply forallb_rev; exact Hp].
  rewrite <- rev_app_distr, <- E, rev_involutive. reflexivity.
Qed.

Lemma strip_split (s : pystr) :
  exists pre post, s = pre ++ strip s ++ post
    /\ forallb is_space pre = true /\ forallb is_space post = true.
Proof.
  destruct (lstrip_suffix s) as (pre & E & Hpre).
  destruct (rstrip_prefix (lstrip s)) as (post & E' & Hpost).
  exists pre, post. unfold strip. rewrite <- E'. auto.
Qed.

Lemma strip_head (s : pystr) (c : N) : head (strip s) = Some c -> is_space c = false.
Proof.
  unfold strip. destruct (rstrip_prefix (lstrip s)) as (post & E & _).
  destruct (rstrip (lstrip s)) as [|a r]; [discriminate|]. intros H. injection H as ->.
  apply (lstrip_head s c (r ++ post)). exact E.
Qed.

Lemma last_rev_head {A} (x : list A) : last (rev x) = head x.
Proof. destruct x as [|a x]; [reflexivity|]. cbn [rev]. apply last_snoc. Qed.

Lemma strip_last (s : pystr) (c : N) : last (strip s) = Some c -> is_space c = false.
Proof.
  unfold strip, rstrip. rewrite last_rev_head.
  destruct (lstrip (rev (lstrip s))) as [|a r] eqn:E; [discriminate|].
  intros H. injection H as ->. apply (lstrip_head _ _ _ E).
Qed.

Lemma strip_id (s : pystr) :
  (forall c, head s = Some c -> is_space c = false) ->
  (forall c, last s = Some c -> is_space c = false) ->
  strip s = s.
Proof.
  intros Hh Hl. unfold strip, rstrip. rewrite (lstrip_id s Hh).
  rewrite lstrip_id; [apply rev_involutive|].
  intros c Hc. apply Hl. rewrite <- Hc, <- last_rev_head, rev_involutive. reflexivity.
Qed.

Lemma clean_line_agree (line : pystr) :
  divina_full_pipeline.clean_line line = divina_pipeline.clean_line line.
Proof.
  unfold divina_full_pipeline.clean_line, divina_pipeline.clean_line.
  rewrite replace1_same. reflexivity.
Qed.

Lemma clean_line_no_soft_hyphen (line : pystr) : ~ In 173%N (divina_pipeline.clean_line line).
Proof.
  unfold divina_pipeline.clean_line. intros H. apply In_strip in H.
  rewrite replace1_delete in H. apply filter_In in H as [_ H]. discriminate.
Qed.

Lemma clean_line_idem (line : pystr) :
  divina_pipeline.clean_line (divina_pipeline.clean_line line) = divina_pipeline.clean_line line.
Proof.
  unfold divina_pipeline.clean_line at 1.
  rewrite replace1_absent by apply clean_line_no_soft_hyphen.
  unfold divina_pipeline.clean_line. apply strip_id; [apply strip_head|apply strip_last].
Qed.

(** X3. Cleaning a line removes every soft hyphen and then the whitespace at
    both ends, and nothing else: what is left of the line without its soft
    hyphens is whitespace, the cleaned line, whitespace. The cleaned line
    neither starts nor ends with whitespace, and cleaning it again changes
    nothing. The replacement of the right single quote by itself in
    [divina_full_pipeline.py] has no effect, so that the two files clean
    alike. *)
Theorem clean_line_trims (line : pystr) :
  divina_full_pipeline.clean_line line = divina_pipeline.clean_line line
  /\ (exists pre post,
        forallb is_space pre = true /\ forallb is_space post = true
        /\ List.filter (fun c => negb (c =? 173)%N) line
           = pre ++ divina_full_pipeline.clean_line line ++ post)
  /\ (forall c, head (divina_full_pipeline.clean_line line) = Some c -> is_space c = false)
  /\ (forall c, last (divina_full_pipeline.clean_line line) = Some c -> is_space c = false)
  /\ ~ In 173%N (divina_full_pipeline.clean_line line)
  /\ divina_full_pipeline.clean_line (divina_full_pipeline.clean_line line)
     = divina_full_pipeline.clean_line line.
Proof.
  rewrite !clean_line_agree. split; [reflexivity|]. split; [|split; [|split; [|split]]].
  - unfold divina_pipeline.clean_line. rewrite replace1_delete.
    destruct (strip_split (List.filter (fun c => negb (c =? 173)%N) line))
      as (pre & post & E & Hpre & Hpost).
    exists pre, post. auto.
  - intros c. apply strip_head.
  - intros c. apply strip_last.
  - apply clean_line_no_soft_hyphen.
  - apply clean_line_idem.
Qed.

(** ** The lines of the pages *)

Lemma filter_map_fixed {A} (p : A -> bool) (f : A -> A) (l : list A) :
  (forall x, In x l -> p x = true /\ f x = x) -> List.filter p (map f l) = l.
Proof.
  induction l as [|a l IH]; intros H; [reflexivity|]. cbn [map List.filter].
  destruct (H a (or_introl eq_refl)) as [Hp Hf]. rewrite Hf, Hp. f_equal.
  apply IH. intros x Hx. apply H. right. exact Hx.
Qed.

Lemma parse_pdf_line (pages : list (list pystr)) (page : list pystr) (line : pystr) :
  In page (divina_full_pipeline.parse_pdf pages) -> In line page ->
  nonempty line = true /\ divina_full_pipeline.clean_line line = line
  /\ exists raws raw, In raws pages /\ In raw raws
       /\ line = divina_full_pipeline.clean_line raw.
Proof.
  unfold divina_full_pipeline.parse_pdf. intros Hp Hl.
  apply in_map_iff in Hp as (raws & <- & Hraws).
  apply filter_In in Hl as [Hl Hne]. apply in_map_iff in Hl as (raw & <- & Hraw).
  split; [exact Hne|]. split.
  - rewrite !clean_line_agree. apply clean_line_idem.
  - exists raws, raw. auto.
Qed.

(** X4. Reading the pages keeps one list of lines per page, so that page
    indices stay those of the document; every line kept is the cleaned form
    of a line of that page, is not empty and is clean; every line that is
    not empty after cleaning is kept; and reading the result again changes
    nothing. *)
Theorem parse_pdf_pages (pages : list (list pystr)) :
  len (divina_full_pipeline.parse_pdf pages) = len pages
  /\ (forall (i : nat) page,
        divina_full_pipeline.parse_pdf pages !! i = Some page ->
        exists raws, pages !! i = Some raws
          /\ forall line, In line page ->
               line <> [] /\ divina_full_pipeline.clean_line line = line
               /\ exists raw, In raw raws /\ line = divina_full_pipeline.clean_line raw)
  /\ (forall (i : nat) raws,
        pages !! i = Some raws ->
        exists page, divina_full_pipeline.parse_pdf pages !! i = Some page
          /\ forall raw, In raw raws -> divina_full_pipeline.clean_line raw <> [] ->
               In (divina_full_pipeline.clean_line raw) page)
  /\ divina_full_pipeline.parse_pdf (divina_full_pipeline.parse_pdf pages)
     = divina_full_pipeline.parse_pdf pages.
Proof.
  split; [|split; [|split]].
  - unfold divina_full_pipeline.parse_pdf, len. rewrite length_map. reflexivity.
  - intros i page Hi. unfold divina_full_pipeline.parse_pdf in Hi.
    apply list_lookup_fmap_Some in Hi as (raws & -> & Hraws).
    exists raws. split; [exact Hraws|]. intros line Hl.
    apply filter_In in Hl as [Hl Hne]. apply in_map_iff in Hl as (raw & <- & Hraw).
    split; [apply nonempty_true; exact Hne|]. split; [|eauto].
    rewrite !clean_line_agree. apply clean_line_idem.
  - intros i raws Hi. unfold divina_full_pipeline.parse_pdf.
    exists (List.filter nonempty (map divina_full_pipeline.clean_line raws)). split.
    + rewrite list_lookup_fmap, Hi. reflexivity.
    + intros raw Hraw Hne. apply filter_In. split; [apply in_map; exact Hraw|].
      apply nonempty_true. exact Hne.
  - unfold divina_full_pipeline.parse_pdf at 1. rewrite <- (map_id (divina_full_pipeline.parse_pdf pages)) at 2.
    apply map_ext_in. intros page Hp. apply filter_map_fixed. intros line Hl.
    destruct (parse_pdf_line pages page line Hp Hl) as (Hne & Hc & _). auto.
Qed.

(** ** Numbered lines *)

Lemma numbered_snoc `{UnicodeData} (code : pystr) (canto : Z) (texts : list pystr) (t : pystr) :
  numbered code canto 1 (texts ++ [t])
  = numbered code canto 1 texts ++ [verse_record code canto (len texts + 1) t].
Proof.
  unfold numbered. rewrite imap_app. cbn [imap]. do 3 f_equal. unfold len. lia.
Qed.

Lemma numbered_length `{UnicodeData} (code : pystr) (canto first : Z) (texts : list pystr) :
  len (numbered code canto first texts) = len texts.
Proof. unfold numbered, len. rewrite length_imap. reflexivity. Qed.

Lemma numbered_lookup `{UnicodeData} (code : pystr) (canto first : Z) (texts : list pystr)
    (i : nat) (v : Verse.t) :
  numbered code canto first texts !! i = Some v ->
  exists t, texts !! i = Some t /\ v = verse_record code canto (first + Z.of_nat i) t.
Proof.
  unfold numbered. rewrite list_lookup_imap. destruct (texts !! i) as [t|]; [|discriminate].
  cbn. intros E. inversion E. eauto.
Qed.

(** ** One canto from a page range *)

Section PageRange.
Context {U : UnicodeData}.
Import divina_pipeline.

Lemma slice_pages {A} (pages : list A) (a b : Z) :
  1 <= a -> a <= b + 1 -> b <= len pages ->
  slice pages (a - 1) b = take (Z.to_nat (b - a + 1)) (drop (Z.to_nat (a - 1)) pages).
Proof.
  intros H1 H2 H3. replace b with ((a - 1) + (b - a + 1)) at 1 by lia.
  apply slice_take_drop; lia.
Qed.

Lemma extract_lines_ok (pages : list (list pystr)) (start_page end_page : Z) :
  1 <= start_page <= end_page -> end_page <= len pages ->
  extract_lines_from_pdf pages start_page end_page
  = Ok (flat_map page_verses
          (take (Z.to_nat (end_page - start_page + 1)) (drop (Z.to_nat (start_page - 1)) pages))).
Proof.
  intros H1 H2. unfold extract_lines_from_pdf.
  destruct (Z.ltb_spec start_page 1); [lia|].
  destruct (Z.gtb_spec end_page (len pages)); [lia|].
  destruct (Z.gtb_spec start_page end_page); [lia|].
  cbn [orb]. rewrite slice_pages by lia. reflexivity.
Qed.




(** X6. Page ranges add up: the lines of a range are the lines of its first
    part followed by the lines of the rest, for every page at which the
    range is cut. *)
Theorem extract_lines_adjacent (pages : list (list pystr)) (a b c : Z) :
  1 <= a <= b -> b < c <= len pages ->
  exists l1 l2,
    extract_lines_from_pdf pages a b = Ok l1
    /\ extract_lines_from_pdf pages (b + 1) c = Ok l2
    /\ extract_lines_from_pdf pages a c = Ok (l1 ++ l2).
Proof.
  intros H1 H2. do 2 eexists. split; [apply extract_lines_ok; lia|].
  split; [apply extract_lines_ok; lia|]. rewrite extract_lines_ok by lia. f_equal.
  rewrite <- flat_map_app. f_equal.
  replace (Z.to_nat (c - a + 1)) with (Z.to_nat (b - a + 1) + Z.to_nat (c - (b + 1) + 1))%nat
    by lia.
  rewrite <- take_take_drop. f_equal. rewrite drop_drop. do 2 f_equal. lia.
Qed.










End PageRange.

(** ** The number of blocks and what they cover *)

Lemma len_cons {A} (x : A) (l : list A) : len (x :: l) = 1 + len l.
Proof. unfold len. cbn [length]. lia. Qed.

Lemma window_starts_length (n size step : Z) (fuel : nat) : 1 <= step <= size -> forall i,
  0 <= i -> (Z.to_nat (n - i) < fuel)%nat ->
  len (window_starts fuel n size step i)
  = if i <? n then 1 + Z.max 0 ((n - i - size + step - 1) / step) else 0.
Proof.
  intros Hs. induction fuel as [|fuel IH]; intros i Hi Hf; [lia|].
  cbn [window_starts]. destruct (Z.ltb_spec i n) as [Hlt|Hge]; [|reflexivity].
  rewrite len_cons. destruct (Z.geb_spec (i + size) n) as [Hend|Hnot].
  - change (len (@nil Z)) with 0.
    assert ((n - i - size + step - 1) / step < 1)
      by (apply Z.div_lt_upper_bound; lia).
    lia.
  - rewrite IH by lia. destruct (Z.ltb_spec (i + step) n); [|lia].
    replace (n - i - size + step - 1) with ((n - i - size - 1) + 1 * step) by lia.
    rewrite Z.div_add by lia.
    replace (n - (i + step) - size + step - 1) with (n - i - size - 1) by lia.
    assert (0 <= (n - i - size - 1) / step) by (apply Z.div_pos; lia).
    lia.
Qed.

(** X9. The number of blocks, for a block size of at least 1 and an overlap
    of at least 0 (also one that is not below the block size, where the
    stride is 1): no block without verses; otherwise one block, and one
    more for every stride that the window takes until it reaches the end of
    the list. Without overlap this is the number of verses divided by the
    block size, rounded up. Both files give this number. *)
Theorem block_count (verses : list Verse.t) (size overlap : Z) :
  1 <= size -> 0 <= overlap ->
  (exists blocks,
     divina_full_pipeline.make_blocks verses size overlap = Ok blocks
     /\ len blocks = block_number (len verses) size (Z.max 1 (size - overlap)))
  /\ (exists blocks,
        divina_pipeline.build_recitation_blocks verses size overlap = Ok blocks
        /\ len blocks = block_number (len verses) size (Z.max 1 (size - overlap)))
  /\ (overlap = 0 ->
      block_number (len verses) size (Z.max 1 (size - overlap))
      = (len verses + size - 1) / size).
Proof.
  intros Hs Ho.
  assert (Hlen : len (window_starts (S (length verses)) (len verses) size
                        (Z.max 1 (size - overlap)) 0)
                 = block_number (len verses) size (Z.max 1 (size - overlap))).
  { rewrite window_starts_length by (unfold len; lia). unfold block_number.
    pose proof (len_nonneg verses).
    destruct (Z.ltb_spec 0 (len verses)), (Z.eqb_spec (len verses) 0); try lia.
    rewrite Z.sub_0_r. reflexivity. }
  split; [|split].
  - eexists. split; [apply full_make_blocks_eq; assumption|].
    unfold len in *. rewrite length_map. exact Hlen.
  - eexists. split; [apply single_make_blocks_eq; assumption|].
    unfold len in *. rewrite length_map. exact Hlen.
  - intros ->. unfold block_number. rewrite Z.sub_0_r, (Z.max_r 1 size) by lia.
    pose proof (len_nonneg verses).
    destruct (Z.eqb_spec (len verses) 0) as [->|Hn].
    + symmetry. apply Z.div_small. lia.
    + replace (len verses - size + size - 1) with (len verses - 1) by lia.
      replace (len verses + size - 1) with ((len verses - 1) + 1 * size) by lia.
      rewrite Z.div_add by lia.
      assert (0 <= (len verses - 1) / size) by (apply Z.div_pos; lia). lia.
Qed.

Lemma windows_cover {A} (l : list A) (size step o : Z) (fuel : nat) :
  1 <= step -> step + o = size -> 0 <= o -> forall i,
  0 <= i -> i + o <= len l -> (Z.to_nat (len l - i) < fuel)%nat ->
  concat (map (fun x => drop (Z.to_nat o) (slice l x (x + size)))
            (window_starts fuel (len l) size step i))
  = drop (Z.to_nat (i + o)) l.
Proof.
  intros Hstep Hsum Ho. induction fuel as [|fuel IH]; intros i Hi Hio Hf; [lia|].
  cbn [window_starts]. destruct (Z.ltb_spec i (len l)) as [Hlt|Hge].
  - destruct (Z.geb_spec (i + size) (len l)) as [Hend|Hnot].
    + cbn [map concat]. rewrite app_nil_r. rewrite slice_take_drop by lia.
      rewrite take_ge by (rewrite length_drop; unfold len in *; lia).
      rewrite drop_drop. f_equal. lia.
    + cbn [map concat]. rewrite IH by lia. rewrite slice_take_drop by lia.
      replace (Z.to_nat (i + step + o)) with (Z.to_nat i + Z.to_nat size)%nat by lia.
      rewrite <- drop_drop.
      rewrite drop_take_drop by lia. rewrite drop_drop. f_equal. lia.
  - cbn [map concat]. symmetry. apply drop_ge. unfold len in *. lia.
Qed.

Lemma imap_tail_cover {A B} (f g : A -> list B) (x : A) (l : list A) :
  concat (imap (fun k b => match k with O => f b | S _ => g b end) (x :: l))
  = f x ++ concat (map g l).
Proof.
  rewrite imap_cons. cbn [concat]. f_equal. f_equal.
  rewrite <- imap_const. apply imap_ext. reflexivity.
Qed.

Lemma fresh_refs_windows mk (verses : list Verse.t) (size overlap : Z) :
  0 <= overlap < size ->
  (forall a c ch, Block.versi (mk a c ch) = map Verse.urn ch) ->
  fresh_refs overlap
    (map (block_at mk verses size)
       (window_starts (S (length verses)) (len verses) size (Z.max 1 (size - overlap)) 0))
  = map Verse.urn verses.
Proof.
  intros Ho Hmk. rewrite Z.max_r by lia. unfold fresh_refs.
  cbn [window_starts]. destruct (Z.ltb_spec 0 (len verses)) as [Hlt|Hge].
  2:{ destruct verses; [reflexivity|]. unfold len in Hge. cbn in Hge. lia. }
  cbn [map]. rewrite imap_tail_cover. unfold block_at at 1. rewrite Hmk.
  rewrite map_map.
  rewrite (map_ext _ (fun x => map Verse.urn (drop (Z.to_nat overlap) (slice verses x (x + size)))))
    by (intros x; unfold block_at; rewrite Hmk; apply skipn_map).
  rewrite <- map_map with (g := map Verse.urn), <- concat_map, <- map_app. f_equal.
  rewrite (slice_take_drop verses 0 size) by lia. cbn [drop Z.to_nat].
  destruct (Z.geb_spec (0 + size) (len verses)) as [Hend|Hnot].
  - cbn [map concat]. rewrite app_nil_r. apply take_ge. unfold len in *. lia.
  - rewrite (windows_cover verses size (size - overlap) overlap) by (unfold len in *; lia).
    replace (Z.to_nat (0 + (size - overlap) + overlap)) with (Z.to_nat size) by lia.
    apply take_drop.
Qed.

Lemma shared_refs mk (verses : list Verse.t) (size overlap : Z) (k : nat) (b b' : Block.t) :
  0 <= overlap < size ->
  (forall a c ch, Block.versi (mk a c ch) = map Verse.urn ch) ->
  let blocks := map (block_at mk verses size)
                  (window_starts (S (length verses)) (len verses) size
                     (Z.max 1 (size - overlap)) 0) in
  blocks !! k = Some b -> blocks !! S k = Some b' ->
  len (Block.versi b) = size
  /\ take (Z.to_nat overlap) (Block.versi b')
     = drop (Z.to_nat (size - overlap)) (Block.versi b).
Proof.
  intros Ho Hmk blocks Hb Hb'. unfold blocks in *. rewrite Z.max_r in * by lia.
  destruct (window_starts_spec verses size (size - overlap) ltac:(lia)
              (S (length verses)) ltac:(lia) 0 ltac:(lia) ltac:(unfold len; lia)) as [_ Hj].
  apply list_lookup_fmap_Some in Hb as (x & -> & Hx).
  apply list_lookup_fmap_Some in Hb' as (x' & -> & Hx').
  destruct (Hj k x Hx) as (Ex & Hlt & Hlast).
  destruct (Hj (S k) x' Hx') as (Ex' & Hlt' & _).
  assert (Hk : (S k < length (window_starts (S (length verses)) (len verses) size
                               (size - overlap) 0))%nat)
    by (apply lookup_lt_Some in Hx'; exact Hx').
  assert (Hfull : x + size < len verses) by lia.
  assert (Hx0 : 0 <= x) by nia. assert (Hx0' : 0 <= x') by nia.
  assert (Hnext : x' = x + (size - overlap)) by nia.
  unfold block_at. rewrite !Hmk.
  rewrite (slice_take_drop verses x size), (slice_take_drop verses x' size) by lia.
  split.
  - unfold len in *. rewrite length_map, length_take, length_drop. lia.
  - rewrite <- !firstn_map, <- !skipn_map.
    change (@firstn) with (@take). change (@skipn) with (@drop).
    rewrite take_take, Nat.min_l by lia.
    replace (Z.to_nat x') with (Z.to_nat x + Z.to_nat (size - overlap))%nat by lia.
    rewrite <- drop_drop, take_drop_commute. do 2 f_equal. lia.
Qed.

(** X10. What the blocks cover, for an overlap from 0 to below the block
    size. The references of the first block, followed by those of every
    later block without its first [overlap] references, are the identifiers
    of all verses in order: no verse is left out and none comes twice apart
    from the overlap. Every block but the last holds [size] references, and
    the first [overlap] references of a block are the last ones of the
    block before it. Without overlap the blocks split the canto. Both files
    agree on this. *)
Theorem blocks_cover_verses (verses : list Verse.t) (size overlap : Z) :
  0 <= overlap < size ->
  (exists blocks,
     divina_full_pipeline.make_blocks verses size overlap = Ok blocks
     /\ fresh_refs overlap blocks = map Verse.urn verses
     /\ (overlap = 0 -> concat (map Block.versi blocks) = map Verse.urn verses)
     /\ forall (k : nat) b b', blocks !! k = Some b -> blocks !! S k = Some b' ->
          len (Block.versi b) = size
          /\ take (Z.to_nat overlap) (Block.versi b')
             = drop (Z.to_nat (size - overlap)) (Block.versi b))
  /\ (exists blocks,
        divina_pipeline.build_recitation_blocks verses size overlap = Ok blocks
        /\ fresh_refs overlap blocks = map Verse.urn verses
        /\ (overlap = 0 -> concat (map Block.versi blocks) = map Verse.urn verses)
        /\ forall (k : nat) b b', blocks !! k = Some b -> blocks !! S k = Some b' ->
             len (Block.versi b) = size
             /\ take (Z.to_nat overlap) (Block.versi b')
                = drop (Z.to_nat (size - overlap)) (Block.versi b)).
Proof.
  intros Ho.
  assert (Hplain : forall blocks, fresh_refs 0 blocks = concat (map Block.versi blocks)).
  { intros blocks. unfold fresh_refs. f_equal. rewrite <- imap_const. apply imap_ext.
    intros [|i] x _; reflexivity. }
  split.
  - eexists. split; [apply full_make_blocks_eq; lia|].
    split; [apply fresh_refs_windows; auto|]. split.
    + intros ->. rewrite <- Hplain. apply fresh_refs_windows; auto.
    + intros k b b'. apply (shared_refs block_full); auto.
  - eexists. split; [apply single_make_blocks_eq; lia|].
    split; [apply fresh_refs_windows; auto|]. split.
    + intros ->. rewrite <- Hplain. apply fresh_refs_windows; auto.
    + intros k b b'. apply (shared_refs block_single); auto.
Qed.

Lemma window_starts_lookup (n size step : Z) (fuel : nat) : forall i (j : nat) x,
  window_starts fuel n size step i !! j = Some x -> x = i + Z.of_nat j * step /\ x < n.
Proof.
  induction fuel as [|fuel IH]; intros i j x; cbn [window_starts]; [discriminate|].
  destruct (Z.ltb_spec i n) as [Hlt|Hge]; [|discriminate].
  destruct j as [|j]; cbn [lookup list_lookup].
  - intros E. inversion E; subst. lia.
  - destruct (i + size >=? n); [discriminate|]. intros E. apply IH in E. lia.
Qed.

Lemma window_starts_length_sparse (n size step : Z) (fuel : nat) :
  1 <= size <= step -> forall i,
  0 <= i -> (Z.to_nat (n - i) < fuel)%nat ->
  len (window_starts fuel n size step i)
  = if i <? n then (n - i + step - 1) / step else 0.
Proof.
  intros Hs. induction fuel as [|fuel IH]; intros i Hi Hf; [lia|].
  cbn [window_starts]. destruct (Z.ltb_spec i n) as [Hlt|Hge]; [|reflexivity].
  rewrite len_cons.
  assert (Hone : n - i <= step -> (n - i + step - 1) / step = 1).
  { intros H. replace (n - i + step - 1) with ((n - i - 1) + 1 * step) by lia.
    rewrite Z.div_add by lia. rewrite Z.div_small by lia. reflexivity. }
  destruct (Z.geb_spec (i + size) n) as [Hend|Hnot].
  - change (len (@nil Z)) with 0. rewrite Hone by lia. reflexivity.
  - rewrite IH by lia. destruct (Z.ltb_spec (i + step) n).
    + replace (n - i + step - 1) with ((n - (i + step) + step - 1) + 1 * step) by lia.
      rewrite Z.div_add by lia. lia.
    + rewrite Hone by lia. reflexivity.
Qed.

(** X11. A negative overlap. The stride, the block size minus the overlap,
    is then larger than the block size: the block at position [k] is the
    window of up to [size] verses that starts at index [k * stride], as
    long as this index lies in the list, so that the verses between the end
    of a window and the next stride are in no block; the number of blocks
    is the number of verses divided by the stride, rounded up. Both files
    agree on this. *)
Theorem blocks_with_gaps (verses : list Verse.t) (size overlap : Z) :
  1 <= size -> overlap < 0 ->
  (exists blocks,
     divina_full_pipeline.make_blocks verses size overlap = Ok blocks
     /\ len blocks = (len verses + (size - overlap) - 1) / (size - overlap)
     /\ forall (k : nat) b, blocks !! k = Some b ->
          Z.of_nat k * (size - overlap) < len verses
          /\ Block.versi b
             = map Verse.urn (slice verses (Z.of_nat k * (size - overlap))
                                (Z.of_nat k * (size - overlap) + size)))
  /\ (exists blocks,
        divina_pipeline.build_recitation_blocks verses size overlap = Ok blocks
        /\ len blocks = (len verses + (size - overlap) - 1) / (size - overlap)
        /\ forall (k : nat) b, blocks !! k = Some b ->
             Z.of_nat k * (size - overlap) < len verses
             /\ Block.versi b
                = map Verse.urn (slice verses (Z.of_nat k * (size - overlap))
                                   (Z.of_nat k * (size - overlap) + size))).
Proof.
  intros Hs Ho.
  assert (Hstep : Z.max 1 (size - overlap) = size - overlap) by lia.
  assert (Hlen : len (window_starts (S (length verses)) (len verses) size (size - overlap) 0)
                 = (len verses + (size - overlap) - 1) / (size - overlap)).
  { rewrite window_starts_length_sparse by (unfold len; lia).
    destruct (Z.ltb_spec 0 (len verses)) as [Hn|Hn].
    - rewrite Z.sub_0_r. reflexivity.
    - pose proof (len_nonneg verses). replace (len verses) with 0 by lia.
      symmetry. apply Z.div_small. lia. }
  assert (Hwin : forall mk,
            (forall a c ch, Block.versi (mk a c ch) = map Verse.urn ch) ->
            forall (k : nat) b,
              map (block_at mk verses size)
                (window_starts (S (length verses)) (len verses) size (size - overlap) 0) !! k
              = Some b ->
              Z.of_nat k * (size - overlap) < len verses
              /\ Block.versi b
                 = map Verse.urn (slice verses (Z.of_nat k * (size - overlap))
                                    (Z.of_nat k * (size - overlap) + size))).
  { intros mk Hmk k b Hb. apply list_lookup_fmap_Some in Hb as (x & -> & Hx).
    apply window_starts_lookup in Hx as [Ex Hx]. cbn [Z.add] in Ex. subst x.
    split; [exact Hx|]. unfold block_at. apply Hmk. }
  split.
  - eexists. split; [apply full_make_blocks_eq; assumption|]. rewrite Hstep.
    split; [unfold len in *; rewrite length_map; exact Hlen|]. apply Hwin. reflexivity.
  - eexists. split; [apply single_make_blocks_eq; assumption|]. rewrite Hstep.
    split; [unfold len in *; rewrite length_map; exact Hlen|]. apply Hwin. reflexivity.
Qed.

(** ** The steps of the segmenter *)

Lemma getitem_raise (d : list (pystr * pystr)) (key : pystr) (e : exn) :
  getitem d key = Raise e -> e = KeyError key.
Proof.
  induction d as [|[k v] d IH]; cbn [getitem]; [congruence|].
  destruct (decide _); [discriminate|exact IH].
Qed.

Lemma upper_keeps_dotted (g : pystr) : In 304%N g -> In 304%N (upper g).
Proof.
  intros H. unfold upper. apply in_map_iff. exists 304%N. split; [reflexivity|exact H].
Qed.

Lemma dotted_title_unknown (g : pystr) :
  In 304%N g ->
  getitem divina_full_pipeline.CANTICHE_TITLES (upper g) = Raise (KeyError (upper g)).
Proof.
  intros H. apply upper_keeps_dotted in H.
  unfold divina_full_pipeline.CANTICHE_TITLES. cbn [getitem].
  repeat (destruct (decide _) as [E|_];
          [exfalso; rewrite <- E in H; vm_compute in H; intuition discriminate|]).
  reflexivity.
Qed.

Lemma foldM_outcome {A S} (f : S -> A -> outcome S) (P : S -> Prop) (Q : A -> exn -> Prop) :
  (forall s x, P s -> match f s x with
                      | Ok s' => P s'
                      | Raise e => Q x e
                      | OutOfFuel => False
                      end) ->
  forall l s, P s ->
    match foldM f s l with
    | Ok s' => P s'
    | Raise e => exists x, In x l /\ Q x e
    | OutOfFuel => False
    end.
Proof.
  intros Hf. induction l as [|x l IH]; intros s Hs; cbn [foldM]; [assumption|].
  specialize (Hf s x Hs). destruct (f s x) as [s'|e|]; cbn [bind].
  - specialize (IH s' Hf). destruct (foldM f s' l); try assumption.
    destruct IH as (y & Hy & Hb). exists y. split; [right; assumption|assumption].
  - exists x. split; [left; reflexivity|assumption].
  - assumption.
Qed.

Section Steps.
Context {U : UnicodeData}.
Variables (pdf outdir : pystr) (block_size block_overlap : Z).
Import divina_full_pipeline.

Lemma index_aba_rhyme (m : Z) : exists c, index (str "aba") (m mod 3) = Ok c /\ [c] = rhyme_at m.
Proof.
  unfold rhyme_at. pose proof (Z.mod_pos_bound m 3 ltac:(lia)) as H.
  assert (E : m mod 3 = 0 \/ m mod 3 = 1 \/ m mod 3 = 2) by lia.
  destruct E as [-> | [-> | ->]]; eexists; split; reflexivity.
Qed.

Lemma add_verse_record (buf : CantoBuffer.t) (text code : pystr) :
  In (CantoBuffer.cantica buf, code) part_codes ->
  add_verse buf text
  = Ok (CantoBuffer.mk (CantoBuffer.cantica buf) (CantoBuffer.canto_num buf)
          (CantoBuffer.verses buf ++
           [verse_record code (CantoBuffer.canto_num buf) (len (CantoBuffer.verses buf) + 1)
              text])).
Proof.
  intros Hcode. unfold add_verse.
  rewrite (verse_urn_codes _ _ _ _ Hcode). cbn [bind].
  destruct (index_aba_rhyme (len (CantoBuffer.verses buf) + 1 - 1)) as (c & Hc & Hr).
  rewrite Hc. cbn [bind]. unfold verse_record. rewrite Hr. reflexivity.
Qed.

Lemma to_json_fields (buf : CantoBuffer.t) (pages_range : list Z) (d : Canto.t) :
  to_json buf pdf pages_range block_size block_overlap = Ok d ->
  Canto.cantica d = CantoBuffer.cantica buf
  /\ Canto.canto d = CantoBuffer.canto_num buf
  /\ Canto.source_pdf d = pdf
  /\ Canto.source_pages d = pages_range
  /\ Canto.versi d = CantoBuffer.verses buf
  /\ group_terzine (CantoBuffer.verses buf) = Ok (Canto.terzine d)
  /\ make_blocks (CantoBuffer.verses buf) block_size block_overlap
     = Ok (Canto.recitation_blocks d)
  /\ Canto.counts d
     = Counts.mk (len (Canto.versi d)) (len (Canto.terzine d)) (len (Canto.recitation_blocks d)).
Proof.
  unfold to_json.
  destruct (group_terzine (CantoBuffer.verses buf)) as [ts| |]; cbn [bind]; try discriminate.
  destruct (make_blocks (CantoBuffer.verses buf) block_size block_overlap) as [bs| |];
    cbn [bind]; try discriminate.
  intros E. inversion E. cbn. auto 10.
Qed.

(** The state after [close_canto] on an open canto, with the file that it
    writes. *)
Lemma close_canto_file (end_page_idx : Z) (st : State.t) (buf : CantoBuffer.t) :
  Inv st -> State.canto_buf st = Some buf ->
  exists code d,
    In (CantoBuffer.cantica buf, code) part_codes
    /\ to_json buf pdf [default 0 (State.canto_start_page st) + 1; end_page_idx + 1]
         block_size block_overlap = Ok d
    /\ close_canto pdf outdir block_size block_overlap end_page_idx st
       = Ok (State.mk
               (State.canti st ++
                [Entry.mk (Some (CantoBuffer.cantica buf)) (Some (CantoBuffer.canto_num buf))
                   (canto_file outdir code (CantoBuffer.canto_num buf)) (Canto.counts d)])
               (State.extra st)
               (State.written st ++ [(canto_file outdir code (CantoBuffer.canto_num buf), d)])
               (State.current_cantica st) None None None).
Proof.
  intros HI Hb. destruct (inv_buf st HI buf Hb) as (Hc & Hn & _ & _).
  destruct (inv_part st HI _ Hc) as (code & Hcode).
  assert (Hstart : match State.canto_start_page st with
                   | Some p => if p =? 0 then 0 else p
                   | None => 0
                   end = default 0 (State.canto_start_page st)).
  { destruct (State.canto_start_page st) as [p|]; [|reflexivity].
    cbn. destruct (Z.eqb_spec p 0); congruence. }
  destruct (to_json_ok pdf block_size block_overlap buf
              [default 0 (State.canto_start_page st) + 1; end_page_idx + 1])
    as (terzine & blocks & Hj & _).
  exists code. eexists. split; [exact Hcode|]. split; [exact Hj|].
  unfold close_canto. rewrite Hb, Hstart, Hj, Hc. cbn [bind].
  rewrite (short_cantica_codes _ _ Hcode). cbn [bind]. rewrite Hn. reflexivity.
Qed.

Lemma close_canto_inv2 (end_page_idx : Z) (st : State.t) :
  Inv st -> Inv2 pdf outdir block_size block_overlap st ->
  exists st', close_canto pdf outdir block_size block_overlap end_page_idx st = Ok st'
    /\ Inv2 pdf outdir block_size block_overlap st'.
Proof.
  intros HI H2. destruct (State.canto_buf st) as [buf|] eqn:Hb.
  2:{ exists st. unfold close_canto. rewrite Hb. auto. }
  destruct (close_canto_file end_page_idx st buf HI Hb) as (code & d & Hcode & Hj & Hclose).
  eexists. split; [exact Hclose|].
  destruct (to_json_fields buf _ d Hj) as (Fc & Fn & _ & Fp & Fv & _).
  destruct (inv_open _ _ _ _ st H2 buf Hb) as [Hbuilt _].
  constructor; cbn [State.written State.canto_buf State.extra].
  - apply Forall_app. split; [apply (inv_files _ _ _ _ st H2)|].
    constructor; [|constructor]. unfold file_ok. cbn [fst snd].
    rewrite Fc, Fn, Fv, Fp. split; [eauto|]. split; [exact Hbuilt|].
    destruct buf. exact Hj.
  - discriminate.
  - apply (inv_keys _ _ _ _ st H2).
Qed.

Lemma process_line_inv2 (page_idx : Z) (st : State.t) (line : pystr) :
  Inv st -> Inv2 pdf outdir block_size block_overlap st ->
  forall st', process_line pdf outdir block_size block_overlap page_idx st line = Ok st' ->
  Inv2 pdf outdir block_size block_overlap st'.
Proof.
  intros HI H2 st'. unfold process_line.
  destruct (re_match true CANTICA_HEADER_RE line) as [m|] eqn:Hm.
  - destruct (close_canto_inv pdf outdir block_size block_overlap (page_idx - 1) st HI)
      as (st1 & Hclose & HI1 & Hb1 & _).
    destruct (close_canto_inv2 (page_idx - 1) st HI H2) as (st1' & Hclose' & H21).
    rewrite Hclose in Hclose'. inversion Hclose'; subst st1'. rewrite Hclose. cbn [bind].
    destruct m as [g|]; cbn [bind]; [|discriminate].
    destruct (getitem CANTICHE_TITLES (upper g)) as [name| |]; cbn [bind]; try discriminate.
    intros E. inversion E; subst st'. constructor; cbn.
    + apply (inv_files _ _ _ _ st1 H21).
    + intros buf Hb. rewrite Hb1 in Hb. discriminate.
    + apply (inv_keys _ _ _ _ st1 H21).
  - destruct (is_canto_header line).
    + destruct (State.current_cantica st) as [p|] eqn:Hp.
      2:{ intros E. inversion E; subst st'. exact H2. }
      destruct (close_canto_inv pdf outdir block_size block_overlap (page_idx - 1) st HI)
        as (st1 & Hclose & HI1 & Hb1 & Hc1 & _).
      destruct (close_canto_inv2 (page_idx - 1) st HI H2) as (st1' & Hclose' & H21).
      rewrite Hclose in Hclose'. inversion Hclose'; subst st1'. rewrite Hclose. cbn [bind].
      rewrite Hp in Hc1. destruct (inv_part st1 HI1 p Hc1) as (code & Hcode).
      intros E. inversion E; subst st'. constructor; cbn.
      * apply (inv_files _ _ _ _ st1 H21).
      * intros buf Hb. inversion Hb; subst buf. cbn. split; [|eauto].
        exists code, []. split; [exact Hcode|]. split; [reflexivity|constructor].
      * intros k n. fold (key_of p). destruct (decide (k = key_of p)) as [->|Hk].
        -- eauto.
        -- rewrite lookup_insert_ne by (intros E'; apply Hk; symmetry; exact E').
           apply (inv_keys _ _ _ _ st1 H21).
    + destruct (State.canto_buf st) as [buf|] eqn:Hb.
      2:{ intros E. inversion E; subst st'. exact H2. }
      destruct (is_probable_verse line) eqn:Hv.
      2:{ intros E. inversion E; subst st'. exact H2. }
      destruct (inv_open _ _ _ _ st H2 buf Hb) as [(code & texts & Hcode & Hvs & Htexts) Hpage].
      rewrite (add_verse_record buf line code Hcode). cbn [bind].
      intros E. inversion E; subst st'. constructor; cbn.
      * apply (inv_files _ _ _ _ st H2).
      * intros b Eb. inversion Eb; subst b. cbn. split; [|exact Hpage].
        exists code, (texts ++ [line]). split; [exact Hcode|]. split.
        -- rewrite numbered_snoc, Hvs, numbered_length. reflexivity.
        -- apply Forall_app. split; [exact Htexts|]. constructor; [exact Hv|constructor].
      * apply (inv_keys _ _ _ _ st H2).
Qed.

Lemma Inv2_initial : Inv2 pdf outdir block_size block_overlap initial.
Proof.
  constructor; cbn.
  - constructor.
  - discriminate.
  - intros k n H. rewrite lookup_empty in H. discriminate.
Qed.

(** What a line does to a state that satisfies the invariants: it gives a
    state that satisfies them, or the line is a part title spelled with
    U+0130 and the lookup of the title raises. *)
Lemma process_line_outcome (page_idx : Z) (st : State.t) (line : pystr) :
  Inv st /\ Inv2 pdf outdir block_size block_overlap st ->
  match process_line pdf outdir block_size block_overlap page_idx st line with
  | Ok st' => Inv st' /\ Inv2 pdf outdir block_size block_overlap st'
  | Raise e => exists g, dotted_part_title line g /\ e = KeyError (upper g)
  | OutOfFuel => False
  end.
Proof.
  intros [HI H2].
  pose proof (process_line_inv pdf outdir block_size block_overlap page_idx st line HI) as H.
  pose proof (process_line_inv2 page_idx st line HI H2) as H'.
  destruct (process_line pdf outdir block_size block_overlap page_idx st line)
    as [st'|e|] eqn:E; [auto|clear H H'|exact H].
  unfold process_line in E.
  destruct (re_match true CANTICA_HEADER_RE line) as [m|] eqn:Hm.
  - destruct (close_canto_inv pdf outdir block_size block_overlap (page_idx - 1) st HI)
      as (st1 & Hclose & _).
    rewrite Hclose in E. cbn [bind] in E.
    pose proof (cantica_header_match line m Hm) as (title & Ht & Hp & ->).
    cbn [bind] in E. set (g := take (length title) (lstrip line)) in *.
    exists g.
    assert (Hu : upper g = title \/ In 304%N g).
    { apply prefix_upper; [|assumption].
      destruct Ht as [<-|[<-|[<-|[]]]]; vm_compute; reflexivity. }
    destruct Hu as [Hu|Hin].
    + exfalso. rewrite Hu in E.
      destruct Ht as [<-|[<-|[<-|[]]]]; vm_compute in E; discriminate.
    + rewrite (dotted_title_unknown g Hin) in E. cbn [bind] in E. inversion E.
      split; [split; [exact Hm|exact Hin]|reflexivity].
  - exfalso. destruct (is_canto_header line).
    + destruct (State.current_cantica st) as [p|]; [|discriminate].
      destruct (close_canto_inv pdf outdir block_size block_overlap (page_idx - 1) st HI)
        as (st1 & Hclose & _).
      rewrite Hclose in E. discriminate.
    + destruct (State.canto_buf st) as [buf|] eqn:Hb; [|discriminate].
      destruct (is_probable_verse line); [|discriminate].
      destruct (inv_buf st HI buf Hb) as (Hc & _).
      destruct (inv_part st HI _ Hc) as (code & Hcode).
      rewrite (add_verse_record buf line code Hcode) in E. discriminate.
Qed.

Lemma process_page_outcome (st : State.t) (page : Z * list pystr) :
  Inv st /\ Inv2 pdf outdir block_size block_overlap st ->
  match process_page pdf outdir block_size block_overlap st page with
  | Ok st' => Inv st' /\ Inv2 pdf outdir block_size block_overlap st'
  | Raise e => exists line g, In line page.2 /\ dotted_part_title line g /\ e = KeyError (upper g)
  | OutOfFuel => False
  end.
Proof.
  intros HJ. unfold process_page.
  pose proof (foldM_outcome (process_line pdf outdir block_size block_overlap page.1)
                (fun s => Inv s /\ Inv2 pdf outdir block_size block_overlap s)
                (fun line e => exists g, dotted_part_title line g /\ e = KeyError (upper g))
                (fun s x => process_line_outcome page.1 s x) page.2 st HJ) as H.
  destruct (foldM _ st page.2); try assumption.
  destruct H as (line & Hl & g & Hg & ->). eauto.
Qed.

(** The state before the last [close_canto] of a run. *)
Lemma run_loop_outcome (pages_lines : list (list pystr)) :
  match foldM (process_page pdf outdir block_size block_overlap) initial
          (enumerate pages_lines) with
  | Ok st => Inv st /\ Inv2 pdf outdir block_size block_overlap st
  | Raise e => exists page line g,
      In page pages_lines /\ In line page /\ dotted_part_title line g /\ e = KeyError (upper g)
  | OutOfFuel => False
  end.
Proof.
  pose proof (foldM_outcome (process_page pdf outdir block_size block_overlap)
                (fun s => Inv s /\ Inv2 pdf outdir block_size block_overlap s)
                (fun page e => exists line g,
                   In line page.2 /\ dotted_part_title line g /\ e = KeyError (upper g))
                process_page_outcome (enumerate pages_lines) initial
                (conj Inv_initial Inv2_initial)) as H.
  destruct (foldM _ initial (enumerate pages_lines)); try assumption.
  destruct H as ([i page] & Hin & line & g & Hl & Hg & ->).
  exists page, line, g. split; [apply (In_enumerate _ _ _ Hin)|auto].
Qed.

(** A run that returns, taken apart: the state when the pages are read,
    the state after the last canto is closed, and the result. *)
Lemma run_lines_Ok (pages_lines : list (list pystr)) (r : Run.t) :
  run_lines pdf outdir block_size block_overlap pages_lines = Ok r ->
  exists st st',
    foldM (process_page pdf outdir block_size block_overlap) initial (enumerate pages_lines)
    = Ok st
    /\ close_canto pdf outdir block_size block_overlap (len pages_lines - 1) st = Ok st'
    /\ Inv st /\ Inv2 pdf outdir block_size block_overlap st
    /\ Inv st' /\ Inv2 pdf outdir block_size block_overlap st'
    /\ State.canto_buf st' = None
    /\ r = Run.mk (State.written st') pdf outdir (State.canti st')
             (filter (fun kv => startswith kv.1 (str "__last_canto_") = false) (State.extra st'))
             (path_join outdir (str "manifest.json")) (len (State.canti st')).
Proof.
  unfold run_lines. pose proof (run_loop_outcome pages_lines) as H.
  destruct (foldM _ initial (enumerate pages_lines)) as [st| |]; cbn [bind]; try discriminate.
  destruct H as [HI H2].
  destruct (close_canto_inv pdf outdir block_size block_overlap (len pages_lines - 1) st HI)
    as (st' & Hclose & HI' & Hb' & _).
  destruct (close_canto_inv2 (len pages_lines - 1) st HI H2) as (st'' & Hclose' & H2').
  rewrite Hclose in Hclose'. inversion Hclose'; subst st''.
  rewrite Hclose. cbn [bind]. intros E. inversion E.
  exists st, st'. auto 10.
Qed.

End Steps.

(** ** The files and the manifest of a run *)

Lemma startswith_app (p s : pystr) : startswith (p ++ s) p = true.
Proof.
  induction p as [|x p IH]; [destruct s; reflexivity|]. cbn [app startswith].
  rewrite N.eqb_refl. exact IH.
Qed.

Lemma path_join_inj (a b1 b2 : pystr) : path_join a b1 = path_join a b2 -> b1 = b2.
Proof.
  unfold path_join. destruct (last a) as [c|]; [|auto].
  destruct (c =? 47)%N; intros H; apply app_inv_head in H; [exact H|].
  apply app_inv_head in H. exact H.
Qed.

Lemma canto_file_inj (outdir p1 p2 code1 code2 : pystr) (c1 c2 : Z) :
  In (p1, code1) part_codes -> In (p2, code2) part_codes -> 0 <= c1 -> 0 <= c2 ->
  canto_file outdir code1 c1 = canto_file outdir code2 c2 -> p1 = p2 /\ c1 = c2.
Proof.
  intros H1 H2 Hc1 Hc2 E. unfold canto_file in E. apply path_join_inj in E.
  assert (Hcode : code1 = code2).
  { destruct H1 as [H1|[H1|[H1|[]]]]; inversion H1; subst;
      destruct H2 as [H2|[H2|[H2|[]]]]; inversion H2; subst;
      first [reflexivity | exfalso; vm_compute in E; discriminate
            | exfalso; change (str "purg") with ([112; 117]%N ++ str "rg") in E;
              change (str "par") with ([112; 97]%N ++ str "r") in E;
              cbn [app] in E; discriminate]. }
  subst code2. split; [apply (part_codes_inj p1 p2 code1); assumption|].
  apply app_inv_head in E. apply app_inv_head in E. apply app_inv_tail in E.
  apply (format_0d_inj 2); assumption.
Qed.

Lemma upto_NoDup (k : Z) : NoDup (upto k).
Proof.
  unfold upto. apply (NoDup_fmap_2 Z.of_nat). apply NoDup_seq.
Qed.

Lemma paths_NoDup (outdir : pystr) (fds : list (pystr * Canto.t)) :
  (forall fd, In fd fds ->
     exists code, In (Canto.cantica fd.2, code) part_codes
       /\ fd.1 = canto_file outdir code (Canto.canto fd.2) /\ 0 <= Canto.canto fd.2) ->
  (forall p, NoDup (cantos_of p (map snd fds))) ->
  NoDup (map fst fds).
Proof.
  induction fds as [|fd fds IH]; intros Hfd Hnd; [constructor|].
  cbn [map]. apply NoDup_cons. split.
  - intros Hin. apply list_elem_of_In, in_map_iff in Hin as (fd' & Epath & Hfd').
    destruct (Hfd fd (or_introl eq_refl)) as (code & Hcode & Ef & Hc).
    destruct (Hfd fd' (or_intror Hfd')) as (code' & Hcode' & Ef' & Hc').
    rewrite Ef, Ef' in Epath.
    destruct (canto_file_inj _ _ _ _ _ _ _ Hcode' Hcode Hc' Hc Epath) as [Ep Ec].
    specialize (Hnd (Canto.cantica fd.2)). unfold cantos_of in Hnd.
    cbn [map List.filter] in Hnd. rewrite bool_decide_eq_true_2 in Hnd by reflexivity.
    cbn [map] in Hnd. apply NoDup_cons in Hnd as [Hnot _]. apply Hnot.
    apply list_elem_of_In. rewrite <- Ec.
    apply (cantos_of_In (Canto.cantica fd.2) (map snd fds) fd'.2); [|exact Ep].
    apply in_map. exact Hfd'.
  - apply IH.
    + intros fd' Hfd'. apply Hfd. right. exact Hfd'.
    + intros p. specialize (Hnd p). unfold cantos_of in *. cbn [map List.filter] in Hnd.
      destruct (bool_decide _); [|exact Hnd].
      cbn [map] in Hnd. apply NoDup_cons in Hnd as [_ Hnd]. exact Hnd.
Qed.

Lemma In_enumerate_intro {A} (l : list A) (x : A) : In x l -> exists i, In (i, x) (enumerate l).
Proof.
  unfold enumerate. generalize 0%nat.
  induction l as [|a l IH]; intros s []; cbn [length seq map combine].
  - subst a. eexists. left. reflexivity.
  - destruct (IH (S s) H) as (i & Hi). exists i. right. exact Hi.
Qed.

Lemma foldM_hits {A S} (f : S -> A -> outcome S) (P : S -> Prop) (x : A) :
  (forall s y, P s -> match f s y with
                      | Ok s' => P s'
                      | Raise _ => True
                      | OutOfFuel => False
                      end) ->
  (forall s, P s -> exists e, f s x = Raise e) ->
  forall l s, In x l -> P s -> exists e, foldM f s l = Raise e.
Proof.
  intros Hf Hx. induction l as [|y l IH]; intros s [] Hs; cbn [foldM].
  - subst y. destruct (Hx s Hs) as (e & ->). eauto.
  - specialize (Hf s y Hs). destruct (f s y) as [s'|e|]; cbn [bind]; [|eauto|contradiction].
    apply IH; assumption.
Qed.

Section RunFiles.
Context {U : UnicodeData}.
Variables (pdf outdir : pystr) (block_size block_overlap : Z).
Import divina_full_pipeline.

Lemma run_files_ok (pages : list (list pystr)) (r : Run.t) :
  run_pipeline pdf outdir block_size block_overlap pages = Ok r ->
  Forall (file_ok pdf outdir block_size block_overlap) (Run.files r)
  /\ (forall p, exists k, 0 <= k /\ cantos_of p (map snd (Run.files r)) = upto k)
  /\ Run.manifest_extra r = ∅.
Proof.
  unfold run_pipeline. intros Hr.
  apply run_lines_Ok in Hr as (st & st' & _ & _ & _ & _ & HI' & H2' & Hb' & ->).
  cbn [Run.files Run.manifest_extra]. split; [apply (inv_files _ _ _ _ st' H2')|]. split.
  - intros p. exists (closed_count st' p). split; [apply (inv_count st' HI')|].
    apply (inv_cantos st' HI').
  - apply map_empty. intros k. apply map_lookup_filter_None_2.
    destruct (State.extra st' !! k) as [n|] eqn:Ek; [right|left; reflexivity].
    intros x _ Hx. cbn in Hx. destruct (inv_keys _ _ _ _ st' H2' k n Ek) as (p & ->).
    unfold key_of in Hx. rewrite startswith_app in Hx. discriminate.
Qed.

(** X12. The verses of a run. In every canto file the verse at position
    [i], counted from 0, has the number [i + 1] and the identifier of this
    number in its canto; its last word and its markup are those of its
    text; its rhyme letter is b when [i] leaves 1 on division by 3 and a
    otherwise; and its text is a line that the verse test accepts. *)
Theorem run_verse_records (pages : list (list pystr)) (r : Run.t) :
  run_pipeline pdf outdir block_size block_overlap pages = Ok r ->
  forall f d, In (f, d) (Run.files r) ->
    exists code, In (Canto.cantica d, code) part_codes
      /\ forall (i : nat) v, Canto.versi d !! i = Some v ->
           Verse.number v = Z.of_nat i + 1
           /\ Verse.urn v = urn_text code (Canto.canto d) (Z.of_nat i + 1)
           /\ Verse.last_word v = last_word (Verse.text_original v)
           /\ Verse.ssml v = ssml_for_verso (Verse.text_original v)
           /\ Verse.rhyme_letter v = rhyme_at (Z.of_nat i)
           /\ is_probable_verse (Verse.text_original v) = true.
Proof.
  intros Hr f d Hd. destruct (run_files_ok pages r Hr) as (Hfiles & _).
  rewrite List.Forall_forall in Hfiles. specialize (Hfiles (f, d) Hd).
  destruct Hfiles as (_ & (code & texts & Hcode & Hvs & Htexts) & _). cbn [snd] in *.
  exists code. split; [exact Hcode|]. intros i v Hv. rewrite Hvs in Hv.
  apply numbered_lookup in Hv as (t & Ht & ->). unfold verse_record. cbn.
  replace (1 + Z.of_nat i - 1) with (Z.of_nat i) by lia.
  replace (1 + Z.of_nat i) with (Z.of_nat i + 1) by lia.
  repeat split. rewrite List.Forall_forall in Htexts. apply Htexts.
  apply list_elem_of_In, list_elem_of_lookup. eauto.
Qed.

(** X13. The canto files of a run. Every file lies in the output directory
    under the short code of its part, an underscore and its canto number on
    2 digits; its source is the document of the run; its stanzas and its
    blocks are those that the stanza grouper and the block builder give for
    its verses with the block size and overlap of the run; and its counts
    are the numbers of its verses, of its stanzas, which is a third of the
    verses rounded down, and of its blocks. *)
Theorem run_files_derived (pages : list (list pystr)) (r : Run.t) :
  run_pipeline pdf outdir block_size block_overlap pages = Ok r ->
  forall f d, In (f, d) (Run.files r) ->
    (exists code, In (Canto.cantica d, code) part_codes
       /\ f = path_join outdir (code ++ str "_" ++ format_0d 2 (Canto.canto d) ++ str ".json"))
    /\ Canto.source_pdf d = pdf
    /\ group_terzine (Canto.versi d) = Ok (Canto.terzine d)
    /\ make_blocks (Canto.versi d) block_size block_overlap = Ok (Canto.recitation_blocks d)
    /\ Canto.counts d
       = Counts.mk (len (Canto.versi d)) (len (Canto.versi d) / 3)
           (len (Canto.recitation_blocks d))
    /\ len (Canto.terzine d) = len (Canto.versi d) / 3.
Proof.
  intros Hr f d Hd. destruct (run_files_ok pages r Hr) as (Hfiles & _).
  rewrite List.Forall_forall in Hfiles. specialize (Hfiles (f, d) Hd).
  destruct Hfiles as (Hpath & _ & Hj). cbn [fst snd] in *.
  apply to_json_fields in Hj as (_ & _ & Hpdf & _ & _ & Ht & Hb & Hc).
  cbn [CantoBuffer.verses] in *.
  assert (Hlen : len (Canto.terzine d) = len (Canto.versi d) / 3).
  { rewrite full_group_terzine_eq in Ht. inversion Ht as [Et].
    rewrite terzine_of_chunks. unfold len at 1. rewrite length_map.
    apply chunks3_length. }
  split; [exact Hpath|]. split; [exact Hpdf|]. split; [exact Ht|]. split; [exact Hb|].
  split; [|exact Hlen]. rewrite Hc, Hlen. reflexivity.
Qed.

(** X14. No file of a run is written twice: the paths of the canto files
    are pairwise distinct, so that no canto overwrites another. *)
Theorem run_paths_distinct (pages : list (list pystr)) (r : Run.t) :
  run_pipeline pdf outdir block_size block_overlap pages = Ok r ->
  NoDup (map fst (Run.files r)).
Proof.
  intros Hr. destruct (run_files_ok pages r Hr) as (Hfiles & Hcantos & _).
  rewrite List.Forall_forall in Hfiles. apply (paths_NoDup outdir).
  - intros fd Hfd. destruct (Hfiles fd Hfd) as ((code & Hcode & Ef) & _).
    exists code. split; [exact Hcode|]. split; [exact Ef|].
    destruct (Hcantos (Canto.cantica fd.2)) as (k & _ & Hk).
    assert (Hin : In (Canto.canto fd.2) (upto k)).
    { rewrite <- Hk. apply (cantos_of_In _ _ fd.2); [apply in_map; exact Hfd|reflexivity]. }
    apply upto_In in Hin. lia.
  - intros p. destruct (Hcantos p) as (k & _ & ->). apply upto_NoDup.
Qed.

(** X15. The manifest of a run. The canto counters that the loop keeps in
    the manifest under the keys [__last_canto_<part>] are all removed
    before the manifest is written; what is written names the document and
    the output directory and lists one entry per canto file, in the order
    of the files and with their paths; the run returns the path of the
    manifest in the output directory and the number of files. *)
Theorem manifest_written (pages : list (list pystr)) (r : Run.t) :
  run_pipeline pdf outdir block_size block_overlap pages = Ok r ->
  Run.manifest_extra r = ∅
  /\ Run.manifest_pdf r = pdf /\ Run.manifest_outdir r = outdir
  /\ map Entry.file (Run.manifest_canti r) = map fst (Run.files r)
  /\ map Entry.counts (Run.manifest_canti r) = map (fun fd => Canto.counts fd.2) (Run.files r)
  /\ Run.manifest_path r = path_join outdir (str "manifest.json")
  /\ Run.count_canti r = len (Run.files r).
Proof.
  intros Hr. destruct (run_files_ok pages r Hr) as (_ & _ & Hextra).
  split; [exact Hextra|].
  unfold run_pipeline in Hr.
  apply run_lines_Ok in Hr as (st & st' & _ & _ & _ & _ & HI' & _ & _ & ->).
  cbn [Run.manifest_pdf Run.manifest_outdir Run.manifest_canti Run.files Run.manifest_path
         Run.count_canti].
  pose proof (inv_manifest st' HI') as Hm.
  split; [reflexivity|]. split; [reflexivity|]. split; [|split; [|split; [reflexivity|]]].
  - apply (f_equal (map (fun v : option pystr * option Z * pystr * Counts.t => v.1.2))) in Hm.
    rewrite !map_map in Hm. exact Hm.
  - apply (f_equal (map (fun v : option pystr * option Z * pystr * Counts.t => v.2))) in Hm.
    rewrite !map_map in Hm. exact Hm.
  - apply (f_equal (@length _)) in Hm. rewrite !length_map in Hm. unfold len. rewrite Hm.
    reflexivity.
Qed.

End RunFiles.

(** ** The identifiers of stanzas and blocks *)

Lemma numbered_cons `{UnicodeData} (code : pystr) (canto first : Z) (t : pystr)
    (texts : list pystr) :
  numbered code canto first (t :: texts)
  = verse_record code canto first t :: numbered code canto (first + 1) texts.
Proof.
  unfold numbered. rewrite imap_cons. rewrite Z.add_0_r. f_equal.
  apply imap_ext. intros i x _. cbn. f_equal. lia.
Qed.

Lemma numbered_drop `{UnicodeData} (code : pystr) (canto : Z) (k : nat) : forall first texts,
  drop k (numbered code canto first texts)
  = numbered code canto (first + Z.of_nat k) (drop k texts).
Proof.
  induction k as [|k IH]; intros first texts.
  - cbn [drop]. rewrite Z.add_0_r. reflexivity.
  - destruct texts as [|t texts]; [reflexivity|]. rewrite numbered_cons. cbn [drop].
    rewrite IH. f_equal. lia.
Qed.

Lemma numbered_take `{UnicodeData} (code : pystr) (canto : Z) (k : nat) : forall first texts,
  take k (numbered code canto first texts) = numbered code canto first (take k texts).
Proof.
  induction k as [|k IH]; intros first texts; [reflexivity|].
  destruct texts as [|t texts]; [reflexivity|]. rewrite numbered_cons. cbn [take].
  rewrite IH, numbered_cons. reflexivity.
Qed.

Lemma numbered_urns `{UnicodeData} (code : pystr) (canto : Z) (texts : list pystr) :
  forall first,
  map Verse.urn (numbered code canto first texts)
  = map (fun j => urn_text code canto (first + Z.of_nat j)) (seq 0 (length texts)).
Proof.
  induction texts as [|t texts IH]; intros first; [reflexivity|].
  rewrite numbered_cons. cbn [map length seq]. rewrite Z.add_0_r. f_equal.
  rewrite IH, <- seq_shift, map_map. apply map_ext. intros j. f_equal. lia.
Qed.

Lemma last_any_default {A} (l : list A) (d d' : A) : l <> [] -> List.last l d = List.last l d'.
Proof.
  intros Hne. destruct (exists_last Hne) as (l' & x & ->). rewrite !last_last. reflexivity.
Qed.

Lemma numbered_last `{UnicodeData} (code : pystr) (canto : Z) (texts : list pystr) :
  forall first, texts <> [] ->
  Verse.number (List.last (numbered code canto first texts) no_verse)
  = first + len texts - 1.
Proof.
  induction texts as [|t texts IH]; intros first Hne; [congruence|].
  rewrite numbered_cons, last_cons_default, len_cons. destruct texts as [|t' texts].
  - cbn. unfold len. cbn. lia.
  - rewrite (last_any_default _ _ no_verse) by (rewrite numbered_cons; discriminate).
    rewrite IH by discriminate. lia.
Qed.

Lemma numbered_hd `{UnicodeData} (code : pystr) (canto : Z) (texts : list pystr) (first : Z) :
  texts <> [] ->
  Verse.number (hd no_verse (numbered code canto first texts)) = first
  /\ Verse.urn (hd no_verse (numbered code canto first texts)) = urn_text code canto first.
Proof.
  destruct texts as [|t texts]; [congruence|]. intros _. rewrite numbered_cons. auto.
Qed.

Lemma numbered_texts `{UnicodeData} (code : pystr) (canto : Z) (texts : list pystr) :
  forall first, map Verse.text_original (numbered code canto first texts) = texts.
Proof.
  induction texts as [|t texts IH]; intros first; [reflexivity|].
  rewrite numbered_cons. cbn [map]. rewrite IH. reflexivity.
Qed.

Lemma urn_text_prefix (code : pystr) (canto n : Z) :
  0 <= n <= 999 ->
  slice (urn_text code canto n) 0 (-3) = code ++ str "." ++ format_0d 2 canto ++ str ".".
Proof.
  intros Hn. unfold urn_text.
  replace (code ++ str "." ++ format_0d 2 canto ++ str "." ++ format_0d 3 n)
    with ((code ++ str "." ++ format_0d 2 canto ++ str ".") ++ format_0d 3 n)
    by (rewrite <- !app_assoc; reflexivity).
  apply slice_drop_last3. apply format_0d_3_shape. lia.
Qed.

Lemma group_urn (code : pystr) (canto n m : Z) :
  0 <= n <= 999 ->
  slice (urn_text code canto n) 0 (-3) ++ format_0d 3 n ++ str "-" ++ format_0d 3 m
  = urn_text code canto n ++ str "-" ++ format_0d 3 m.
Proof.
  intros Hn. rewrite urn_text_prefix by assumption. unfold urn_text.
  rewrite <- !app_assoc. reflexivity.
Qed.

Lemma terzine_numbered `{UnicodeData} (code : pystr) (canto : Z) (texts : list pystr) :
  forall first (k : nat) t,
  0 <= first -> first + len texts - 1 <= 999 ->
  terzine_of terzina_full (numbered code canto first texts) !! k = Some t ->
  t = Terzina.mk
        (urn_text code canto (first + 3 * Z.of_nat k) ++ str "-"
         ++ format_0d 3 (first + 3 * Z.of_nat k + 2))
        (first + 3 * Z.of_nat k) (first + 3 * Z.of_nat k + 2) (str "aba")
        [urn_text code canto (first + 3 * Z.of_nat k);
         urn_text code canto (first + 3 * Z.of_nat k + 1);
         urn_text code canto (first + 3 * Z.of_nat k + 2)].
Proof.
  induction texts as [| | |a b c texts IH] using list_ind3; intros first k t H0 Hn;
    try (rewrite ?numbered_cons; cbn [terzine_of]; discriminate).
  rewrite !numbered_cons. cbn [terzine_of]. rewrite !len_cons in Hn.
  pose proof (len_nonneg texts). destruct k as [|k].
  - cbn [lookup list_lookup]. intros E. inversion E. unfold terzina_full. cbn.
    rewrite group_urn by lia. rewrite !Z.add_0_r.
    replace (first + 1 + 1) with (first + 2) by lia. reflexivity.
  - cbn [lookup list_lookup]. intros E.
    replace (first + 1 + 1 + 1) with (first + 3) in E by lia.
    apply IH in E; [|lia|lia].
    replace (first + 3 + 3 * Z.of_nat k) with (first + 3 * Z.of_nat (S k)) in E by lia.
    exact E.
Qed.

Section GroupIdentifiers.
Context {U : UnicodeData}.
Variables (pdf outdir : pystr) (block_size block_overlap : Z).
Import divina_full_pipeline.

Lemma block_numbered (code : pystr) (canto : Z) (texts : list pystr) (size x : Z) :
  1 <= size -> 0 <= x < len texts -> len texts <= 999 ->
  let final := Z.min (len texts) (x + size) in
  block_at block_full (numbered code canto 1 texts) size x
  = Block.mk (urn_text code canto (x + 1) ++ str "-" ++ format_0d 3 final)
      (x + 1) final
      (map (fun j => urn_text code canto (x + 1 + Z.of_nat j)) (seq 0 (Z.to_nat (final - x))))
      (ssml_block (take (Z.to_nat size) (drop (Z.to_nat x) texts))).
Proof.
  intros Hs Hx Hn final. unfold block_at.
  rewrite slice_take_drop by (rewrite ?numbered_length; lia).
  rewrite numbered_drop, numbered_take.
  replace (1 + Z.of_nat (Z.to_nat x)) with (x + 1) by lia.
  set (chunk := take (Z.to_nat size) (drop (Z.to_nat x) texts)).
  assert (Hlen : len chunk = final - x).
  { unfold chunk, final, len in *. rewrite length_take, length_drop. lia. }
  assert (Hne : chunk <> []).
  { intros E. rewrite E in Hlen. unfold final, len in *. cbn [length] in Hlen. lia. }
  unfold block_full.
  destruct (numbered_hd code canto chunk (x + 1) Hne) as [Hnum Hurn].
  rewrite Hnum, Hurn, numbered_last by assumption. rewrite numbered_urns, numbered_texts.
  rewrite group_urn by lia. rewrite Hlen.
  replace (x + 1 + (final - x) - 1) with final by lia.
  replace (length chunk) with (Z.to_nat (final - x)) by (unfold len in Hlen; lia).
  reflexivity.
Qed.

(** X16. The identifiers of stanzas and blocks in a run, for a canto of
    at most 999 verses. The stanza at position [k], counted from 0, covers
    the verses 3k+1 to 3k+3: its identifier is that of verse 3k+1 followed
    by a hyphen and 3k+3 on 3 digits, and it refers to these three verses.
    For a block size of at least 1 and an overlap of at least 0, the block
    at position [k] starts at verse [k * stride + 1] and ends at the verse
    [block_size - 1] further on, or at the last verse of the canto if that
    comes first; its identifier is that of its first verse followed by a
    hyphen and the number of its last verse on 3 digits, and it refers to
    the verses from the first to the last. *)
Theorem run_group_identifiers (pages : list (list pystr)) (r : Run.t) :
  run_pipeline pdf outdir block_size block_overlap pages = Ok r ->
  forall f d, In (f, d) (Run.files r) -> len (Canto.versi d) <= 999 ->
    exists code, In (Canto.cantica d, code) part_codes
      /\ (forall (k : nat) t, Canto.terzine d !! k = Some t ->
            t = Terzina.mk
                  (urn_text code (Canto.canto d) (3 * Z.of_nat k + 1) ++ str "-"
                   ++ format_0d 3 (3 * Z.of_nat k + 3))
                  (3 * Z.of_nat k + 1) (3 * Z.of_nat k + 3) (str "aba")
                  [urn_text code (Canto.canto d) (3 * Z.of_nat k + 1);
                   urn_text code (Canto.canto d) (3 * Z.of_nat k + 2);
                   urn_text code (Canto.canto d) (3 * Z.of_nat k + 3)])
      /\ (1 <= block_size -> 0 <= block_overlap ->
          forall (k : nat) b, Canto.recitation_blocks d !! k = Some b ->
            let first := Z.of_nat k * Z.max 1 (block_size - block_overlap) + 1 in
            let final := Z.min (len (Canto.versi d)) (first - 1 + block_size) in
            first <= final
            /\ Block.urn b = urn_text code (Canto.canto d) first ++ str "-" ++ format_0d 3 final
            /\ Block.start_verso b = first
            /\ Block.end_verso b = final
            /\ Block.versi b
               = map (fun j => urn_text code (Canto.canto d) (first + Z.of_nat j))
                   (seq 0 (Z.to_nat (final - first + 1)))).
Proof.
  intros Hr f d Hd Hn. destruct (run_files_ok pdf outdir block_size block_overlap pages r Hr)
    as (Hfiles & _).
  rewrite List.Forall_forall in Hfiles. specialize (Hfiles (f, d) Hd).
  destruct Hfiles as (_ & (code & texts & Hcode & Hvs & _) & Hj). cbn [fst snd] in *.
  apply (to_json_fields pdf block_size block_overlap) in Hj as (_ & _ & _ & _ & _ & Ht & Hb & _).
  cbn [CantoBuffer.verses] in *.
  rewrite Hvs, numbered_length in Hn.
  exists code. split; [exact Hcode|]. split.
  - intros k t Hk. rewrite full_group_terzine_eq in Ht. inversion Ht as [Et].
    rewrite <- Et, Hvs in Hk. apply terzine_numbered in Hk; [|lia|lia].
    replace (1 + 3 * Z.of_nat k + 1) with (3 * Z.of_nat k + 2) in Hk by lia.
    replace (1 + 3 * Z.of_nat k + 2) with (3 * Z.of_nat k + 3) in Hk by lia.
    replace (1 + 3 * Z.of_nat k) with (3 * Z.of_nat k + 1) in Hk by lia.
    exact Hk.
  - intros Hs Ho k b Hk.
    set (first := Z.of_nat k * Z.max 1 (block_size - block_overlap) + 1).
    set (final := Z.min (len (Canto.versi d)) (first - 1 + block_size)).
    rewrite full_make_blocks_eq in Hb by assumption. inversion Hb as [Eb].
    rewrite <- Eb in Hk. apply list_lookup_fmap_Some in Hk as (x & -> & Hx).
    destruct (window_starts_spec (Canto.versi d) block_size
                (Z.max 1 (block_size - block_overlap)) ltac:(lia)
                (S (length (Canto.versi d))) ltac:(lia) 0 ltac:(lia) ltac:(unfold len; lia))
      as [_ Hj].
    destruct (Hj k x Hx) as (Ex & Hlt & _).
    assert (Hx0 : 0 <= x) by nia.
    assert (Ef : first = x + 1) by (unfold first; lia).
    rewrite Hvs, numbered_length in Hlt.
    assert (Efin : final = Z.min (len texts) (x + block_size)).
    { unfold final. rewrite Hvs, numbered_length. f_equal. lia. }
    clearbody first final. subst first final. rewrite Hvs.
    rewrite block_numbered by lia. cbn [Block.urn Block.start_verso Block.end_verso Block.versi].
    split; [lia|]. split; [reflexivity|]. split; [reflexivity|]. split; [reflexivity|].
    do 2 f_equal. lia.
Qed.

End GroupIdentifiers.

(** ** The segmentation as a function of the lines *)

Section Segmentation.
Context {U : UnicodeData}.
Variables (pdf outdir : pystr) (block_size block_overlap : Z).
Import divina_full_pipeline.

Lemma close_canto_segment (end_page_idx : Z) (st st' : State.t) :
  Inv st -> close_canto pdf outdir block_size block_overlap end_page_idx st = Ok st' ->
  map file_segment (State.written st')
  = map file_segment (State.written st) ++ close_segment (open_of st) end_page_idx
  /\ State.canto_buf st' = None
  /\ State.current_cantica st' = State.current_cantica st.
Proof.
  intros HI Hclose. unfold open_of. destruct (State.canto_buf st) as [buf|] eqn:Hb.
  - destruct (close_canto_file pdf outdir block_size block_overlap end_page_idx st buf HI Hb)
      as (code & d & _ & Hj & Hclose').
    rewrite Hclose in Hclose'. inversion Hclose'; subst st'.
    cbn [State.written State.canto_buf State.current_cantica].
    apply (to_json_fields pdf block_size block_overlap) in Hj
      as (_ & _ & _ & Hp & Hv & _).
    rewrite map_app. cbn [map close_segment]. split; [|auto]. f_equal.
    unfold file_segment. cbn [snd]. rewrite Hp, Hv. reflexivity.
  - unfold close_canto in Hclose. rewrite Hb in Hclose. inversion Hclose; subst st'.
    cbn [close_segment]. rewrite app_nil_r. auto.
Qed.

Lemma process_line_segments (page_idx : Z) (st st' : State.t) (line : pystr) :
  Inv st -> Inv2 pdf outdir block_size block_overlap st ->
  process_line pdf outdir block_size block_overlap page_idx st line = Ok st' ->
  forall last_page rest,
    map file_segment (State.written st')
    ++ segments (part_of st') (open_of st') last_page rest
    = map file_segment (State.written st)
      ++ segments (part_of st) (open_of st) last_page ((page_idx, line) :: rest).
Proof.
  intros HI H2 Hstep last_page rest. cbn [segments]. unfold is_cantica_header, matches.
  unfold process_line in Hstep.
  destruct (re_match true CANTICA_HEADER_RE line) as [m|] eqn:Hm.
  - destruct (close_canto pdf outdir block_size block_overlap (page_idx - 1) st)
      as [st1| |] eqn:Hclose; cbn [bind] in Hstep; try discriminate.
    destruct (close_canto_segment _ _ _ HI Hclose) as (Hw & Hb1 & _).
    destruct m as [g|]; cbn [bind] in Hstep; [|discriminate].
    destruct (getitem CANTICHE_TITLES (upper g)) as [name| |]; cbn [bind] in Hstep;
      try discriminate.
    inversion Hstep; subst st'. unfold part_of, open_of. cbn.
    rewrite Hb1, Hw, <- app_assoc. reflexivity.
  - destruct (is_canto_header line).
    + unfold part_of at 2. destruct (State.current_cantica st) as [p|] eqn:Hp.
      2:{ inversion Hstep; subst st'. reflexivity. }
      destruct (close_canto pdf outdir block_size block_overlap (page_idx - 1) st)
        as [st1| |] eqn:Hclose; cbn [bind] in Hstep; try discriminate.
      destruct (close_canto_segment _ _ _ HI Hclose) as (Hw & Hb1 & Hc1).
      inversion Hstep; subst st'. unfold part_of, open_of. cbn.
      rewrite Hc1, Hp, Hw, <- app_assoc. reflexivity.
    + unfold open_of at 2. destruct (State.canto_buf st) as [buf|] eqn:Hb.
      2:{ inversion Hstep; subst st'. unfold open_of. rewrite Hb. reflexivity. }
      destruct (is_probable_verse line).
      2:{ inversion Hstep; subst st'. unfold open_of. rewrite Hb. reflexivity. }
      destruct (inv_buf st HI buf Hb) as (Hc & _).
      destruct (inv_part st HI _ Hc) as (code & Hcode).
      rewrite (add_verse_record buf line code Hcode) in Hstep. cbn [bind] in Hstep.
      inversion Hstep; subst st'. unfold part_of, open_of. cbn.
      rewrite map_app. reflexivity.
Qed.

Lemma process_lines_segments (page_idx : Z) (lines : list pystr) : forall st st',
  Inv st -> Inv2 pdf outdir block_size block_overlap st ->
  foldM (process_line pdf outdir block_size block_overlap page_idx) st lines = Ok st' ->
  Inv st' /\ Inv2 pdf outdir block_size block_overlap st'
  /\ forall last_page rest,
       map file_segment (State.written st')
       ++ segments (part_of st') (open_of st') last_page rest
       = map file_segment (State.written st)
         ++ segments (part_of st) (open_of st) last_page (map (pair page_idx) lines ++ rest).
Proof.
  induction lines as [|line lines IH]; intros st st' HI H2; cbn [foldM].
  - intros E. inversion E; subst st'. auto.
  - pose proof (process_line_outcome pdf outdir block_size block_overlap page_idx st line
                  (conj HI H2)) as Hout.
    destruct (process_line pdf outdir block_size block_overlap page_idx st line)
      as [st1| |] eqn:Hstep; cbn [bind]; try discriminate.
    destruct Hout as [HI1 H21]. intros Hrest.
    destruct (IH st1 st' HI1 H21 Hrest) as (HI' & H2' & Hseg).
    split; [exact HI'|]. split; [exact H2'|]. intros last_page rest.
    rewrite Hseg. cbn [map app].
    apply (process_line_segments page_idx st st1 line HI H2 Hstep).
Qed.

Lemma process_pages_segments (pages_lines : list (Z * list pystr)) : forall st st',
  Inv st -> Inv2 pdf outdir block_size block_overlap st ->
  foldM (process_page pdf outdir block_size block_overlap) st pages_lines = Ok st' ->
  Inv st'
  /\ forall last_page rest,
       map file_segment (State.written st')
       ++ segments (part_of st') (open_of st') last_page rest
       = map file_segment (State.written st)
         ++ segments (part_of st) (open_of st) last_page
              (flat_map (fun page : Z * list pystr => map (pair page.1) page.2) pages_lines
               ++ rest).
Proof.
  induction pages_lines as [|page pages_lines IH]; intros st st' HI H2; cbn [foldM].
  - intros E. inversion E; subst st'. auto.
  - unfold process_page at 1.
    destruct (foldM (process_line pdf outdir block_size block_overlap page.1) st page.2)
      as [st1| |] eqn:Hpage; cbn [bind]; try discriminate.
    destruct (process_lines_segments _ _ _ _ HI H2 Hpage) as (HI1 & H21 & Hseg1).
    intros Hrest. destruct (IH st1 st' HI1 H21 Hrest) as (HI' & Hseg).
    split; [exact HI'|]. intros last_page rest.
    rewrite Hseg, Hseg1. cbn [flat_map]. rewrite <- app_assoc. reflexivity.
Qed.

Lemma run_segments (pages_lines : list (list pystr)) (r : Run.t) :
  run_lines pdf outdir block_size block_overlap pages_lines = Ok r ->
  map file_segment (Run.files r)
  = segments false None (len pages_lines - 1) (stream pages_lines).
Proof.
  intros Hr. apply run_lines_Ok in Hr as (st & st' & Hloop & Hclose & HI & _ & _ & _ & _ & ->).
  cbn [Run.files].
  destruct (process_pages_segments _ _ _ Inv_initial (Inv2_initial _ _ _ _) Hloop)
    as (_ & Hseg).
  specialize (Hseg (len pages_lines - 1) []). rewrite app_nil_r in Hseg.
  destruct (close_canto_segment _ _ _ HI Hclose) as (Hw & _). rewrite Hw.
  cbn [segments] in Hseg. exact Hseg.
Qed.

Lemma stream_lines (pages_lines : list (list pystr)) :
  map snd (stream pages_lines) = concat pages_lines.
Proof.
  unfold stream, enumerate. generalize 0%nat.
  induction pages_lines as [|page pages_lines IH]; intros s; [reflexivity|].
  cbn [length seq map combine flat_map concat]. rewrite map_app, IH. f_equal.
  cbn [fst snd]. rewrite map_map. cbn [snd]. apply map_id.
Qed.

Lemma cantica_header_not_canto (line : pystr) :
  is_cantica_header line = true -> is_canto_header line = false.
Proof.
  intros H. destruct (is_canto_header line) eqn:E; [|reflexivity].
  apply canto_not_cantica_header in E. unfold is_cantica_header, matches in H.
  rewrite E in H. discriminate.
Qed.

Lemma segments_length (last_page : Z) (lines : list (Z * pystr)) : forall part cur,
  len (segments part cur last_page lines)
  = (match cur with Some _ => 1 | None => 0 end)
    + len (List.filter is_canto_header
             (if part then map snd lines else after_part_title (map snd lines))).
Proof.
  assert (Hclose : forall cur e,
            len (close_segment cur e) = match cur with Some _ => 1 | None => 0 end)
    by (intros [[s t]|] e; reflexivity).
  induction lines as [|[page_idx line] lines IH]; intros part cur.
  - cbn [segments map after_part_title List.filter]. rewrite Hclose.
    destruct part, cur as [[s t]|]; reflexivity.
  - cbn [segments map snd after_part_title].
    destruct (is_cantica_header line) eqn:Hc.
    + rewrite len_app, Hclose, IH. destruct part; cbn [List.filter];
        rewrite ?(cantica_header_not_canto line Hc); destruct cur as [[s t]|]; lia.
    + destruct (is_canto_header line) eqn:Hh.
      * destruct part.
        -- rewrite len_app, Hclose, IH. cbn [List.filter]. rewrite Hh, len_cons.
           destruct cur as [[s t]|]; lia.
        -- rewrite IH. reflexivity.
      * destruct cur as [[s t]|]; [destruct (is_probable_verse line)|];
          rewrite IH; destruct part; cbn [List.filter]; rewrite ?Hh; reflexivity.
Qed.

(** X17. What a run keeps of the document. The canto files of a run, taken
    as page range and verse texts, are the cantos of the stream of cleaned
    lines: a part title closes the open canto; a canto heading after a
    part title closes the open canto and opens the next one, and is
    ignored before the first part title; every other line becomes the next
    verse of the open canto if the verse test accepts it, and is dropped if
    it does not or if no canto is open; the end of the document closes the
    open canto. A canto runs from the page of its heading to the page
    before the line that closes it, or to the last page. *)
Theorem run_follows_segments (pages : list (list pystr)) (r : Run.t) :
  run_pipeline pdf outdir block_size block_overlap pages = Ok r ->
  map file_segment (Run.files r)
  = segments false None (len pages - 1) (stream (parse_pdf pages)).
Proof.
  unfold run_pipeline. intros Hr. rewrite (run_segments _ _ Hr). f_equal.
  unfold parse_pdf, len. rewrite length_map. reflexivity.
Qed.

(** X18. The number of cantos of a run is the number of canto headings
    among the cleaned lines that follow the first part title: a heading
    before any part title opens no canto, and every later heading opens
    one, with or without verses. *)
Theorem run_canto_count (pages : list (list pystr)) (r : Run.t) :
  run_pipeline pdf outdir block_size block_overlap pages = Ok r ->
  Run.count_canti r
  = len (List.filter is_canto_header (after_part_title (concat (parse_pdf pages))))
  /\ len (Run.files r) = Run.count_canti r.
Proof.
  intros Hr. unfold run_pipeline in Hr. pose proof (run_segments _ _ Hr) as Hseg.
  assert (Hcount : Run.count_canti r = len (Run.files r)).
  { apply run_lines_Ok in Hr as (st & st' & _ & _ & _ & _ & HI' & _ & _ & ->).
    cbn [Run.count_canti Run.files]. pose proof (inv_manifest st' HI') as Hm.
    apply (f_equal (@length _)) in Hm. rewrite !length_map in Hm. unfold len. rewrite Hm.
    reflexivity. }
  split; [|symmetry; exact Hcount]. rewrite Hcount.
  apply (f_equal (@length _)) in Hseg. rewrite length_map in Hseg. unfold len at 1.
  rewrite Hseg. fold (len (segments false None (len (parse_pdf pages) - 1)
                             (stream (parse_pdf pages)))).
  rewrite segments_length, stream_lines. lia.
Qed.

End Segmentation.


(** ** What the patterns match *)

Lemma star_run_complete {A} (ic : bool) (cl : cclass) (k : pystr -> option A) (pre : pystr) :
  forall suf, forallb (class_match ic cl) pre = true -> k suf <> None ->
  star_run ic cl k (pre ++ suf) <> None.
Proof.
  induction pre as [|c pre IH]; intros suf Hpre Hk.
  - cbn [app]. destruct suf as [|c s']; [exact Hk|]. cbn [star_run].
    destruct (class_match ic cl c); [|exact Hk].
    destruct (star_run ic cl k s'); [discriminate|exact Hk].
  - cbn [forallb] in Hpre. apply andb_prop in Hpre as [Hc Hpre].
    cbn [app star_run]. rewrite Hc.
    specialize (IH suf Hpre Hk). destruct (star_run ic cl k (pre ++ suf)); [discriminate|].
    congruence.
Qed.

(** The matcher finds a match only where the pattern has one... *)
Lemma run_sound {A} (ic : bool) (r : regex) : forall s g (k : pystr -> option pystr -> option A) a,
  run ic r s g k = Some a ->
  exists pre suf g', s = pre ++ suf /\ lang ic r pre suf /\ k suf g' = Some a.
Proof.
  induction r as [|x|cl|r1 IH1 r2 IH2|r1 IH1 r2 IH2|cl|r IH|]; intros s g k a H;
    cbn [run] in H.
  - exists [], s, g. cbn [lang app]. auto.
  - destruct s as [|c s']; [discriminate|]. destruct (lit_match ic x c) eqn:E; [|discriminate].
    exists [c], s', g. cbn [lang app]. eauto.
  - destruct s as [|c s']; [discriminate|].
    destruct (class_match ic cl c) eqn:E; [|discriminate].
    exists [c], s', g. cbn [lang app]. eauto.
  - apply IH1 in H as (p1 & s1 & g1 & -> & H1 & H).
    apply IH2 in H as (p2 & suf & g2 & -> & H2 & H).
    exists (p1 ++ p2), suf, g2. rewrite <- app_assoc. split; [reflexivity|].
    split; [|exact H]. cbn [lang]. eauto.
  - apply orelse_Some in H as [H|H]; [apply IH1 in H|apply IH2 in H];
      destruct H as (pre & suf & g' & -> & Hl & H); exists pre, suf, g'; cbn [lang]; auto.
  - apply star_run_Some in H as (pre & suf & -> & Hpre & H). exists pre, suf, g.
    cbn [lang]. auto.
  - apply IH in H as (pre & suf & g' & -> & Hl & H). exists pre, suf.
    eexists. cbn [lang]. eauto.
  - destruct (at_eol s) eqn:E; [|discriminate]. exists [], s, g. cbn [lang app]. auto.
Qed.

(** ... and finds one wherever the pattern has one. *)
Lemma run_complete {A} (ic : bool) (r : regex) :
  forall pre suf g (k : pystr -> option pystr -> option A),
  lang ic r pre suf -> (forall g', k suf g' <> None) ->
  run ic r (pre ++ suf) g k <> None.
Proof.
  induction r as [|x|cl|r1 IH1 r2 IH2|r1 IH1 r2 IH2|cl|r IH|]; intros pre suf g k Hl Hk;
    cbn [lang] in Hl; cbn [run].
  - subst pre. apply Hk.
  - destruct Hl as (c & -> & Hc). cbn [app]. rewrite Hc. apply Hk.
  - destruct Hl as (c & -> & Hc). cbn [app]. rewrite Hc. apply Hk.
  - destruct Hl as (p1 & p2 & -> & H1 & H2). rewrite <- app_assoc.
    apply IH1; [exact H1|]. intros g'. apply IH2; assumption.
  - destruct Hl as [Hl|Hl].
    + specialize (IH1 pre suf g k Hl Hk). destruct (run ic r1 (pre ++ suf) g k);
        [discriminate|congruence].
    + specialize (IH2 pre suf g k Hl Hk). destruct (run ic r1 (pre ++ suf) g k);
        [discriminate|exact IH2].
  - apply star_run_complete; [exact Hl|apply Hk].
  - apply IH; [exact Hl|]. intros g'. apply Hk.
  - destruct Hl as [-> Hl]. cbn [app]. rewrite Hl. apply Hk.
Qed.

Lemma matches_lang (ic : bool) (r : regex) (s : pystr) :
  matches ic r s = true <-> exists pre suf, s = pre ++ suf /\ lang ic r pre suf.
Proof.
  unfold matches, re_match. split.
  - destruct (run ic r s None (fun _ g => Some g)) as [a|] eqn:E; [|discriminate].
    intros _. apply run_sound in E as (pre & suf & g' & -> & Hl & _). eauto.
  - intros (pre & suf & -> & Hl).
    pose proof (run_complete ic r pre suf None (fun _ g => Some g) Hl
                  ltac:(intros g'; discriminate)) as H.
    destruct (run ic r (pre ++ suf) None (fun _ g => Some g)); [reflexivity|congruence].
Qed.

Lemma lang_seqs_cons (ic : bool) (r : regex) (rs : list regex) (pre suf : pystr) :
  lang ic (seqs (r :: rs)) pre suf
  <-> exists p1 p2, pre = p1 ++ p2 /\ lang ic r p1 (p2 ++ suf) /\ lang ic (seqs rs) p2 suf.
Proof. reflexivity. Qed.

Lemma lang_lits (ic : bool) (xs : pystr) : forall pre suf,
  lang ic (lits xs) pre suf <-> spells ic xs pre.
Proof.
  unfold spells. induction xs as [|x xs IH]; intros pre suf.
  - cbn. split; [intros ->; constructor|intros H; inversion H; reflexivity].
  - change (lits (x :: xs)) with (Seq (Lit x) (lits xs)). cbn [lang]. split.
    + intros (p1 & p2 & -> & (c & -> & Hc) & H2). constructor; [exact Hc|].
      apply (IH p2 suf). exact H2.
    + intros H. inversion H as [|x' c xs' t Hc Ht]; subst.
      exists [c], t. split; [reflexivity|]. split; [eauto|]. apply IH. exact Ht.
Qed.

Lemma lang_plus (ic : bool) (cl : cclass) (pre suf : pystr) :
  lang ic (Plus cl) pre suf <-> pre <> [] /\ forallb (class_match ic cl) pre = true.
Proof.
  unfold Plus. cbn [lang]. split.
  - intros (p1 & p2 & -> & (c & -> & Hc) & H2). split; [discriminate|].
    cbn. rewrite Hc, H2. reflexivity.
  - intros [Hne H]. destruct pre as [|c pre]; [congruence|]. cbn in H.
    apply andb_prop in H as [Hc H]. exists [c], pre. eauto.
Qed.

Lemma spells_exact (xs t : pystr) : spells false xs t <-> t = xs.
Proof.
  unfold spells. split.
  - induction 1 as [|x c xs t Hc _ IH]; [reflexivity|]. cbn in Hc. apply N.eqb_eq in Hc.
    congruence.
  - intros ->. induction xs as [|x xs IH]; constructor; [apply N.eqb_refl|exact IH].
Qed.

Lemma at_eol_space (suf : pystr) : at_eol suf = true -> forallb is_space suf = true.
Proof.
  destruct suf as [|c [|d suf]]; cbn; try discriminate; [reflexivity|].
  intros H. apply N.eqb_eq in H. subst c. reflexivity.
Qed.

Section Shapes.
Context {U : UnicodeData}.
Import divina_full_pipeline.

(** X19. The lines that are canto headings: optional whitespace, the word
    CANTO in capitals, whitespace, a word of capital letters (A to Z and
    the accented capitals of the ordinal words), optionally whitespace and
    a second such word, and optional whitespace to the end. Case matters,
    and digits or a third word make the line no heading. *)
Theorem canto_heading_shape (line : pystr) :
  is_canto_header line = true
  <-> exists sp0 sp1 w1 tail sp2,
        line = sp0 ++ str "CANTO" ++ sp1 ++ w1 ++ tail ++ sp2
        /\ forallb is_space sp0 = true /\ blank sp1 /\ ordinal_word w1
        /\ (tail = [] \/ exists sp w2, tail = sp ++ w2 /\ blank sp /\ ordinal_word w2)
        /\ forallb is_space sp2 = true.
Proof.
  unfold is_canto_header. rewrite matches_lang. unfold CANTO_HEADER_RE, blank, ordinal_word.
  split.
  - intros (pre & suf & -> & H).
    apply lang_seqs_cons in H as (sp0 & p & -> & H0 & H).
    apply lang_seqs_cons in H as (canto & p' & -> & Hc & H).
    apply lang_lits, spells_exact in Hc. subst canto.
    apply lang_seqs_cons in H as (sp1 & p & -> & H1 & H). apply lang_plus in H1.
    apply lang_seqs_cons in H as (w1 & p' & -> & Hw1 & H). apply lang_plus in Hw1.
    apply lang_seqs_cons in H as (tail & p & -> & Ht & H).
    apply lang_seqs_cons in H as (sp2 & p' & -> & H2 & H).
    apply lang_seqs_cons in H as (e & p & -> & [-> He] & H). cbn in H. subst p.
    cbn [app] in *. rewrite app_nil_r in *.
    exists sp0, sp1, w1, tail, (sp2 ++ suf). rewrite <- !app_assoc.
    split; [reflexivity|]. split; [exact H0|]. split; [exact H1|]. split; [exact Hw1|].
    split.
    + destruct Ht as [Ht|Ht]; [|left; exact Ht]. right. cbn [lang] in Ht.
      destruct Ht as (sp & w2 & -> & Hsp & Hw2).
      apply lang_plus in Hsp. apply lang_plus in Hw2. eauto.
    + rewrite forallb_app. change (forallb is_space sp2 = true) in H2. rewrite H2.
      apply at_eol_space. exact He.
  - intros (sp0 & sp1 & w1 & tail & sp2 & -> & H0 & H1 & Hw1 & Ht & H2).
    exists (sp0 ++ str "CANTO" ++ sp1 ++ w1 ++ tail ++ sp2), []. rewrite app_nil_r.
    split; [reflexivity|].
    apply lang_seqs_cons. exists sp0, (str "CANTO" ++ sp1 ++ w1 ++ tail ++ sp2).
    split; [reflexivity|]. split; [exact H0|].
    apply lang_seqs_cons. exists (str "CANTO"), (sp1 ++ w1 ++ tail ++ sp2).
    split; [reflexivity|]. split; [apply lang_lits, spells_exact; reflexivity|].
    apply lang_seqs_cons. exists sp1, (w1 ++ tail ++ sp2).
    split; [reflexivity|]. split; [apply lang_plus; exact H1|].
    apply lang_seqs_cons. exists w1, (tail ++ sp2).
    split; [reflexivity|]. split; [apply lang_plus; exact Hw1|].
    apply lang_seqs_cons. exists tail, sp2.
    split; [reflexivity|]. split.
    { destruct Ht as [->|(sp & w2 & -> & Hsp & Hw2)]; [right; reflexivity|].
      left. cbn [lang]. exists sp, w2. split; [reflexivity|].
      split; apply lang_plus; assumption. }
    apply lang_seqs_cons. exists sp2, []. rewrite app_nil_r.
    split; [reflexivity|]. split; [exact H2|].
    apply lang_seqs_cons. exists [], []. cbn. auto.
Qed.

Lemma spells_prefix (ic : bool) (xs : pystr) : forall s,
  prefix_match ic xs s = true
  <-> (length xs <= length s)%nat /\ spells ic xs (take (length xs) s).
Proof.
  unfold spells. induction xs as [|x xs IH]; intros s.
  - cbn. split; [intros _; split; [lia|constructor]|reflexivity].
  - destruct s as [|c s]; cbn [prefix_match length take].
    + split; [discriminate|]. intros [H _]. lia.
    + rewrite andb_true_iff, IH. split.
      * intros (Hc & Hl & Hs). split; [lia|]. constructor; assumption.
      * intros (Hl & Hs). inversion Hs; subst. split; [assumption|]. split; [lia|assumption].
Qed.

Lemma spells_length (ic : bool) (xs t : pystr) : spells ic xs t -> length t = length xs.
Proof. intros H. symmetry. apply (Forall2_length _ _ _ H). Qed.

(** The match of the part-title pattern, with its group and what is around
    it. *)
Lemma cantica_header_group (line : pystr) (m : option pystr) :
  re_match true CANTICA_HEADER_RE line = Some m ->
  exists sp0 g sp2 title,
    m = Some g /\ line = sp0 ++ g ++ sp2
    /\ forallb is_space sp0 = true /\ forallb is_space sp2 = true
    /\ In title part_titles /\ spells true title g.
Proof.
  unfold re_match, CANTICA_HEADER_RE. cbn [seqs fold_right run].
  rewrite star_ws_skip.
  2:{ intros c s' Hc. rewrite !run_lits.
      rewrite !prefix_match_head_space by (try assumption; vm_compute; reflexivity).
      reflexivity. }
  destruct (lstrip_suffix line) as (sp0 & Eline & Hsp0).
  set (t := lstrip line) in *. rewrite !run_lits.
  assert (Hend : forall (n : nat) (w : pystr),
            length w = n ->
            (if prefix_match true w t then
               star_run true ws
                 (fun s' => if at_eol s' then
                              Some (Some (take (length t - length (drop n t)) t))
                            else None) (drop n t)
             else None) = Some m ->
            In w part_titles ->
            exists sp0 g sp2 title,
              m = Some g /\ line = sp0 ++ g ++ sp2
              /\ forallb is_space sp0 = true /\ forallb is_space sp2 = true
              /\ In title part_titles /\ spells true title g).
  { intros n w Hn E Hin. destruct (prefix_match true w t) eqn:Hw; [|discriminate].
    apply star_run_Some in E as (p & s & Edrop & Hp & E).
    destruct (at_eol s) eqn:Hs; [|discriminate]. inversion E.
    apply spells_prefix in Hw as [Hlen Hw]. subst n.
    exists sp0, (take (length w) t), (drop (length w) t), w.
    split; [do 2 f_equal; rewrite length_drop; lia|].
    split; [rewrite take_drop; exact Eline|]. split; [exact Hsp0|].
    split; [|auto]. rewrite Edrop, forallb_app. change (forallb is_space p = true) in Hp.
    rewrite Hp. apply at_eol_space. exact Hs. }
  intros E. apply orelse_Some in E as [E|E]; [|apply orelse_Some in E as [E|E]].
  - apply (Hend _ _ eq_refl E). vm_compute; tauto.
  - apply (Hend _ _ eq_refl E). vm_compute; tauto.
  - apply (Hend _ _ eq_refl E). vm_compute; tauto.
Qed.

(** X20. The lines that are part titles: optional whitespace, one of the
    words INFERNO, PURGATORIO, PARADISO spelled in any case (also with the
    characters that Python takes for the same letter when it ignores
    case), and optional whitespace to the end. Group 1 of the match, which
    the loop looks up among the part names, is the word as the line spells
    it. *)
Theorem part_title_shape (line : pystr) :
  (is_cantica_header line = true
   <-> exists sp0 t sp2 title,
         line = sp0 ++ t ++ sp2
         /\ forallb is_space sp0 = true /\ forallb is_space sp2 = true
         /\ In title part_titles /\ spells true title t)
  /\ (forall m, re_match true CANTICA_HEADER_RE line = Some m ->
        exists sp0 g sp2 title,
          m = Some g /\ line = sp0 ++ g ++ sp2
          /\ forallb is_space sp0 = true /\ forallb is_space sp2 = true
          /\ In title part_titles /\ spells true title g).
Proof.
  split; [|apply cantica_header_group]. split.
  - unfold is_cantica_header, matches.
    destruct (re_match true CANTICA_HEADER_RE line) as [m|] eqn:Hm; [|discriminate].
    intros _. apply cantica_header_group in Hm as (sp0 & g & sp2 & title & _ & H).
    exists sp0, g, sp2, title. exact H.
  - intros (sp0 & t & sp2 & title & -> & H0 & H2 & Ht & Hs).
    unfold is_cantica_header. apply matches_lang.
    exists (sp0 ++ t ++ sp2), []. rewrite app_nil_r. split; [reflexivity|].
    unfold CANTICA_HEADER_RE.
    apply lang_seqs_cons. exists sp0, (t ++ sp2). split; [reflexivity|]. split; [exact H0|].
    apply lang_seqs_cons. exists t, sp2. split; [reflexivity|]. split.
    { cbn [lang]. destruct Ht as [<-|[<-|[<-|[]]]].
      - left. apply lang_lits. exact Hs.
      - right. left. apply lang_lits. exact Hs.
      - right. right. apply lang_lits. exact Hs. }
    apply lang_seqs_cons. exists sp2, []. rewrite app_nil_r.
    split; [reflexivity|]. split; [exact H2|].
    apply lang_seqs_cons. exists [], []. cbn. auto.
Qed.

(** X21. A page number is noise. A line of one or more decimal digits, with
    or without whitespace around them, matches the footer pattern of both
    files: the full pipeline classifies it as noise and leaves the state as
    it is, and neither file takes it for a verse. *)
Theorem page_number_is_noise (sp0 ds sp2 : pystr) :
  forallb is_space sp0 = true -> ds <> [] -> forallb is_decimal ds = true ->
  forallb is_space sp2 = true ->
  looks_like_noise (sp0 ++ ds ++ sp2) = true
  /\ divina_pipeline.is_header_footer (sp0 ++ ds ++ sp2) = true
  /\ classify (sp0 ++ ds ++ sp2) = Ok Noise
  /\ (forall pdf outdir block_size block_overlap page_idx st,
        process_line pdf outdir block_size block_overlap page_idx st (sp0 ++ ds ++ sp2)
        = Ok st)
  /\ is_probable_verse (sp0 ++ ds ++ sp2) = false
  /\ divina_pipeline.is_probable_verse (sp0 ++ ds ++ sp2) = false.
Proof.
  intros H0 Hne Hds H2.
  assert (Hfoot : matches true (seqs [Star ws; Plus (CPred is_decimal); Star ws; Eol])
                    (sp0 ++ ds ++ sp2) = true).
  { apply matches_lang. exists (sp0 ++ ds ++ sp2), []. rewrite app_nil_r.
    split; [reflexivity|].
    apply lang_seqs_cons. exists sp0, (ds ++ sp2). split; [reflexivity|]. split; [exact H0|].
    apply lang_seqs_cons. exists ds, sp2. split; [reflexivity|].
    split; [apply lang_plus; auto|].
    apply lang_seqs_cons. exists sp2, []. rewrite app_nil_r.
    split; [reflexivity|]. split; [exact H2|].
    apply lang_seqs_cons. exists [], []. cbn. auto. }
  assert (Hnoise : looks_like_noise (sp0 ++ ds ++ sp2) = true).
  { unfold looks_like_noise. apply existsb_exists. eexists. split; [|exact Hfoot].
    apply in_or_app. right. apply in_or_app. left. left. reflexivity. }
  assert (Hhf : divina_pipeline.is_header_footer (sp0 ++ ds ++ sp2) = true).
  { unfold divina_pipeline.is_header_footer. apply existsb_exists. eexists.
    split; [|exact Hfoot]. apply in_or_app. right. left. reflexivity. }
  split; [exact Hnoise|]. split; [exact Hhf|]. split; [apply noise_classified; exact Hnoise|].
  split; [intros; apply noise_line_ignored; exact Hnoise|].
  split; [apply noise_not_verse; exact Hnoise|].
  unfold divina_pipeline.is_probable_verse. rewrite Hhf.
  destruct (negb (nonempty (sp0 ++ ds ++ sp2))); reflexivity.
Qed.

End Shapes.

(** ** When a run aborts *)

Section Aborts.
Context {U : UnicodeData}.
Variables (pdf outdir : pystr) (block_size block_overlap : Z).
Import divina_full_pipeline.

Lemma dotted_line_raises (page_idx : Z) (st : State.t) (line g : pystr) :
  Inv st -> dotted_part_title line g ->
  process_line pdf outdir block_size block_overlap page_idx st line
  = Raise (KeyError (upper g)).
Proof.
  intros HI [Hm Hin]. unfold process_line. rewrite Hm.
  destruct (close_canto_inv pdf outdir block_size block_overlap (page_idx - 1) st HI)
    as (st1 & -> & _).
  cbn [bind]. rewrite (dotted_title_unknown g Hin). reflexivity.
Qed.

(** On a clean line the title pattern matches the whole line. *)
Lemma clean_title_group (line : pystr) (m : option pystr) :
  clean_line line = line -> re_match true CANTICA_HEADER_RE line = Some m -> m = Some line.
Proof.
  intros Hclean Hm. apply cantica_header_group in Hm
    as (sp0 & g & sp2 & title & -> & E & H0 & H2 & Ht & Hs).
  assert (Hg : g <> []).
  { intros ->. apply spells_length in Hs.
    destruct Ht as [<-|[<-|[<-|[]]]]; discriminate. }
  assert (Hhead : forall c, head line = Some c -> is_space c = false).
  { intros c. rewrite <- Hclean, clean_line_agree. apply strip_head. }
  assert (Hlast : forall c, last line = Some c -> is_space c = false).
  { intros c. rewrite <- Hclean, clean_line_agree. apply strip_last. }
  destruct sp0 as [|c sp0].
  2:{ exfalso. cbn in H0. apply andb_prop in H0 as [Hc _].
      rewrite (Hhead c) in Hc; [discriminate|]. rewrite E. reflexivity. }
  destruct sp2 as [|c sp2] using rev_ind.
  - rewrite E. cbn [app]. rewrite app_nil_r. reflexivity.
  - exfalso. rewrite forallb_app in H2. apply andb_prop in H2 as [_ Hc]. cbn in Hc.
    rewrite (Hlast c) in Hc; [discriminate|].
    rewrite E. cbn [app]. rewrite app_assoc. apply last_snoc.
Qed.

Lemma dotted_clean_line (line : pystr) :
  clean_line line = line ->
  (is_cantica_header line = true /\ In 304%N line <-> dotted_part_title line line).
Proof.
  intros Hclean. unfold dotted_part_title, is_cantica_header, matches. split.
  - intros [Hm Hin].
    destruct (re_match true CANTICA_HEADER_RE line) as [m|] eqn:E; [|discriminate].
    rewrite (clean_title_group line m Hclean E). auto.
  - intros [-> Hin]. auto.
Qed.

(** With a directory and files that take every write, a run raises
    exactly when some cleaned line of the document is a part title spelled
    with U+0130, and what it raises is the failed lookup of such a line. *)
Lemma loop_aborts_on_dotted_title (pages : list (list pystr)) :
  ((exists e, run_pipeline pdf outdir block_size block_overlap pages = Raise e)
   <-> exists page line,
         In page (parse_pdf pages) /\ In line page
         /\ is_cantica_header line = true /\ In 304%N line)
  /\ (forall e, run_pipeline pdf outdir block_size block_overlap pages = Raise e ->
        exists page line,
          In page (parse_pdf pages) /\ In line page
          /\ is_cantica_header line = true /\ In 304%N line
          /\ e = KeyError (upper line))
  /\ run_pipeline pdf outdir block_size block_overlap pages <> OutOfFuel.
Proof.
  assert (Hraise : forall e,
            run_pipeline pdf outdir block_size block_overlap pages = Raise e ->
            exists page line,
              In page (parse_pdf pages) /\ In line page
              /\ is_cantica_header line = true /\ In 304%N line
              /\ e = KeyError (upper line)).
  { intros e. unfold run_pipeline, run_lines.
    pose proof (run_loop_outcome pdf outdir block_size block_overlap (parse_pdf pages)) as H.
    destruct (foldM _ initial (enumerate (parse_pdf pages))) as [st|e'|]; cbn [bind].
    - destruct H as [HI _].
      destruct (close_canto_inv pdf outdir block_size block_overlap
                  (len (parse_pdf pages) - 1) st HI) as (st' & -> & _).
      discriminate.
    - intros E. inversion E; subst e'.
      destruct H as (page & line & g & Hp & Hl & [Hm Hin] & ->).
      destruct (parse_pdf_line pages page line Hp Hl) as (_ & Hclean & _).
      pose proof (clean_title_group line _ Hclean Hm) as Eg. inversion Eg; subst g.
      exists page, line. unfold is_cantica_header, matches. rewrite Hm. auto 10.
    - contradiction. }
  split; [split|split; [exact Hraise|]].
  - intros (e & He). destruct (Hraise e He) as (page & line & Hp & Hl & Hc & Hin & _).
    exists page, line. auto.
  - intros (page & line & Hp & Hl & Hc & Hin).
    destruct (parse_pdf_line pages page line Hp Hl) as (_ & Hclean & _).
    assert (Hg : dotted_part_title line line) by (apply dotted_clean_line; auto).
    destruct (In_enumerate_intro _ _ Hp) as (i & Hi).
    assert (Hloop : exists e,
              foldM (process_page pdf outdir block_size block_overlap) initial
                (enumerate (parse_pdf pages)) = Raise e).
    { apply (foldM_hits _ (fun s => Inv s /\ Inv2 pdf outdir block_size block_overlap s)
               (i, page)); [| |exact Hi|exact (conj Inv_initial (Inv2_initial _ _ _ _))].
      - intros s y Hs.
        pose proof (process_page_outcome pdf outdir block_size block_overlap s y Hs) as H.
        destruct (process_page _ _ _ _ s y); auto.
      - intros s Hs. unfold process_page. cbn [fst snd].
        apply (foldM_hits _ (fun s => Inv s /\ Inv2 pdf outdir block_size block_overlap s)
                 line); [| |exact Hl|exact Hs].
        + intros s' y Hs'.
          pose proof (process_line_outcome pdf outdir block_size block_overlap i s' y Hs')
            as H.
          destruct (process_line _ _ _ _ i s' y); auto.
        + intros s' [HI' _]. eexists. apply (dotted_line_raises i s' line line HI' Hg). }
    destruct Hloop as (e & He). exists e. unfold run_pipeline, run_lines. rewrite He.
    reflexivity.
  - unfold run_pipeline.
    pose proof (run_lines_inv pdf outdir block_size block_overlap (parse_pdf pages)) as H.
    intros E. rewrite E in H. exact H.
Qed.

(** The run with its directory and file operations against the run
    without them. *)
Lemma io_sim_refl {A} (P : exn -> Prop) (m : outcome A) : io_sim P m m.
Proof. destruct m; cbn; auto. Qed.

Lemma io_sim_bind {A B} (P : exn -> Prop) (m_io m : outcome A) (k_io k : A -> outcome B) :
  io_sim P m_io m -> (forall a, io_sim P (k_io a) (k a)) ->
  io_sim P (bind m_io k_io) (bind m k).
Proof.
  destruct m_io as [a|e|]; cbn [io_sim bind]; intros H Hk.
  - rewrite H. cbn [bind]. apply Hk.
  - destruct H as [->|H]; [left; reflexivity|right; exact H].
  - rewrite H. reflexivity.
Qed.

Lemma io_sim_foldM {A S} (P : exn -> Prop) (f_io f : S -> A -> outcome S) :
  (forall s x, io_sim P (f_io s x) (f s x)) ->
  forall l s, io_sim P (foldM f_io s l) (foldM f s l).
Proof.
  intros Hf. induction l as [|x l IH]; intros s; cbn [foldM].
  - reflexivity.
  - apply io_sim_bind; [apply Hf|exact IH].
Qed.

Variable fs : FileSystem.t.

Lemma close_canto_io_sim (end_page_idx : Z) (st : State.t) :
  io_sim (io_raises fs pdf outdir)
    (close_canto_io pdf outdir block_size block_overlap fs end_page_idx st)
    (close_canto pdf outdir block_size block_overlap end_page_idx st).
Proof.
  unfold close_canto_io, close_canto. destruct (State.canto_buf st) as [buf|]; [|reflexivity].
  apply io_sim_bind; [apply io_sim_refl|]. intros data.
  apply io_sim_bind; [apply io_sim_refl|]. intros code.
  destruct (FileSystem.dump_canto fs (State.written st)
              (path_join outdir
                 (code ++ str "_" ++ format_0d 2 (CantoBuffer.canto_num buf) ++ str ".json"))
              data) as [e|] eqn:E; cbn [io bind io_sim].
  - right. right. right. left. eauto.
  - reflexivity.
Qed.

Lemma process_line_io_sim (page_idx : Z) (st : State.t) (line : pystr) :
  io_sim (io_raises fs pdf outdir)
    (process_line_io pdf outdir block_size block_overlap fs page_idx st line)
    (process_line pdf outdir block_size block_overlap page_idx st line).
Proof.
  unfold process_line_io, process_line.
  destruct (re_match true CANTICA_HEADER_RE line) as [m|].
  - apply io_sim_bind; [apply close_canto_io_sim|]. intros st1. apply io_sim_refl.
  - destruct (is_canto_header line); [|apply io_sim_refl].
    destruct (State.current_cantica st) as [cantica|]; [|reflexivity].
    apply io_sim_bind; [apply close_canto_io_sim|]. intros st1. apply io_sim_refl.
Qed.

Lemma run_pipeline_io_sim (pages : list (list pystr)) :
  FileSystem.makedirs fs outdir = None -> FileSystem.read_pages fs pdf = inr pages ->
  io_sim (io_raises fs pdf outdir)
    (run_pipeline_io pdf outdir block_size block_overlap fs)
    (run_pipeline pdf outdir block_size block_overlap pages).
Proof.
  intros Hdir Hread. unfold run_pipeline_io, run_pipeline, run_lines.
  rewrite Hdir, Hread. cbn [io bind].
  apply io_sim_bind.
  { apply io_sim_foldM. intros s page. unfold process_page_io, process_page.
    apply io_sim_foldM. intros s' line. apply process_line_io_sim. }
  intros st. apply io_sim_bind; [apply close_canto_io_sim|]. intros st'.
  match goal with
  | |- context [FileSystem.dump_manifest fs ?r] =>
      destruct (FileSystem.dump_manifest fs r) as [e|] eqn:E
  end; cbn [io bind io_sim].
  - right. right. right. right. eauto.
  - reflexivity.
Qed.

(** X22. When a run aborts. No run goes on for ever. What a run raises is
    either what one of its directory and file operations raises
    ([os.makedirs], reading the document, opening and writing a canto file
    or the manifest) or the failed lookup, among the part names, of a
    cleaned line that is a part title spelled with U+0130, the capital I
    with a dot above, in upper case. A failure to make the output directory
    is raised as it is, and a document with such a line makes the run raise
    whatever the file operations do. When no directory or file operation
    fails, the run is the one without these operations, and it raises
    exactly when the document has such a line. *)
Theorem run_aborts_on_dotted_title :
  run_pipeline_io pdf outdir block_size block_overlap fs <> OutOfFuel
  /\ (forall e, run_pipeline_io pdf outdir block_size block_overlap fs = Raise e ->
        io_raises fs pdf outdir e
        \/ exists pages page line,
             FileSystem.read_pages fs pdf = inr pages
             /\ In page (parse_pdf pages) /\ In line page
             /\ is_cantica_header line = true /\ In 304%N line
             /\ e = KeyError (upper line))
  /\ (forall e, FileSystem.makedirs fs outdir = Some e ->
        run_pipeline_io pdf outdir block_size block_overlap fs = Raise e)
  /\ (forall pages page line,
        FileSystem.read_pages fs pdf = inr pages ->
        In page (parse_pdf pages) -> In line page ->
        is_cantica_header line = true -> In 304%N line ->
        exists e, run_pipeline_io pdf outdir block_size block_overlap fs = Raise e)
  /\ (forall pages, io_succeeds fs pdf outdir pages ->
        run_pipeline_io pdf outdir block_size block_overlap fs
        = run_pipeline pdf outdir block_size block_overlap pages
        /\ ((exists e, run_pipeline_io pdf outdir block_size block_overlap fs = Raise e)
            <-> exists page line,
                  In page (parse_pdf pages) /\ In line page
                  /\ is_cantica_header line = true /\ In 304%N line)).
Proof.
  assert (Hdir : forall e, FileSystem.makedirs fs outdir = Some e ->
                   run_pipeline_io pdf outdir block_size block_overlap fs = Raise e).
  { intros e He. unfold run_pipeline_io. rewrite He. reflexivity. }
  assert (Hread : forall e, FileSystem.makedirs fs outdir = None ->
                    FileSystem.read_pages fs pdf = inl e ->
                    run_pipeline_io pdf outdir block_size block_overlap fs = Raise e).
  { intros e Hd He. unfold run_pipeline_io. rewrite Hd, He. reflexivity. }
  assert (Hfuel : run_pipeline_io pdf outdir block_size block_overlap fs <> OutOfFuel).
  { destruct (FileSystem.makedirs fs outdir) as [e|] eqn:Ed.
    { rewrite (Hdir e eq_refl). discriminate. }
    destruct (FileSystem.read_pages fs pdf) as [e|pages] eqn:Er.
    { rewrite (Hread e eq_refl eq_refl). discriminate. }
    pose proof (run_pipeline_io_sim pages Ed Er) as Hsim. intros E. rewrite E in Hsim.
    cbn [io_sim] in Hsim.
    destruct (loop_aborts_on_dotted_title pages) as (_ & _ & Hpure). exact (Hpure Hsim). }
  split; [exact Hfuel|]. split; [|split; [exact Hdir|split]].
  - intros e He. destruct (FileSystem.makedirs fs outdir) as [e'|] eqn:Ed.
    { rewrite (Hdir e' eq_refl) in He. inversion He; subst e'. left. left. exact Ed. }
    destruct (FileSystem.read_pages fs pdf) as [e'|pages] eqn:Er.
    { rewrite (Hread e' eq_refl eq_refl) in He. inversion He; subst e'.
      left. right. left. exact Er. }
    pose proof (run_pipeline_io_sim pages Ed Er) as Hsim. rewrite He in Hsim.
    cbn [io_sim] in Hsim. destruct Hsim as [Hpure|Hio]; [|left; exact Hio].
    right. destruct (loop_aborts_on_dotted_title pages) as (_ & Hraise & _).
    destruct (Hraise e Hpure) as (page & line & H). exists pages, page, line.
    split; [reflexivity|exact H].
  - intros pages page line Er Hp Hl Hc Hin.
    destruct (FileSystem.makedirs fs outdir) as [e|] eqn:Ed; [eauto|].
    pose proof (run_pipeline_io_sim pages Ed Er) as Hsim.
    destruct (run_pipeline_io pdf outdir block_size block_overlap fs) as [r|e|] eqn:E.
    + exfalso. cbn [io_sim] in Hsim.
      destruct (loop_aborts_on_dotted_title pages) as (Hiff & _).
      destruct (proj2 Hiff) as (e & He); [exists page, line; auto|]. congruence.
    + eauto.
    + exfalso. apply Hfuel. reflexivity.
  - intros pages (Ed & Er & Hcanto & Hman).
    assert (Hno : forall e, ~ io_raises fs pdf outdir e).
    { intros e [H|[H|[(w & f & d & H)|(r & H)]]].
      - rewrite Ed in H. discriminate.
      - rewrite Er in H. discriminate.
      - rewrite Hcanto in H. discriminate.
      - rewrite Hman in H. discriminate. }
    pose proof (run_pipeline_io_sim pages Ed Er) as Hsim.
    assert (Heq : run_pipeline_io pdf outdir block_size block_overlap fs
                  = run_pipeline pdf outdir block_size block_overlap pages).
    { destruct (run_pipeline_io pdf outdir block_size block_overlap fs) as [r|e|];
        cbn [io_sim] in Hsim.
      - symmetry. exact Hsim.
      - destruct Hsim as [Hsim|Hio]; [symmetry; exact Hsim|destruct (Hno e Hio)].
      - symmetry. exact Hsim. }
    split; [exact Heq|]. rewrite Heq.
    destruct (loop_aborts_on_dotted_title pages) as (Hiff & _). exact Hiff.
Qed.

End Aborts.


(** ** What a run keeps, line by line and page by page *)

Section Kept.
Context {U : UnicodeData}.
Variables (pdf outdir : pystr) (block_size block_overlap : Z).
Import divina_full_pipeline.

Lemma segments_texts (last_page : Z) (lines : list (Z * pystr)) : forall part cur,
  exists sub,
    concat (map snd (segments part cur last_page lines))
    = match cur with Some (_, texts) => texts | None => [] end ++ sub
    /\ sublist sub (map snd lines).
Proof.
  assert (Hclose : forall cur e,
            concat (map snd (close_segment cur e))
            = match cur with Some (_, texts) => texts | None => [] end).
  { intros [[s t]|] e; cbn; [apply app_nil_r|reflexivity]. }
  induction lines as [|[page_idx line] lines IH]; intros part cur.
  - exists []. cbn [segments map]. rewrite Hclose, app_nil_r. split; [reflexivity|constructor].
  - cbn [segments map snd].
    destruct (is_cantica_header line).
    { destruct (IH true None) as (sub & E & Hsub). exists sub.
      rewrite map_app, concat_app, Hclose, E. split; [reflexivity|].
      apply sublist_cons. exact Hsub. }
    destruct (is_canto_header line).
    { destruct part.
      - destruct (IH true (Some (page_idx, []))) as (sub & E & Hsub). exists sub.
        rewrite map_app, concat_app, Hclose, E. split; [reflexivity|].
        apply sublist_cons. exact Hsub.
      - destruct (IH false cur) as (sub & E & Hsub). exists sub.
        split; [exact E|apply sublist_cons; exact Hsub]. }
    destruct cur as [[s t]|].
    + destruct (is_probable_verse line).
      * destruct (IH part (Some (s, t ++ [line]))) as (sub & E & Hsub).
        exists (line :: sub). rewrite E, <- app_assoc. split; [reflexivity|].
        apply sublist_skip. exact Hsub.
      * destruct (IH part (Some (s, t))) as (sub & E & Hsub). exists sub.
        split; [exact E|apply sublist_cons; exact Hsub].
    + destruct (IH part None) as (sub & E & Hsub). exists sub.
      split; [exact E|apply sublist_cons; exact Hsub].
Qed.

(** X23. Nothing is invented. The verse texts of a run, file after file
    and verse after verse, are a subsequence of the cleaned lines of the
    document in reading order: every verse is a line of the document, no
    line gives two verses, and the order of the lines is kept. *)
Theorem run_texts_are_lines (pages : list (list pystr)) (r : Run.t) :
  run_pipeline pdf outdir block_size block_overlap pages = Ok r ->
  sublist
    (concat (map (fun fd : pystr * Canto.t => map Verse.text_original (Canto.versi fd.2))
               (Run.files r)))
    (concat (parse_pdf pages)).
Proof.
  intros Hr. unfold run_pipeline in Hr. pose proof (run_segments _ _ _ _ _ _ Hr) as Hseg.
  destruct (segments_texts (len (parse_pdf pages) - 1) (stream (parse_pdf pages)) false None)
    as (sub & E & Hsub).
  rewrite <- Hseg, map_map, stream_lines in *. cbn [app] in E.
  unfold file_segment in E. cbn [snd] in E. rewrite E. exact Hsub.
Qed.

Lemma ordered_weaken (lines : list (Z * pystr)) (lo lo' : Z) :
  lo <= lo' -> ordered lo' lines -> ordered lo lines.
Proof. destruct lines as [|[p l] lines]; cbn; [auto|]. intros H [H1 H2]. split; [lia|exact H2]. Qed.

Lemma ordered_app (l1 l2 : list (Z * pystr)) (lo hi : Z) :
  ordered lo l1 -> (forall p l, In (p, l) l1 -> p <= hi) -> lo <= hi -> ordered hi l2 ->
  ordered lo (l1 ++ l2).
Proof.
  revert lo. induction l1 as [|[p l] l1 IH]; intros lo H1 Hhi Hlo H2; cbn [app].
  - apply (ordered_weaken l2 lo hi); assumption.
  - cbn [ordered] in *. destruct H1 as [Hp H1]. split; [exact Hp|].
    apply IH; [exact H1| |apply (Hhi p l); left; reflexivity|exact H2].
    intros p' l' Hin. apply (Hhi p' l'). right. exact Hin.
Qed.

Lemma ordered_page (i : Z) (lines : list pystr) : ordered i (map (pair i) lines).
Proof.
  induction lines as [|l lines IH]; cbn; [exact I|]. split; [lia|exact IH].
Qed.

Lemma stream_ordered (pages_lines : list (list pystr)) :
  ordered 0 (stream pages_lines)
  /\ forall p l, In (p, l) (stream pages_lines) -> 0 <= p <= len pages_lines - 1.
Proof.
  unfold stream, enumerate, len.
  assert (H : forall (s : nat),
            ordered (Z.of_nat s)
              (flat_map (fun page : Z * list pystr => map (pair page.1) page.2)
                 (combine (map Z.of_nat (seq s (length pages_lines))) pages_lines))
            /\ forall p l,
                 In (p, l)
                   (flat_map (fun page : Z * list pystr => map (pair page.1) page.2)
                      (combine (map Z.of_nat (seq s (length pages_lines))) pages_lines)) ->
                 Z.of_nat s <= p <= Z.of_nat s + Z.of_nat (length pages_lines) - 1).
  { induction pages_lines as [|page pages_lines IH]; intros s.
    - cbn. split; [exact I|intros p l []].
    - cbn [length seq map combine flat_map fst snd]. destruct (IH (S s)) as [Hord Hin].
      split.
      + apply (ordered_app _ _ _ (Z.of_nat (S s))).
        * apply ordered_page.
        * intros p l H. apply in_map_iff in H as (x & E & _). inversion E. lia.
        * lia.
        * exact Hord.
      + intros p l H. apply in_app_or in H as [H|H].
        * apply in_map_iff in H as (x & E & _). inversion E. lia.
        * apply Hin in H. lia. }
  destruct (H 0%nat) as [Hord Hin]. split; [exact Hord|].
  intros p l Hpl. apply Hin in Hpl. lia.
Qed.

Lemma segments_ranges (last_page : Z) (lines : list (Z * pystr)) : forall part cur lo,
  0 <= lo -> ordered lo lines -> (forall p l, In (p, l) lines -> p <= last_page) ->
  (forall s t, cur = Some (s, t) -> 0 <= s <= lo /\ s <= last_page) ->
  forall seg, In seg (segments part cur last_page lines) ->
    exists a b, seg.1 = [a; b] /\ 1 <= a <= last_page + 1 /\ a - 1 <= b <= last_page + 1.
Proof.
  assert (Hclose : forall cur e lo,
            (forall s t, cur = Some (s, t) -> 0 <= s <= lo /\ s <= last_page) ->
            lo - 1 <= e <= last_page ->
            forall seg, In seg (close_segment cur e) ->
              exists a b, seg.1 = [a; b] /\ 1 <= a <= last_page + 1
                          /\ a - 1 <= b <= last_page + 1).
  { intros [[s t]|] e lo Hcur He seg; cbn; [|intros []]. intros [<-|[]].
    destruct (Hcur s t eq_refl). exists (s + 1), (e + 1). cbn. split; [reflexivity|lia]. }
  induction lines as [|[page_idx line] lines IH]; intros part cur lo Hlo Hord Hmax Hcur seg.
  - cbn [segments]. destruct cur as [[s t]|]; [|intros []].
    destruct (Hcur s t eq_refl). apply (Hclose _ _ s); [|lia].
    intros s' t' E. inversion E; subst. lia.
  - cbn [segments]. cbn [ordered] in Hord. destruct Hord as [Hp Hord].
    assert (Hpmax : page_idx <= last_page) by (apply (Hmax page_idx line); left; reflexivity).
    assert (Hmax' : forall p l, In (p, l) lines -> p <= last_page)
      by (intros p l H; apply (Hmax p l); right; exact H).
    destruct (is_cantica_header line).
    { intros H. apply in_app_or in H as [H|H].
      - apply (Hclose cur (page_idx - 1) lo Hcur); [lia|exact H].
      - apply (IH true None page_idx); try assumption; [lia|discriminate]. }
    destruct (is_canto_header line).
    { destruct part.
      - intros H. apply in_app_or in H as [H|H].
        + apply (Hclose cur (page_idx - 1) lo Hcur); [lia|exact H].
        + apply (IH true (Some (page_idx, [])) page_idx); try assumption; [lia|].
          intros s t E. inversion E; subst. lia.
      - apply (IH false cur page_idx); try assumption; [lia|].
        intros s t E. destruct (Hcur s t E). lia. }
    destruct cur as [[s t]|].
    + destruct (Hcur s t eq_refl).
      destruct (is_probable_verse line);
        apply (IH part _ page_idx); try assumption; try lia;
        intros s' t' E; inversion E; subst; lia.
    + apply (IH part None page_idx); try assumption; [lia|discriminate].
Qed.

Lemma stream_app (before : list (list pystr)) (page : list pystr) (more : list (list pystr)) :
  exists tail,
    stream (before ++ page :: more)
    = stream before ++ map (pair (len before)) page ++ tail.
Proof.
  unfold stream, enumerate, len.
  assert (H : forall (s : nat), exists tail,
            flat_map (fun pg : Z * list pystr => map (pair pg.1) pg.2)
              (combine (map Z.of_nat (seq s (length (before ++ page :: more))))
                 (before ++ page :: more))
            = flat_map (fun pg : Z * list pystr => map (pair pg.1) pg.2)
                (combine (map Z.of_nat (seq s (length before))) before)
              ++ map (pair (Z.of_nat s + Z.of_nat (length before))) page ++ tail).
  { induction before as [|b before IH]; intros s.
    - cbn [app length seq map combine flat_map fst snd]. eexists.
      replace (Z.of_nat s + Z.of_nat 0) with (Z.of_nat s) by lia. reflexivity.
    - cbn [app length seq map combine flat_map fst snd]. destruct (IH (S s)) as (tail & E).
      exists tail. rewrite E, <- app_assoc.
      replace (Z.of_nat (S s) + Z.of_nat (length before))
        with (Z.of_nat s + Z.of_nat (S (length before))) by lia.
      reflexivity. }
  destruct (H 0%nat) as (tail & E). exists tail. rewrite E. reflexivity.
Qed.

Lemma segments_prefix (last_page : Z) (l1 : list (Z * pystr)) : forall part cur,
  exists segs part' cur',
    (forall l2, segments part cur last_page (l1 ++ l2)
                = segs ++ segments part' cur' last_page l2)
    /\ (part = true \/ (exists x, In x l1 /\ is_cantica_header x.2 = true) -> part' = true).
Proof.
  induction l1 as [|[page_idx line] l1 IH]; intros part cur.
  - exists [], part, cur. split; [reflexivity|]. intros [H|(x & [] & _)]. exact H.
  - cbn [app segments]. destruct (is_cantica_header line) eqn:Hc.
    { destruct (IH true None) as (segs & part' & cur' & E & Hp).
      exists (close_segment cur (page_idx - 1) ++ segs), part', cur'. split.
      - intros l2. rewrite E, app_assoc. reflexivity.
      - intros _. apply Hp. left. reflexivity. }
    destruct (is_canto_header line).
    { destruct part.
      - destruct (IH true (Some (page_idx, []))) as (segs & part' & cur' & E & Hp).
        exists (close_segment cur (page_idx - 1) ++ segs), part', cur'. split.
        + intros l2. rewrite E, app_assoc. reflexivity.
        + intros _. apply Hp. left. reflexivity.
      - destruct (IH false cur) as (segs & part' & cur' & E & Hp).
        exists segs, part', cur'. split; [exact E|].
        intros [H|(x & [<-|Hx] & Hx')]; [discriminate| |].
        + cbn [snd] in Hx'. rewrite Hc in Hx'. discriminate.
        + apply Hp. right. exists x. auto. }
    assert (Hgo : forall cur0, exists segs part' cur',
              (forall l2, segments part cur0 last_page (l1 ++ l2)
                          = segs ++ segments part' cur' last_page l2)
              /\ (part = true
                  \/ (exists x, In x ((page_idx, line) :: l1) /\ is_cantica_header x.2 = true) ->
                  part' = true)).
    { intros cur0. destruct (IH part cur0) as (segs & part' & cur' & E & Hp).
      exists segs, part', cur'. split; [exact E|].
      intros [H|(x & [<-|Hx] & Hx')].
      - apply Hp. left. exact H.
      - cbn [snd] in Hx'. rewrite Hc in Hx'. discriminate.
      - apply Hp. right. exists x. auto. }
    destruct cur as [[s t]|]; [destruct (is_probable_verse line)|]; apply Hgo.
Qed.

Lemma segments_body (last_page p : Z) (part : bool) (body : list pystr) :
  (forall l, In l body -> is_cantica_header l = false /\ is_canto_header l = false) ->
  forall s t rest,
    segments part (Some (s, t)) last_page (map (pair p) body ++ rest)
    = segments part (Some (s, t ++ List.filter is_probable_verse body)) last_page rest.
Proof.
  induction body as [|l body IH]; intros Hb s t rest.
  - cbn [map app List.filter]. rewrite app_nil_r. reflexivity.
  - destruct (Hb l (or_introl eq_refl)) as [Hc Hh].
    assert (Hb' : forall l', In l' body ->
                    is_cantica_header l' = false /\ is_canto_header l' = false)
      by (intros l' H; apply Hb; right; exact H).
    cbn [map app segments List.filter]. rewrite Hc, Hh.
    destruct (is_probable_verse l).
    + rewrite (IH Hb'), <- app_assoc. reflexivity.
    + apply (IH Hb').
Qed.

(** X24. The page range of a canto file is a pair of numbers: the first is
    a page of the document, counted from 1; the last is at most the number
    of pages and at least the first minus 1. The last is indeed below the
    first for every canto whose closing line, a part title or the next
    canto heading, stands on the page of its own heading: the canto is
    closed on the page before that line, so that a canto that begins and
    ends on page [p] has the pages [p] and [p - 1], and 1 and 0 on the
    first page. Its verses are the lines between the two that the verse
    test accepts. *)
Theorem run_page_ranges (pages : list (list pystr)) (r : Run.t) :
  run_pipeline pdf outdir block_size block_overlap pages = Ok r ->
  (forall f d, In (f, d) (Run.files r) ->
     exists a b, Canto.source_pages d = [a; b]
       /\ 1 <= a <= len pages /\ a - 1 <= b <= len pages)
  /\ (forall before pre heading body closing rest more,
        parse_pdf pages = before ++ (pre ++ heading :: body ++ closing :: rest) :: more ->
        (exists title, In title (concat before ++ pre) /\ is_cantica_header title = true) ->
        is_canto_header heading = true ->
        (forall l, In l body -> is_cantica_header l = false /\ is_canto_header l = false) ->
        is_cantica_header closing = true \/ is_canto_header closing = true ->
        exists f d, In (f, d) (Run.files r)
          /\ Canto.source_pages d = [len before + 1; len before]
          /\ map Verse.text_original (Canto.versi d) = List.filter is_probable_verse body).
Proof.
  intros Hr. unfold run_pipeline in Hr.
  pose proof (run_segments _ _ _ _ _ _ Hr) as Hseg. split.
  - intros f d Hd.
    destruct (stream_ordered (parse_pdf pages)) as [Hord Hin].
    assert (Hlen : len (parse_pdf pages) = len pages)
      by (unfold parse_pdf, len; rewrite length_map; reflexivity).
    assert (Hs : In (file_segment (f, d))
                   (segments false None (len (parse_pdf pages) - 1) (stream (parse_pdf pages))))
      by (rewrite <- Hseg; apply in_map; exact Hd).
    apply (segments_ranges _ _ false None 0) in Hs; try assumption; try lia.
    + destruct Hs as (a & b & E & Ha & Hb). exists a, b. split; [exact E|]. lia.
    + intros p l H. apply Hin in H. lia.
    + discriminate.
  - intros before pre heading body closing rest more Hpages (title & Ht & Htitle) Hh Hbody Hc.
    set (last_page := len (parse_pdf pages) - 1) in Hseg. clearbody last_page.
    rewrite Hpages in Hseg.
    destruct (stream_app before (pre ++ heading :: body ++ closing :: rest) more)
      as (tail & Es).
    rewrite Es in Hseg. clear Es. set (p := len before) in *.
    rewrite map_app in Hseg. cbn [map] in Hseg. rewrite map_app in Hseg. cbn [map] in Hseg.
    rewrite <- !app_assoc in Hseg. rewrite app_assoc in Hseg.
    destruct (segments_prefix last_page (stream before ++ map (pair p) pre) false None)
      as (segs & part' & cur' & E & Hp).
    rewrite E in Hseg. clear E.
    assert (Hpart : part' = true).
    { apply Hp. right.
      assert (Hin : In title (map snd (stream before ++ map (pair p) pre))).
      { rewrite map_app, stream_lines, map_map. cbn [snd]. rewrite map_id. exact Ht. }
      apply in_map_iff in Hin as (x & Ex & Hx). exists x. rewrite Ex. auto. }
    subst part'.
    assert (Hh' : is_cantica_header heading = false).
    { unfold is_cantica_header, matches. rewrite (canto_not_cantica_header heading Hh).
      reflexivity. }
    cbn [app segments] in Hseg. rewrite Hh', Hh in Hseg.
    rewrite <- app_assoc in Hseg. rewrite (segments_body _ _ _ _ Hbody) in Hseg.
    cbn [app] in Hseg.
    assert (Hin : In ([p + 1; p - 1 + 1], List.filter is_probable_verse body)
                    (map file_segment (Run.files r))).
    { rewrite Hseg. apply in_or_app. right. apply in_or_app. right.
      cbn [segments]. destruct Hc as [Hc|Hc].
      - rewrite Hc. left. reflexivity.
      - assert (Hc' : is_cantica_header closing = false).
        { unfold is_cantica_header, matches. rewrite (canto_not_cantica_header closing Hc).
          reflexivity. }
        rewrite Hc', Hc. left. reflexivity. }
    apply in_map_iff in Hin as ([f d] & E & Hd). unfold file_segment in E. cbn [snd] in E.
    injection E as Hpg Hv. exists f, d. split; [exact Hd|]. rewrite Hpg, Hv.
    split; [|reflexivity]. subst p. do 2 f_equal. lia.
Qed.

End Kept.


(** ** The further properties at concrete inputs *)

Lemma last_word_is_final_run_witness :
  @divina_full_pipeline.last_word ascii_only (str "di nostra Vita!") = str "vita".
Proof.
  exact (proj1 (@last_word_is_final_run ascii_only (str "di nostra ") (str "Vita") (str "!")
                  ltac:(vm_compute; discriminate) ltac:(reflexivity) ltac:(reflexivity)
                  ltac:(intros c H; vm_compute in H; inversion H; reflexivity))).
Defined.

Lemma extract_lines_adjacent_witness :
  exists l1 l2,
    @divina_pipeline.extract_lines_from_pdf ascii_only three_pages 1 1 = Ok l1
    /\ @divina_pipeline.extract_lines_from_pdf ascii_only three_pages 2 3 = Ok l2
    /\ @divina_pipeline.extract_lines_from_pdf ascii_only three_pages 1 3 = Ok (l1 ++ l2).
Proof.
  exact (@extract_lines_adjacent ascii_only three_pages 1 1 3 ltac:(lia)
           ltac:(unfold len, three_pages; cbn [length]; lia)).
Defined.


Lemma block_count_witness :
  exists blocks,
    divina_full_pipeline.make_blocks five_verses 3 1 = Ok blocks /\ len blocks = 2.
Proof.
  exact (proj1 (block_count five_verses 3 1 ltac:(lia) ltac:(lia))).
Defined.

Lemma blocks_cover_verses_witness :
  exists blocks,
    divina_full_pipeline.make_blocks five_verses 3 1 = Ok blocks
    /\ fresh_refs 1 blocks = map Verse.urn five_verses.
Proof.
  destruct (blocks_cover_verses five_verses 3 1 ltac:(lia)) as [(blocks & Hb & Hc & _) _].
  exists blocks. auto.
Defined.

Lemma run_verse_records_witness :
  exists r,
    @divina_full_pipeline.run_pipeline ascii_only (str "commedia.pdf") (str "out") 12 0
      scenario_pages = Ok r
    /\ forall f d, In (f, d) (divina_full_pipeline.Run.files r) ->
         exists code, In (Canto.cantica d, code) part_codes
           /\ forall (i : nat) v, Canto.versi d !! i = Some v ->
                Verse.number v = Z.of_nat i + 1
                /\ Verse.urn v = urn_text code (Canto.canto d) (Z.of_nat i + 1)
                /\ Verse.last_word v
                   = @divina_full_pipeline.last_word ascii_only (Verse.text_original v)
                /\ Verse.ssml v = divina_full_pipeline.ssml_for_verso (Verse.text_original v)
                /\ Verse.rhyme_letter v = rhyme_at (Z.of_nat i)
                /\ @divina_full_pipeline.is_probable_verse ascii_only (Verse.text_original v)
                   = true.
Proof.
  eexists. split; [vm_compute; reflexivity|].
  exact (@run_verse_records ascii_only (str "commedia.pdf") (str "out") 12 0 scenario_pages _
           ltac:(vm_compute; reflexivity)).
Defined.

Lemma run_files_derived_witness :
  exists r,
    @divina_full_pipeline.run_pipeline ascii_only (str "commedia.pdf") (str "out") 12 0
      scenario_pages = Ok r
    /\ forall f d, In (f, d) (divina_full_pipeline.Run.files r) ->
         Canto.counts d
         = Counts.mk (len (Canto.versi d)) (len (Canto.versi d) / 3)
             (len (Canto.recitation_blocks d)).
Proof.
  eexists. split; [vm_compute; reflexivity|]. intros f d Hd.
  destruct (@run_files_derived ascii_only (str "commedia.pdf") (str "out") 12 0 scenario_pages
              _ ltac:(vm_compute; reflexivity) f d Hd) as (_ & _ & _ & _ & Hc & _).
  exact Hc.
Defined.

Lemma run_paths_distinct_witness :
  exists r,
    @divina_full_pipeline.run_pipeline ascii_only (str "commedia.pdf") (str "out") 12 0
      interleaved_pages = Ok r
    /\ NoDup (map fst (divina_full_pipeline.Run.files r)).
Proof.
  eexists. split; [vm_compute; reflexivity|].
  exact (@run_paths_distinct ascii_only (str "commedia.pdf") (str "out") 12 0
           interleaved_pages _ ltac:(vm_compute; reflexivity)).
Defined.

Lemma manifest_written_witness :
  exists r,
    @divina_full_pipeline.run_pipeline ascii_only (str "commedia.pdf") (str "out") 12 0
      interleaved_pages = Ok r
    /\ divina_full_pipeline.Run.manifest_extra r = ∅.
Proof.
  eexists. split; [vm_compute; reflexivity|].
  exact (proj1 (@manifest_written ascii_only (str "commedia.pdf") (str "out") 12 0
                  interleaved_pages _ ltac:(vm_compute; reflexivity))).
Defined.

Lemma run_group_identifiers_witness :
  exists r,
    @divina_full_pipeline.run_pipeline ascii_only (str "commedia.pdf") (str "out") 12 0
      scenario_pages = Ok r
    /\ forall f d, In (f, d) (divina_full_pipeline.Run.files r) ->
         forall (k : nat) b, Canto.recitation_blocks d !! k = Some b ->
           Block.start_verso b = Z.of_nat k * 12 + 1.
Proof.
  eexists. split; [vm_compute; reflexivity|]. intros f d Hd k b Hb.
  assert (Hn : len (Canto.versi d) <= 999).
  { destruct Hd as [Hd|[]]. inversion Hd. vm_compute. discriminate. }
  destruct (@run_group_identifiers ascii_only (str "commedia.pdf") (str "out") 12 0
              scenario_pages _ ltac:(vm_compute; reflexivity) f d Hd Hn)
    as (code & _ & _ & Hblocks).
  destruct (Hblocks ltac:(lia) ltac:(lia) k b Hb) as (_ & _ & Hs & _). exact Hs.
Defined.

Lemma run_follows_segments_witness :
  exists r,
    @divina_full_pipeline.run_pipeline ascii_only (str "commedia.pdf") (str "out") 12 0
      two_parts_pages = Ok r
    /\ map file_segment (divina_full_pipeline.Run.files r)
       = [ ([1; 0], [str "Per correr miglior acque alza le vele"]);
           ([1; 1], [str "La gloria di colui che tutto move"]) ].
Proof.
  eexists. split; [vm_compute; reflexivity|].
  exact (@run_follows_segments ascii_only (str "commedia.pdf") (str "out") 12 0
           two_parts_pages _ ltac:(vm_compute; reflexivity)).
Defined.

Lemma run_canto_count_witness :
  exists r,
    @divina_full_pipeline.run_pipeline ascii_only (str "commedia.pdf") (str "out") 12 0
      interleaved_pages = Ok r
    /\ divina_full_pipeline.Run.count_canti r = 3.
Proof.
  eexists. split; [vm_compute; reflexivity|].
  exact (proj1 (@run_canto_count ascii_only (str "commedia.pdf") (str "out") 12 0
                  interleaved_pages _ ltac:(vm_compute; reflexivity))).
Defined.

Lemma blocks_with_gaps_witness :
  exists blocks,
    divina_full_pipeline.make_blocks five_verses 2 (-1) = Ok blocks
    /\ map Block.versi blocks
       = [ [str "inf.01.001"; str "inf.01.002"]; [str "inf.01.004"; str "inf.01.005"] ].
Proof.
  destruct (blocks_with_gaps five_verses 2 (-1) ltac:(lia) ltac:(lia))
    as [(blocks & Hb & _) _].
  exists blocks. split; [exact Hb|].
  vm_compute in Hb. inversion Hb. reflexivity.
Defined.

Lemma page_number_is_noise_witness :
  @divina_full_pipeline.looks_like_noise ascii_only (str " 123") = true.
Proof.
  exact (proj1 (@page_number_is_noise ascii_only (str " ") (str "123") []
                  ltac:(reflexivity) ltac:(vm_compute; discriminate) ltac:(reflexivity)
                  ltac:(reflexivity))).
Defined.

Lemma run_texts_are_lines_witness :
  exists r,
    @divina_full_pipeline.run_pipeline ascii_only (str "commedia.pdf") (str "out") 12 0
      scenario_pages = Ok r
    /\ sublist
         (concat (map (fun fd : pystr * Canto.t => map Verse.text_original (Canto.versi fd.2))
                    (divina_full_pipeline.Run.files r)))
         (concat (divina_full_pipeline.parse_pdf scenario_pages)).
Proof.
  eexists. split; [vm_compute; reflexivity|].
  exact (@run_texts_are_lines ascii_only (str "commedia.pdf") (str "out") 12 0 scenario_pages
           _ ltac:(vm_compute; reflexivity)).
Defined.

Lemma run_page_ranges_witness :
  exists r f d,
    @divina_full_pipeline.run_pipeline ascii_only (str "commedia.pdf") (str "out") 12 0
      two_parts_pages = Ok r
    /\ In (f, d) (divina_full_pipeline.Run.files r)
    /\ Canto.source_pages d = [1; 0]
    /\ map Verse.text_original (Canto.versi d)
       = [str "Per correr miglior acque alza le vele"].
Proof.
  eexists.
  destruct (proj2 (@run_page_ranges ascii_only (str "commedia.pdf") (str "out") 12 0
                     two_parts_pages _ ltac:(vm_compute; reflexivity))
              [] [str "PURGATORIO"] (str "CANTO PRIMO")
              [str "Per correr miglior acque alza le vele"] (str "PARADISO")
              [str "CANTO PRIMO"; str "La gloria di colui che tutto move"] []
              ltac:(vm_compute; reflexivity)
              ltac:(exists (str "PURGATORIO"); split; [left|vm_compute]; reflexivity)
              ltac:(vm_compute; reflexivity)
              ltac:(intros l [<-|[]]; split; vm_compute; reflexivity)
              ltac:(left; vm_compute; reflexivity))
    as (f & d & Hd & Hp & Hv).
  exists f, d. split; [vm_compute; reflexivity|]. split; [exact Hd|].
  split; [exact Hp|exact Hv].
Defined.

Lemma run_aborts_on_dotted_title_witness :
  @divina_full_pipeline.run_pipeline_io ascii_only (str "commedia.pdf") [] 12 0
    (refusing_fs scenario_pages)
  = Raise (OSError (str "No such file or directory"))
  /\ @divina_full_pipeline.run_pipeline_io ascii_only (str "commedia.pdf") (str "out") 12 0
       (refusing_fs scenario_pages)
     = @divina_full_pipeline.run_pipeline ascii_only (str "commedia.pdf") (str "out") 12 0
         scenario_pages.
Proof.
  split.
  - destruct (@run_aborts_on_dotted_title ascii_only (str "commedia.pdf") [] 12 0
                (refusing_fs scenario_pages)) as (_ & _ & Hdir & _).
    apply Hdir. reflexivity.
  - destruct (@run_aborts_on_dotted_title ascii_only (str "commedia.pdf") (str "out") 12 0
                (refusing_fs scenario_pages)) as (_ & _ & _ & _ & Hok).
    destruct (Hok scenario_pages) as [Heq _]; [|exact Heq].
    split; [reflexivity|]. split; [reflexivity|]. split; reflexivity.
Defined.
